(** * Batch overlay pipeline: thumbnail_adder.py and watermark_adder.py

A shallow embedding of the two overlay scripts of the repository
(src/youtube/processing/thumbnail_adder.py and
src/youtube/processing/watermark_adder.py) and the properties of the
batch overlay pipeline stated over it.

Conventions of the embedding.
- Times (clip durations, start offsets) are rationals [Q].  The only
  arithmetic the scripts perform on them is a comparison, a halving and
  one subtraction of the constant 5, which are exact on the float values
  a video duration can take.
- The external collaborators (the file system, the moviepy calls) are an
  [environment] of oracles: each call either returns or raises.
- A Python exception is the text [str(e)] it carries; only exceptions of
  class [Exception] are modelled.  [close()] and the logging calls do not
  raise.
- Log messages are structured values: one constructor per f-string of the
  source, carrying the interpolated values. *)

From Stdlib Require Import String Ascii List Bool Arith ZArith QArith Lia Permutation.
Import ListNotations.

Close Scope Q_scope.

Local Open Scope list_scope.
Local Open Scope string_scope.

(** ** Path functions of [os.path] (posixpath) *)

Module PosixPath.

Definition sep : ascii := "/"%char.
Definition extsep : ascii := "."%char.

(** [s.rfind(c)]: index of the last occurrence, [-1] when there is none. *)
Fixpoint rfind_from (c : ascii) (s : string) (i : Z) (last : Z) : Z :=
  match s with
  | EmptyString => last
  | String a r => rfind_from c r (i + 1) (if Ascii.eqb a c then i else last)
  end.

Definition rfind (c : ascii) (s : string) : Z := rfind_from c s 0 (-1).

(** [s[i:]] and [s[:i]] for [0 <= i]. *)
Definition drop (i : nat) (s : string) : string :=
  String.substring i (String.length s - i) s.
Definition take (i : nat) (s : string) : string :=
  String.substring 0 i s.

(** [os.path.basename(p)]: [p[p.rfind('/') + 1:]]. *)
Definition basename (p : string) : string :=
  drop (Z.to_nat (rfind sep p + 1)) p.

(** [os.path.splitext(p)]: the extension starts at the last dot of the last
    path component; leading dots of that component do not start one. *)
Definition splitext (p : string) : string * string :=
  let sepIndex := rfind sep p in
  let dotIndex := rfind extsep p in
  if (sepIndex <? dotIndex)%Z then
    let filenameIndex := Z.to_nat (sepIndex + 1) in
    let between := seq filenameIndex (Z.to_nat dotIndex - filenameIndex) in
    if existsb (fun i => match String.get i p with
                         | Some a => negb (Ascii.eqb a extsep)
                         | None => false
                         end) between
    then (take (Z.to_nat dotIndex) p, drop (Z.to_nat dotIndex) p)
    else (p, "")
  else (p, "").

Definition startswith_sep (s : string) : bool :=
  match s with
  | String a _ => Ascii.eqb a sep
  | EmptyString => false
  end.

Fixpoint endswith_sep (s : string) : bool :=
  match s with
  | EmptyString => false
  | String a EmptyString => Ascii.eqb a sep
  | String _ r => endswith_sep r
  end.

(** [os.path.join(a, b)] for two components. *)
Definition join (a b : string) : string :=
  if startswith_sep b then b
  else if (String.length a =? 0)%nat || endswith_sep a then a ++ b
  else a ++ "/" ++ b.

End PosixPath.

(** ** AssetResolver: [find_matching_thumbnail] (thumbnail_adder.py) *)

Module Resolver.

Section WithFileSystem.

(** [os.path.exists] *)
Variable path_exists : string -> bool.

(** The inner loop [for thumb_dir in thumbnail_patterns] for one pattern. *)
Fixpoint probe_dirs (pattern : string) (thumbnail_patterns : list string)
  : option string :=
  match thumbnail_patterns with
  | [] => None
  | thumb_dir :: rest =>
      let thumb_path := PosixPath.join thumb_dir pattern in
      if path_exists thumb_path then Some thumb_path
      else probe_dirs pattern rest
  end.

(** The outer loop [for pattern in patterns]. *)
Fixpoint probe (patterns : list string) (thumbnail_patterns : list string)
  : option string :=
  match patterns with
  | [] => None
  | pattern :: rest =>
      match probe_dirs pattern thumbnail_patterns with
      | Some thumb_path => Some thumb_path
      | None => probe rest thumbnail_patterns
      end
  end.

Definition video_name_of (video_file : string) : string :=
  fst (PosixPath.splitext (PosixPath.basename video_file)).

Definition patterns_for (video_name : string) : list string :=
  [ video_name ++ "_thumb.png";
    video_name ++ "_thumbnail.png";
    video_name ++ ".png";
    "thumb_" ++ video_name ++ ".png" ].

Definition find_matching_thumbnail
           (video_file : string) (thumbnail_patterns : list string)
  : option string :=
  let video_name := video_name_of video_file in
  let patterns := patterns_for video_name in
  probe patterns thumbnail_patterns.

(** The resolution order as the specification words it: every pattern is
    tried in the first directory before any pattern is tried in the
    second.  Used only to compare with [probe]. *)
Fixpoint spec_probe_patterns (thumb_dir : string) (patterns : list string)
  : option string :=
  match patterns with
  | [] => None
  | pattern :: rest =>
      let thumb_path := PosixPath.join thumb_dir pattern in
      if path_exists thumb_path then Some thumb_path
      else spec_probe_patterns thumb_dir rest
  end.

Fixpoint spec_directory_first (patterns : list string) (dirs : list string)
  : option string :=
  match dirs with
  | [] => None
  | thumb_dir :: rest =>
      match spec_probe_patterns thumb_dir patterns with
      | Some thumb_path => Some thumb_path
      | None => spec_directory_first patterns rest
      end
  end.

End WithFileSystem.

End Resolver.

(** ** The runtime shared by the two scripts *)

Module Runtime.

(** An exception, as the text [str(e)]. *)
Definition exn := string.

(** The outcome of a call: it returns or it raises. *)
Inductive result (A : Type) : Type :=
| Returns (a : A)
| Raises (e : exn).
Arguments Returns {A} a.
Arguments Raises {A} e.

(** The [level] argument of [thread_safe_log]. *)
Inductive level := info | error | warning.

(** The messages the scripts log, one constructor per f-string. *)
Inductive message :=
| MsgThumbnailNotFound (thumbnail_path : string)
| MsgFadeNotAvailable
| MsgFadeFailed (fade_error : exn)
| MsgThumbnailAdded (name : string)
| MsgThumbnailUsed (name : string) (duration : Q)
| MsgMainWatermarkNotFound (watermark_path_main : string)
| MsgLast5NotFoundUsingMain (watermark_path_last5 : string)
| MsgWatermarksAdded (name : string)
| MsgMainPosition (x_pos y_pos : Z)
| MsgLast5Position (x_pos_last y_pos_last : Z)
| MsgErrorProcessing (name : string) (e : exn)
| MsgInputNotFound (input_file : string)
| MsgProcessing (progress_info name : string)
| MsgCompleted (name : string)
| MsgFailed (name : string)
| MsgGeneratedException (name : string) (exc : exn).

(** The three pairs of fade methods the thumbnail script probes for. *)
Inductive fade_method := fadein | fade_in | crossfadein.

(** What [VideoFileClip] reads from the source. *)
Record video_info := {
  v_duration : Q;
  v_size : Z * Z;
  v_fps : Q
}.

(** A clip object.  [handle] names the underlying resource: the methods
    that return a modified copy ([resized], [set_position], [set_start],
    [with_start], the fades) keep it. *)
Record clip := {
  handle : nat;
  source : string;
  clip_duration : Q;
  clip_start : Q;
  clip_size : option (Z * Z);
  clip_position : option (Z * Z);
  clip_fade : option (fade_method * Q)
}.

Record composite := {
  comp_handle : nat;
  layers : list clip;
  comp_size : option (Z * Z)
}.

(** What a handle was opened for. *)
Inductive opened :=
| OVideo (input_path : string)
| OImage (path : string) (duration : Q)
| OComposite (clips : list clip).

(** The calls into the compositing collaborator that took effect. *)
Inductive event :=
| Opened (h : nat) (what : opened)
| Resized (h : nat) (size : Z * Z)
| Positioned (h : nat) (pos : Z * Z)
| Started (h : nat) (t : Q)
| Faded (h : nat) (m : fade_method) (fade_duration : Q)
| Wrote (output_path : string) (final_video : composite) (fps : Q)
| Closed (h : nat).

Record state := {
  next_handle : nat;
  trace : list event;
  log : list (level * message)
}.

Definition initial : state :=
  {| next_handle := 0; trace := []; log := [] |}.

(** The external collaborators. *)
Record environment := {
  path_exists : string -> bool;
  VideoFileClip : string -> result video_info;
  ImageClip : string -> Q -> result unit;
  resized : clip -> Z * Z -> result unit;
  set_position : clip -> Z * Z -> result unit;
  set_start : clip -> Q -> result unit;
  hasattr : clip -> fade_method -> bool;
  fade : fade_method -> clip -> Q -> result unit;
  CompositeVideoClip : list clip -> option (Z * Z) -> result unit;
  write_videofile : composite -> string -> result unit
}.

(** [x < y] on rationals, as a boolean. *)
Definition Qlt_bool (x y : Q) : bool := negb (Qle_bool y x).

(** *** Reading a trace *)

(** The handles opened and not closed since, oldest first. *)
Fixpoint open_handles_from (held : list nat) (tr : list event) : list nat :=
  match tr with
  | [] => held
  | Opened h _ :: rest => open_handles_from (held ++ [h])%list rest
  | Closed h :: rest =>
      open_handles_from (filter (fun k => negb (Nat.eqb k h)) held) rest
  | _ :: rest => open_handles_from held rest
  end.

Definition open_handles (tr : list event) : list nat :=
  open_handles_from [] tr.

Definition times_opened (h : nat) (tr : list event) : nat :=
  List.length (filter (fun e => match e with
                                | Opened k _ => Nat.eqb k h
                                | _ => false
                                end) tr).

Definition times_closed (h : nat) (tr : list event) : nat :=
  List.length (filter (fun e => match e with
                                | Closed k => Nat.eqb k h
                                | _ => false
                                end) tr).

(** The placement the specification gives a duration-limited overlay:
    every start time set is [source_duration - overlay_duration]. *)
Definition ends_with_source (source_duration overlay_duration : Q)
           (tr : list event) : Prop :=
  forall h t, In (Started h t) tr ->
              (t == source_duration - overlay_duration)%Q.


(** *** The monad of a function body

A body runs over the frame [L] of its local variables and the [state];
it returns a value or raises.  The frame is kept when the body raises,
which is what [locals()] shows to the [except] clause. *)

Section Body.

Context {L : Type}.

Definition M (A : Type) : Type := L -> state -> result A * L * state.

Definition ret {A} (a : A) : M A := fun l s => (Returns a, l, s).

Definition bind {A B} (m : M A) (k : A -> M B) : M B :=
  fun l s =>
    match m l s with
    | (Returns a, l', s') => k a l' s'
    | (Raises e, l', s') => (Raises e, l', s')
    end.

(** [try: body / except Exception as e: handler e] *)
Definition try_except {A} (body : M A) (handler : exn -> M A) : M A :=
  fun l s =>
    match body l s with
    | (Returns a, l', s') => (Returns a, l', s')
    | (Raises e, l', s') => handler e l' s'
    end.

(** The outcome of an external call. *)
Definition call {A} (r : result A) : M A := fun l s => (r, l, s).

(** [x = value] *)
Definition assign (set : L -> L) : M unit :=
  fun l s => (Returns tt, set l, s).

(** Reading the local variable [x]. *)
Definition local {A} (get : L -> option A) : M A :=
  fun l s =>
    match get l with
    | Some a => (Returns a, l, s)
    | None => (Raises "UnboundLocalError", l, s)
    end.

(** [if 'x' in locals(): f(x)] *)
Definition if_in_locals {A} (get : L -> option A) (f : A -> M unit) : M unit :=
  fun l s =>
    match get l with
    | Some a => f a l s
    | None => (Returns tt, l, s)
    end.

Definition emit (e : event) : M unit :=
  fun l s =>
    (Returns tt, l,
     {| next_handle := next_handle s;
        trace := (trace s ++ [e])%list;
        log := log s |}).

Definition fresh : M nat :=
  fun l s =>
    (Returns (next_handle s), l,
     {| next_handle := S (next_handle s);
        trace := trace s;
        log := log s |}).

Definition thread_safe_log (msg : message) (lvl : level) : M unit :=
  fun l s =>
    (Returns tt, l,
     {| next_handle := next_handle s;
        trace := trace s;
        log := (log s ++ [(lvl, msg)])%list |}).

End Body.

Declare Scope body_scope.
Delimit Scope body_scope with body.
Notation "x <- m ;; k" := (bind m (fun x => k))
  (at level 61, m at next level, right associativity) : body_scope.
Notation "m ;; k" := (bind m (fun _ => k))
  (at level 61, right associativity) : body_scope.

(** *** The collaborator's primitives *)

Section Primitives.

Context {L : Type}.
Variable env : environment.

Local Open Scope body_scope.

(** [VideoFileClip(input_path)] *)
Definition open_video (input_path : string) : @M L (clip * video_info) :=
  vi <- call (VideoFileClip env input_path) ;;
  h <- fresh ;;
  emit (Opened h (OVideo input_path)) ;;
  ret ({| handle := h; source := input_path;
          clip_duration := v_duration vi; clip_start := 0%Q;
          clip_size := Some (v_size vi); clip_position := None;
          clip_fade := None |}, vi).

(** [ImageClip(path, duration=duration)] *)
Definition open_image (path : string) (duration : Q) : @M L clip :=
  call (ImageClip env path duration) ;;
  h <- fresh ;;
  emit (Opened h (OImage path duration)) ;;
  ret {| handle := h; source := path;
         clip_duration := duration; clip_start := 0%Q;
         clip_size := None; clip_position := None;
         clip_fade := None |}.

(** [c.resized(size)] *)
Definition do_resized (c : clip) (size : Z * Z) : @M L clip :=
  call (resized env c size) ;;
  emit (Resized (handle c) size) ;;
  ret {| handle := handle c; source := source c;
         clip_duration := clip_duration c; clip_start := clip_start c;
         clip_size := Some size; clip_position := clip_position c;
         clip_fade := clip_fade c |}.

(** [c.set_position(pos)] *)
Definition do_set_position (c : clip) (pos : Z * Z) : @M L clip :=
  call (set_position env c pos) ;;
  emit (Positioned (handle c) pos) ;;
  ret {| handle := handle c; source := source c;
         clip_duration := clip_duration c; clip_start := clip_start c;
         clip_size := clip_size c; clip_position := Some pos;
         clip_fade := clip_fade c |}.

(** [c.set_start(t)], [c.with_start(t)] *)
Definition do_set_start (c : clip) (t : Q) : @M L clip :=
  call (set_start env c t) ;;
  emit (Started (handle c) t) ;;
  ret {| handle := handle c; source := source c;
         clip_duration := clip_duration c; clip_start := t;
         clip_size := clip_size c; clip_position := clip_position c;
         clip_fade := clip_fade c |}.

(** [c.fadein(d).fadeout(d)] and its two namesakes. *)
Definition do_fade (m : fade_method) (c : clip) (d : Q) : @M L clip :=
  call (fade env m c d) ;;
  emit (Faded (handle c) m d) ;;
  ret {| handle := handle c; source := source c;
         clip_duration := clip_duration c; clip_start := clip_start c;
         clip_size := clip_size c; clip_position := clip_position c;
         clip_fade := Some (m, d) |}.

(** [CompositeVideoClip(clips, size=size)] *)
Definition open_composite (clips : list clip) (size : option (Z * Z))
  : @M L composite :=
  call (CompositeVideoClip env clips size) ;;
  h <- fresh ;;
  emit (Opened h (OComposite clips)) ;;
  ret {| comp_handle := h; layers := clips; comp_size := size |}.

(** [final_video.write_videofile(output_path, codec="libx264",
    audio_codec="aac", fps=fps, preset="medium", ffmpeg_params=["-crf", "23"])] *)
Definition do_write_videofile (final_video : composite) (output_path : string)
           (fps : Q) : @M L unit :=
  call (write_videofile env final_video output_path) ;;
  emit (Wrote output_path final_video fps).

(** [c.close()] *)
Definition close (h : nat) : @M L unit := emit (Closed h).

End Primitives.

End Runtime.

(** ** OverlayEngine of thumbnail_adder.py *)

Module Thumbnail.

Import Runtime.
Local Open Scope body_scope.

(** [THUMBNAIL_DURATION = 0.1] and [THUMBNAIL_FADE_DURATION = 0.1] *)
Definition THUMBNAIL_DURATION : Q := (1 # 10)%Q.
Definition THUMBNAIL_FADE_DURATION : Q := (1 # 10)%Q.

(** [MAX_WORKERS = min(multiprocessing.cpu_count(), 4)] *)
Definition MAX_WORKERS (cpu_count : Z) : Z := Z.min cpu_count 4.

(** The local variables of [add_thumbnail_to_video] that its [except]
    clause looks up in [locals()]. *)
Record locals := {
  video : option clip;
  thumbnail : option clip;
  final_video : option composite
}.

Definition no_locals : locals :=
  {| video := None; thumbnail := None; final_video := None |}.

Definition set_video (c : clip) (l : locals) : locals :=
  {| video := Some c; thumbnail := thumbnail l; final_video := final_video l |}.

Definition set_thumbnail (c : clip) (l : locals) : locals :=
  {| video := video l; thumbnail := Some c; final_video := final_video l |}.

Definition set_final_video (c : composite) (l : locals) : locals :=
  {| video := video l; thumbnail := thumbnail l; final_video := Some c |}.

Section Engine.

Variable env : environment.

(** The body of the [if fade_duration > 0 and fade_duration < duration / 2]
    statement: the inner [try] with its [hasattr] chain. *)
Definition apply_fade (thumbnail0 : clip) (fade_duration : Q) : M unit :=
  try_except
    (if hasattr env thumbnail0 fadein then
       faded <- do_fade env fadein thumbnail0 fade_duration ;;
       assign (set_thumbnail faded)
     else if hasattr env thumbnail0 fade_in then
       faded <- do_fade env fade_in thumbnail0 fade_duration ;;
       assign (set_thumbnail faded)
     else if hasattr env thumbnail0 crossfadein then
       faded <- do_fade env crossfadein thumbnail0 fade_duration ;;
       assign (set_thumbnail faded)
     else
       thread_safe_log MsgFadeNotAvailable warning)
    (fun fade_error =>
       thread_safe_log (MsgFadeFailed fade_error) warning).

(** The [except Exception as e] clause of [add_thumbnail_to_video]. *)
Definition on_error (input_path : string) (e : exn) : M bool :=
  thread_safe_log (MsgErrorProcessing (PosixPath.basename input_path) e) error ;;
  try_except
    (if_in_locals video (fun c => close (handle c)) ;;
     if_in_locals thumbnail (fun c => close (handle c)) ;;
     if_in_locals final_video (fun c => close (comp_handle c)))
    (fun _ => ret tt) ;;
  ret false.

Definition add_thumbnail_to_video_body
           (input_path output_path thumbnail_path : string)
           (duration fade_duration : Q) : M bool :=
  try_except
    ((* Load video *)
     opened_video <- open_video env input_path ;;
     let '(video0, vi) := opened_video in
     assign (set_video video0) ;;
     let video_duration := v_duration vi in
     let video_size := v_size vi in
     (* Check thumbnail file *)
     if negb (path_exists env thumbnail_path) then
       thread_safe_log (MsgThumbnailNotFound thumbnail_path) error ;;
       close (handle video0) ;;
       ret false
     else
       (* Load and resize thumbnail to match video size *)
       thumbnail0 <- open_image env thumbnail_path duration ;;
       assign (set_thumbnail thumbnail0) ;;
       thumbnail1 <- do_resized env thumbnail0 video_size ;;
       assign (set_thumbnail thumbnail1) ;;
       (* Add fade in/out effect to thumbnail *)
       (if Qlt_bool 0 fade_duration && Qlt_bool fade_duration (duration / 2)
        then apply_fade thumbnail1 fade_duration
        else ret tt) ;;
       (* Position thumbnail at the end of video *)
       thumbnail2 <- local thumbnail ;;
       thumbnail3 <- do_set_start env thumbnail2 video_duration ;;
       assign (set_thumbnail thumbnail3) ;;
       (* Create final composite video *)
       final_video0 <- open_composite env [video0; thumbnail3] (Some video_size) ;;
       assign (set_final_video final_video0) ;;
       (* Write output video *)
       do_write_videofile env final_video0 output_path (v_fps vi) ;;
       (* Clean up *)
       close (handle video0) ;;
       close (handle thumbnail3) ;;
       close (comp_handle final_video0) ;;
       thread_safe_log (MsgThumbnailAdded (PosixPath.basename input_path)) info ;;
       thread_safe_log
         (MsgThumbnailUsed (PosixPath.basename thumbnail_path) duration) info ;;
       ret true)
    (on_error input_path).

(** A call of [add_thumbnail_to_video]: the body run in a fresh frame.  The
    [except] clause ends in [return False], so the call itself does not
    raise; [false] stands for an exception that would leave the handler. *)
Definition add_thumbnail_to_video
           (input_path output_path thumbnail_path : string)
           (duration fade_duration : Q) (s : state) : bool * state :=
  match add_thumbnail_to_video_body input_path output_path thumbnail_path
                                    duration fade_duration no_locals s with
  | (Returns b, _, s') => (b, s')
  | (Raises _, _, s') => (false, s')
  end.

(** A task of the batch: [(input_file, output_file, thumbnail_file,
    progress_info)]. *)
Record video_task := {
  input_file : string;
  output_file : string;
  thumbnail_file : string;
  progress_info : string
}.

Definition log_entry (msg : message) (lvl : level) (s : state) : state :=
  {| next_handle := next_handle s;
     trace := trace s;
     log := (log s ++ [(lvl, msg)])%list |}.

(** [process_single_video_threaded(video_info)]; the elapsed time of the
    "Completed" message is left out. *)
Definition process_single_video_threaded (video_info : video_task) (s : state)
  : (bool * string) * state :=
  if negb (path_exists env (input_file video_info)) then
    ((false, input_file video_info),
     log_entry (MsgInputNotFound (input_file video_info)) error s)
  else
    let s1 := log_entry (MsgProcessing (progress_info video_info)
                           (PosixPath.basename (input_file video_info))) info s in
    let '(success, s2) :=
      add_thumbnail_to_video (input_file video_info) (output_file video_info)
                             (thumbnail_file video_info)
                             THUMBNAIL_DURATION THUMBNAIL_FADE_DURATION s1 in
    let s3 :=
      if success
      then log_entry (MsgCompleted (PosixPath.basename (input_file video_info))) info s2
      else log_entry (MsgFailed (PosixPath.basename (input_file video_info))) error s2 in
    ((success, input_file video_info), s3).

(** [process_single_video(input_file, thumbnail_file, output_file=None)];
    [OUTPUT_DIR] is a parameter. *)
Definition process_single_video (OUTPUT_DIR : string)
           (input_file0 thumbnail_file0 : string) (output_file0 : option string)
           (s : state) : bool * state :=
  if negb (path_exists env input_file0) then
    (false, log_entry (MsgInputNotFound input_file0) error s)
  else if negb (path_exists env thumbnail_file0) then
    (false, log_entry (MsgThumbnailNotFound thumbnail_file0) error s)
  else
    let output_file1 :=
      match output_file0 with
      | Some o => o
      | None =>
          let filename := PosixPath.basename input_file0 in
          let '(name, ext) := PosixPath.splitext filename in
          PosixPath.join OUTPUT_DIR (name ++ "_with_thumbnail" ++ ext)
      end in
    add_thumbnail_to_video input_file0 output_file1 thumbnail_file0
                           THUMBNAIL_DURATION THUMBNAIL_FADE_DURATION s.

End Engine.

End Thumbnail.

(** ** OverlayEngine of watermark_adder.py *)

Module Watermark.

Import Runtime.
Local Open Scope body_scope.

(** [MAX_WORKERS = min(multiprocessing.cpu_count(), 4)] *)
Definition MAX_WORKERS (cpu_count : Z) : Z := Z.min cpu_count 4.

(** The watermark positions of the script. *)
Definition WATERMARK_X : Z := 515.
Definition WATERMARK_Y : Z := 330.
Definition WATERMARK_X_LAST_5SEC : Z := 235.
Definition WATERMARK_Y_LAST_5SEC : Z := 960.

(** The local variables of [add_watermark_to_video] that its [except]
    clause looks up in [locals()]. *)
Record locals := {
  video : option clip;
  watermark_main : option clip;
  watermark_last : option clip;
  final_video : option composite
}.

Definition no_locals : locals :=
  {| video := None; watermark_main := None; watermark_last := None;
     final_video := None |}.

Definition set_video (c : clip) (l : locals) : locals :=
  {| video := Some c; watermark_main := watermark_main l;
     watermark_last := watermark_last l; final_video := final_video l |}.

Definition set_watermark_main (c : clip) (l : locals) : locals :=
  {| video := video l; watermark_main := Some c;
     watermark_last := watermark_last l; final_video := final_video l |}.

Definition set_watermark_last (c : clip) (l : locals) : locals :=
  {| video := video l; watermark_main := watermark_main l;
     watermark_last := Some c; final_video := final_video l |}.

Definition set_final_video (c : composite) (l : locals) : locals :=
  {| video := video l; watermark_main := watermark_main l;
     watermark_last := watermark_last l; final_video := Some c |}.

Section Engine.

Variable env : environment.

(** The [except Exception as e] clause of [add_watermark_to_video]: each
    [close()] has a [try] of its own. *)
Definition on_error (input_path : string) (e : exn) : M bool :=
  thread_safe_log (MsgErrorProcessing (PosixPath.basename input_path) e) error ;;
  if_in_locals video
    (fun c => try_except (close (handle c)) (fun _ => ret tt)) ;;
  if_in_locals watermark_main
    (fun c => try_except (close (handle c)) (fun _ => ret tt)) ;;
  if_in_locals watermark_last
    (fun c => try_except (close (handle c)) (fun _ => ret tt)) ;;
  if_in_locals final_video
    (fun c => try_except (close (comp_handle c)) (fun _ => ret tt)) ;;
  ret false.

Definition add_watermark_to_video_body
           (input_path output_path : string)
           (watermark_path_main watermark_path_last5 : string)
           (x_pos y_pos x_pos_last y_pos_last : Z) : M bool :=
  try_except
    ((* Load video *)
     opened_video <- open_video env input_path ;;
     let '(video0, vi) := opened_video in
     assign (set_video video0) ;;
     let duration := v_duration vi in
     (* Check watermark files *)
     if negb (path_exists env watermark_path_main) then
       thread_safe_log (MsgMainWatermarkNotFound watermark_path_main) error ;;
       ret false
     else
       watermark_path_last5' <-
         (if negb (path_exists env watermark_path_last5) then
            thread_safe_log (MsgLast5NotFoundUsingMain watermark_path_last5)
                            warning ;;
            ret watermark_path_main
          else ret watermark_path_last5) ;;
       (* Main watermark for entire video *)
       watermark_main0 <- open_image env watermark_path_main duration ;;
       assign (set_watermark_main watermark_main0) ;;
       watermark_main1 <- do_set_position env watermark_main0 (x_pos, y_pos) ;;
       assign (set_watermark_main watermark_main1) ;;
       (if Qle_bool duration 5 then
          (* If video is <=5s, use both watermarks throughout *)
          watermark_last0 <- open_image env watermark_path_last5' duration ;;
          assign (set_watermark_last watermark_last0) ;;
          watermark_last1 <-
            do_set_position env watermark_last0 (x_pos_last, y_pos_last) ;;
          assign (set_watermark_last watermark_last1) ;;
          final_video0 <-
            open_composite env [video0; watermark_main1; watermark_last1] None ;;
          assign (set_final_video final_video0)
        else
          (* Use different watermark for last 5 seconds *)
          watermark_last0 <- open_image env watermark_path_last5' 5 ;;
          assign (set_watermark_last watermark_last0) ;;
          watermark_last1 <-
            do_set_position env watermark_last0 (x_pos_last, y_pos_last) ;;
          watermark_last2 <- do_set_start env watermark_last1 (duration - 5) ;;
          assign (set_watermark_last watermark_last2) ;;
          final_video0 <-
            open_composite env [video0; watermark_main1; watermark_last2] None ;;
          assign (set_final_video final_video0)) ;;
       (* Write output video *)
       final_video1 <- local final_video ;;
       do_write_videofile env final_video1 output_path (v_fps vi) ;;
       (* Clean up *)
       close (handle video0) ;;
       close (handle watermark_main1) ;;
       watermark_last3 <- local watermark_last ;;
       close (handle watermark_last3) ;;
       close (comp_handle final_video1) ;;
       thread_safe_log (MsgWatermarksAdded (PosixPath.basename input_path)) info ;;
       thread_safe_log (MsgMainPosition x_pos y_pos) info ;;
       thread_safe_log (MsgLast5Position x_pos_last y_pos_last) info ;;
       ret true)
    (on_error input_path).

(** A call of [add_watermark_to_video]: the body run in a fresh frame. *)
Definition add_watermark_to_video
           (input_path output_path : string)
           (watermark_path_main watermark_path_last5 : string)
           (x_pos y_pos x_pos_last y_pos_last : Z) (s : state) : bool * state :=
  match add_watermark_to_video_body input_path output_path
          watermark_path_main watermark_path_last5
          x_pos y_pos x_pos_last y_pos_last no_locals s with
  | (Returns b, _, s') => (b, s')
  | (Raises _, _, s') => (false, s')
  end.

(** A task of the batch: [(input_path, output_path, progress_info)]. *)
Record video_task := {
  input_file : string;
  output_file : string;
  progress_info : string
}.

Definition log_entry (msg : message) (lvl : level) (s : state) : state :=
  {| next_handle := next_handle s;
     trace := trace s;
     log := (log s ++ [(lvl, msg)])%list |}.

(** [process_single_video_threaded(video_info)] with the watermark paths
    [WATERMARK_PATH] and [WATERMARK_PATH_LAST_5SEC] as parameters; the
    elapsed time of the "Completed" message is left out. *)
Definition process_single_video_threaded
           (WATERMARK_PATH WATERMARK_PATH_LAST_5SEC : string)
           (video_info : video_task) (s : state)
  : (bool * string) * state :=
  if negb (path_exists env (input_file video_info)) then
    ((false, input_file video_info),
     log_entry (MsgInputNotFound (input_file video_info)) error s)
  else
    let s1 := log_entry (MsgProcessing (progress_info video_info)
                           (PosixPath.basename (input_file video_info))) info s in
    let '(success, s2) :=
      add_watermark_to_video (input_file video_info) (output_file video_info)
                             WATERMARK_PATH WATERMARK_PATH_LAST_5SEC
                             WATERMARK_X WATERMARK_Y
                             WATERMARK_X_LAST_5SEC WATERMARK_Y_LAST_5SEC s1 in
    let s3 :=
      if success
      then log_entry (MsgCompleted (PosixPath.basename (input_file video_info))) info s2
      else log_entry (MsgFailed (PosixPath.basename (input_file video_info))) error s2 in
    ((success, input_file video_info), s3).

End Engine.

End Watermark.

(** ** WorkerPool and ResultAggregator: the [with ThreadPoolExecutor] block
    of [process_directory], the same in both scripts *)

Module Pool.

Import Runtime.

(** The running totals of the collecting loop; [pool_log] holds the entries
    the loop itself logs. *)
Record tally := {
  success_count : nat;
  failed_files : list string;
  pool_log : list (level * message)
}.

Definition no_results : tally :=
  {| success_count := 0; failed_files := []; pool_log := [] |}.

Section Executor.

(** The tuples of [video_tasks] and their first component [task[0]]. *)
Variable T : Type.
Variable task0 : T -> string.

(** [future.result()], by the number of the future: the pair the worker
    returned, or the exception it raised. *)
Variable result_of : nat -> result (bool * string).

(** [executor.submit(process_single_video_threaded, task)] for each task in
    turn: the futures are numbered in the order of submission. *)
Fixpoint submit_all (next : nat) (video_tasks : list T) : list (nat * T) :=
  match video_tasks with
  | [] => []
  | task :: rest => (next, task) :: submit_all (S next) rest
  end.

(** The dict [future_to_video]: future to [task[0]]. *)
Definition future_to_video (futures : list (nat * T)) : list (nat * string) :=
  map (fun f => (fst f, task0 (snd f))) futures.

(** [d[k]] *)
Fixpoint lookup (k : nat) (d : list (nat * string)) : option string :=
  match d with
  | [] => None
  | (k', v) :: rest => if Nat.eqb k' k then Some v else lookup k rest
  end.

(** One turn of [for future in as_completed(future_to_video)]. *)
Definition collect_one (d : list (nat * string)) (acc : tally) (future : nat)
  : result tally :=
  match result_of future with
  | Returns (success, input_file) =>
      if success then
        Returns {| success_count := success_count acc + 1;
                   failed_files := failed_files acc;
                   pool_log := pool_log acc |}
      else
        Returns {| success_count := success_count acc;
                   failed_files :=
                     (failed_files acc ++ [PosixPath.basename input_file])%list;
                   pool_log := pool_log acc |}
  | Raises exc =>
      match lookup future d with
      | None => Raises "KeyError"
      | Some input_file =>
          Returns {| success_count := success_count acc;
                     failed_files :=
                       (failed_files acc ++ [PosixPath.basename input_file])%list;
                     pool_log :=
                       (pool_log acc ++
                        [(error, MsgGeneratedException
                                   (PosixPath.basename input_file) exc)])%list |}
      end
  end.

(** The loop over the futures in the order they complete. *)
Fixpoint collect (d : list (nat * string)) (completed : list nat) (acc : tally)
  : result tally :=
  match completed with
  | [] => Returns acc
  | future :: rest =>
      match collect_one d acc future with
      | Returns acc' => collect d rest acc'
      | Raises e => Raises e
      end
  end.

(** The [with ThreadPoolExecutor(...)] block: [completed] is the order in
    which [as_completed] yields the futures. *)
Definition run_pool (video_tasks : list T) (completed : list nat)
  : result tally :=
  let futures := submit_all 0 video_tasks in
  collect (future_to_video futures) completed no_results.

(** The futures of a batch. *)
Definition futures_of (video_tasks : list T) : list nat :=
  map fst (submit_all 0 video_tasks).

(** What one future adds to [failed_files], read off its own outcome. *)
Definition failure_of (video_tasks : list T) (future : nat) : list string :=
  match result_of future with
  | Returns (true, _) => []
  | Returns (false, input_file) => [PosixPath.basename input_file]
  | Raises _ =>
      match nth_error video_tasks future with
      | Some task => [PosixPath.basename (task0 task)]
      | None => []
      end
  end.

(** What one future adds to the log of the loop. *)
Definition logged_of (video_tasks : list T) (future : nat)
  : list (level * message) :=
  match result_of future with
  | Returns _ => []
  | Raises exc =>
      match nth_error video_tasks future with
      | Some task =>
          [(error, MsgGeneratedException
                     (PosixPath.basename (task0 task)) exc)]
      | None => []
      end
  end.

(** What one future adds to [success_count]. *)
Definition success_of (future : nat) : nat :=
  match result_of future with
  | Returns (true, _) => 1
  | _ => 0
  end.

End Executor.

(** The two instances: the workers of the scripts, each run on its task. *)
Definition thumbnail_results (env : environment)
           (video_tasks : list Thumbnail.video_task) (future : nat)
  : result (bool * string) :=
  match nth_error video_tasks future with
  | Some task =>
      Returns (fst (Thumbnail.process_single_video_threaded env task initial))
  | None => Raises "InvalidStateError"
  end.

Definition thumbnail_process_directory (env : environment)
           (video_tasks : list Thumbnail.video_task) (completed : list nat)
  : result tally :=
  run_pool Thumbnail.video_task Thumbnail.input_file
           (thumbnail_results env video_tasks) video_tasks completed.

Definition watermark_results (env : environment)
           (WATERMARK_PATH WATERMARK_PATH_LAST_5SEC : string)
           (video_tasks : list Watermark.video_task) (future : nat)
  : result (bool * string) :=
  match nth_error video_tasks future with
  | Some task =>
      Returns (fst (Watermark.process_single_video_threaded
                      env WATERMARK_PATH WATERMARK_PATH_LAST_5SEC task initial))
  | None => Raises "InvalidStateError"
  end.

Definition watermark_process_directory (env : environment)
           (WATERMARK_PATH WATERMARK_PATH_LAST_5SEC : string)
           (video_tasks : list Watermark.video_task) (completed : list nat)
  : result tally :=
  run_pool Watermark.video_task Watermark.input_file
           (watermark_results env WATERMARK_PATH WATERMARK_PATH_LAST_5SEC
                              video_tasks)
           video_tasks completed.

End Pool.

(** ** Concrete inputs used by the examples below *)

Module Examples.

Import Runtime.

(** A file system holding exactly the listed paths. *)
Definition files (present : list string) (p : string) : bool :=
  existsb (String.eqb p) present.

(** Two thumbnail directories, each with a match for [clip]: the first holds
    [clip.png] (third pattern), the second [clip_thumb.png] (first pattern). *)
Definition two_matches : string -> bool :=
  files ["/thumbs/clip.png"; "/in/clip_thumb.png"].

(** A ten-second and a three-second source. *)
Definition ten_seconds : video_info :=
  {| v_duration := 10; v_size := (1920, 1080)%Z; v_fps := 30 |}.


(** Every collaborator call returns; [fades] tells whether the clips have
    the fade methods. *)
Definition cooperative (present : list string) (vi : video_info) (fades : bool)
  : environment :=
  {| path_exists := files present;
     VideoFileClip := fun _ => Returns vi;
     ImageClip := fun _ _ => Returns tt;
     resized := fun _ _ => Returns tt;
     set_position := fun _ _ => Returns tt;
     set_start := fun _ _ => Returns tt;
     hasattr := fun _ _ => fades;
     fade := fun _ _ _ => Returns tt;
     CompositeVideoClip := fun _ _ => Returns tt;
     write_videofile := fun _ _ => Returns tt |}.

(** As [cooperative], but the encoder fails. *)
Definition failing_write (present : list string) (vi : video_info)
  : environment :=
  {| path_exists := files present;
     VideoFileClip := fun _ => Returns vi;
     ImageClip := fun _ _ => Returns tt;
     resized := fun _ _ => Returns tt;
     set_position := fun _ _ => Returns tt;
     set_start := fun _ _ => Returns tt;
     hasattr := fun _ _ => true;
     fade := fun _ _ _ => Returns tt;
     CompositeVideoClip := fun _ _ => Returns tt;
     write_videofile := fun _ _ => Raises "ffmpeg failed" |}.

(** As [cooperative], with the fade methods present but raising. *)
Definition failing_fade (present : list string) (vi : video_info)
  : environment :=
  {| path_exists := files present;
     VideoFileClip := fun _ => Returns vi;
     ImageClip := fun _ _ => Returns tt;
     resized := fun _ _ => Returns tt;
     set_position := fun _ _ => Returns tt;
     set_start := fun _ _ => Returns tt;
     hasattr := fun _ _ => true;
     fade := fun _ _ _ => Raises "fade failed";
     CompositeVideoClip := fun _ _ => Returns tt;
     write_videofile := fun _ _ => Returns tt |}.

(** The files of a complete run. *)
Definition all_present : list string :=
  ["/in/clip.mp4"; "/wm/logo.png"; "/wm/subscribe.png"; "/thumbs/clip.png"].

(** The source exists and opens; the main watermark file is missing. *)
Definition missing_main_watermark : environment :=
  cooperative ["/in/clip.mp4"; "/wm/subscribe.png"] ten_seconds true.


(** A batch of three tasks: the first succeeds, the worker of the second
    raises, the third fails. *)
Definition three_tasks : list Watermark.video_task :=
  [ {| Watermark.input_file := "/in/a.mp4";
       Watermark.output_file := "/out/a_watermarked.mp4";
       Watermark.progress_info := "1/3" |};
    {| Watermark.input_file := "/in/b.mp4";
       Watermark.output_file := "/out/b_watermarked.mp4";
       Watermark.progress_info := "2/3" |};
    {| Watermark.input_file := "/in/c.mp4";
       Watermark.output_file := "/out/c_watermarked.mp4";
       Watermark.progress_info := "3/3" |} ].

Definition mixed_results (future : nat) : result (bool * string) :=
  match future with
  | 0%nat => Returns (true, "/in/a.mp4")
  | 1%nat => Raises "boom"
  | _ => Returns (false, "/in/c.mp4")
  end.



End Examples.

From Stdlib Require Import DecimalString Sorted.

(** ** Reading the outcome of a call *)

Module Observe.

Import Runtime.

(** The [write_videofile] calls of a trace that returned: output path,
    composite written and frame rate. *)
Definition writes (tr : list event) : list (string * composite * Q) :=
  flat_map (fun e => match e with
                     | Wrote output_path final_video fps =>
                         [(output_path, final_video, fps)]
                     | _ => []
                     end) tr.


End Observe.

(** ** String methods the scripts use *)

Module Str.

(** [c in s] *)
Fixpoint contains (c : ascii) (s : string) : bool :=
  match s with
  | EmptyString => false
  | String a r => Ascii.eqb a c || contains c r
  end.

(** [s.endswith(suffix)] *)
Definition endswith (s suffix : string) : bool :=
  let n := String.length s in
  let m := String.length suffix in
  if (m <=? n)%nat then String.eqb (String.substring (n - m) m s) suffix
  else false.

Definition lower_char (c : ascii) : ascii :=
  let n := nat_of_ascii c in
  if (65 <=? n)%nat && (n <=? 90)%nat then ascii_of_nat (n + 32) else c.

(** [s.lower()] on the UTF-8 bytes of [s].  The letters A to Z go to a to z.
    The two other characters whose lower case has an ASCII letter are
    mapped as Python maps them: KELVIN SIGN (bytes 226 132 170) to [k], and
    LATIN CAPITAL LETTER I WITH DOT ABOVE (bytes 196 176) to [i] followed by
    COMBINING DOT ABOVE (bytes 204 135).  Every other byte is kept, so the
    result compares with an ASCII string as the Python result does. *)
Fixpoint lower (s : string) : string :=
  match s with
  | EmptyString => EmptyString
  | String a r =>
      match a, r with
      | "226"%char, String "132"%char (String "170"%char r') =>
          String "k"%char (lower r')
      | "196"%char, String "176"%char r' =>
          String "i"%char (String "204"%char (String "135"%char (lower r')))
      | _, _ => String (lower_char a) (lower r)
      end
  end.

(** [str(n)] for a natural number. *)
Definition of_nat (n : nat) : string :=
  NilZero.string_of_uint (Nat.to_uint n).

(** [enumerate(l, start)] *)
Fixpoint enumerate {A : Type} (l : list A) (start : nat) : list (nat * A) :=
  match l with
  | [] => []
  | x :: rest => (start, x) :: enumerate rest (S start)
  end.

End Str.

(** ** TaskEnumerator: what the batch functions share *)

Module Batch.

Import Runtime.

(** [supported_extensions] of [process_directory] *)
Definition supported_extensions : list string :=
  [".mp4"; ".avi"; ".mov"; ".mkv"; ".m4v"].

(** [any(f.lower().endswith(ext) for ext in supported_extensions)] *)
Definition is_video (f : string) : bool :=
  existsb (fun ext => Str.endswith (Str.lower f) ext) supported_extensions.

(** [f"{i}/{len(video_files)}"] *)
Definition progress (i total : nat) : string :=
  Str.of_nat i ++ "/" ++ Str.of_nat total.

(** [if not xs] on a list *)
Definition is_empty {A : Type} (xs : list A) : bool :=
  match xs with [] => true | _ => false end.

End Batch.

(** ** Batch functions of watermark_adder.py *)

Module WatermarkBatch.

Import Runtime.

(** What the batch functions log themselves, one constructor per f-string;
    [MsgFromCall] wraps an entry logged inside a call they make.  The two
    lines that report elapsed time are left out. *)
Inductive batch_message :=
| MsgInputDirectoryNotFound (INPUT_DIR : string)
| MsgNoVideosFound
| MsgModeMultithreaded
| MsgModeSingleThreaded
| MsgVideosToProcess (n : nat)
| MsgMainWatermark (path : string)
| MsgLast5Watermark (path : string)
| MsgMainWatermarkAt (x y : Z)
| MsgLast5WatermarkAt (x y : Z)
| MsgMaxWorkers (n : Z)
| MsgStarting
| MsgProcessingFile (i total : nat) (filename : string)
| MsgCompleteMultithreaded
| MsgCompleteSingleThreaded
| MsgSuccessful (success_count total : nat)
| MsgFailedCount (failed total : nat)
| MsgFailedFiles (failed_files : list string)
| MsgFromCall (msg : message).

Definition from_call (entry : level * message) : level * batch_message :=
  (fst entry, MsgFromCall (snd entry)).

Section Directory.

Variable env : environment.

(** [os.listdir] *)
Variable listdir : string -> result (list string).

Variables INPUT_DIR OUTPUT_DIR : string.
Variables WATERMARK_PATH WATERMARK_PATH_LAST_5SEC : string.

(** [multiprocessing.cpu_count()] *)
Variable cpu_count : Z.

(** The order in which [as_completed] yields the futures of a batch, by the
    number of futures submitted. *)
Variable as_completed : nat -> list nat.

(** [process_single_video(input_file, output_file=None)] *)
Definition process_single_video
           (input_file0 : string) (output_file0 : option string) (s : state)
  : bool * state :=
  if negb (path_exists env input_file0) then
    (false, Watermark.log_entry (MsgInputNotFound input_file0) error s)
  else
    let output_file1 :=
      match output_file0 with
      | Some o => o
      | None =>
          let filename := PosixPath.basename input_file0 in
          let '(name, ext) := PosixPath.splitext filename in
          PosixPath.join OUTPUT_DIR (name ++ "_watermarked" ++ ext)
      end in
    Watermark.add_watermark_to_video
      env input_file0 output_file1
      WATERMARK_PATH WATERMARK_PATH_LAST_5SEC
      Watermark.WATERMARK_X Watermark.WATERMARK_Y
      Watermark.WATERMARK_X_LAST_5SEC Watermark.WATERMARK_Y_LAST_5SEC s.

(** One turn of [for i, filename in enumerate(video_files, 1)] that
    prepares the tasks. *)
Definition task_of (total : nat) (indexed : nat * string)
  : Watermark.video_task :=
  let '(i, filename) := indexed in
  let input_path := PosixPath.join INPUT_DIR filename in
  let '(name, ext) := PosixPath.splitext filename in
  let output_path := PosixPath.join OUTPUT_DIR (name ++ "_watermarked" ++ ext) in
  let progress_info := Batch.progress i total in
  {| Watermark.input_file := input_path;
     Watermark.output_file := output_path;
     Watermark.progress_info := progress_info |}.

Definition video_tasks_of (video_files : list string)
  : list Watermark.video_task :=
  map (task_of (List.length video_files)) (Str.enumerate video_files 1).

(** What a batch function leaves behind: the log, the tasks it prepared and
    the totals of the collecting loop (none when it returned early). *)
Record report := {
  batch_log : list (level * batch_message);
  video_tasks : list Watermark.video_task;
  totals : option Pool.tally
}.

Definition banner (video_files : list string) : list (level * batch_message) :=
  [ (info, MsgModeMultithreaded);
    (info, MsgVideosToProcess (List.length video_files));
    (info, MsgMainWatermark WATERMARK_PATH);
    (info, MsgLast5Watermark WATERMARK_PATH_LAST_5SEC);
    (info, MsgMainWatermarkAt Watermark.WATERMARK_X Watermark.WATERMARK_Y);
    (info, MsgLast5WatermarkAt Watermark.WATERMARK_X_LAST_5SEC
                               Watermark.WATERMARK_Y_LAST_5SEC);
    (info, MsgMaxWorkers (Watermark.MAX_WORKERS cpu_count));
    (info, MsgStarting) ].

Definition summary (t : Pool.tally) (total : nat) : list (level * batch_message) :=
  [ (info, MsgCompleteMultithreaded);
    (info, MsgSuccessful (Pool.success_count t) total);
    (info, MsgFailedCount (List.length (Pool.failed_files t)) total) ]
  ++ (if Batch.is_empty (Pool.failed_files t) then []
      else [(info, MsgFailedFiles (Pool.failed_files t))]).

(** [process_directory()].  The entries the workers log are not part of
    [batch_log]. *)
Definition process_directory : result report :=
  if negb (path_exists env INPUT_DIR) then
    Returns {| batch_log := [(error, MsgInputDirectoryNotFound INPUT_DIR)];
               video_tasks := []; totals := None |}
  else
    match listdir INPUT_DIR with
    | Raises e => Raises e
    | Returns listing =>
        let video_files := filter Batch.is_video listing in
        if Batch.is_empty video_files then
          Returns {| batch_log := [(warning, MsgNoVideosFound)];
                     video_tasks := []; totals := None |}
        else
          let tasks := video_tasks_of video_files in
          match Pool.watermark_process_directory
                  env WATERMARK_PATH WATERMARK_PATH_LAST_5SEC
                  tasks (as_completed (List.length tasks)) with
          | Raises e => Raises e
          | Returns t =>
              Returns {| batch_log :=
                           banner video_files
                           ++ map from_call (Pool.pool_log t)
                           ++ summary t (List.length video_files);
                         video_tasks := tasks;
                         totals := Some t |}
          end
    end.




End Directory.

End WatermarkBatch.

(** ** Batch functions of thumbnail_adder.py *)

Module ThumbnailBatch.

Import Runtime.

(** What [process_directory] logs and prints, one constructor per string;
    [MsgFromCall] wraps an entry logged by the collecting loop.  The two
    lines that report elapsed time are left out. *)
Inductive batch_message :=
| MsgInputDirectoryNotFound (INPUT_DIR : string)
| MsgNoVideosFound
| MsgStrategyMenu
| PromptStrategy
| PromptThumbnailFile
| PromptThumbnailDirectory
| PromptThumbnailOrSkip
| MsgVideoOf (i total : nat) (filename : string)
| MsgThumbnailFileNotFound
| MsgThumbnailDirectoryNotFound
| MsgNoMatchingThumbnail (filename : string)
| MsgThumbnailNotFoundSkipping (filename : string)
| MsgInvalidStrategy
| MsgNoValidPairs
| MsgModeMultithreaded
| MsgVideosToProcess (n : nat)
| MsgThumbnailDuration (d : Q)
| MsgFadeDuration (d : Q)
| MsgMaxWorkers (n : Z)
| MsgStarting
| MsgComplete
| MsgSuccessful (success_count total : nat)
| MsgFailedCount (failed total : nat)
| MsgFailedFiles (failed_files : list string)
| MsgFromCall (msg : message).

(** Where a line goes: the log at a level, or standard output. *)
Inductive channel := Logged (lvl : level) | Printed.

Definition from_call (entry : level * message) : channel * batch_message :=
  (Logged (fst entry), MsgFromCall (snd entry)).

(** The operator's console: the answers still to be read, each as it is
    after the script's [strip] calls, and the lines written so far. *)
Record console := {
  answers : list string;
  written : list (channel * batch_message)
}.

(** The messages written to the log at level [warning]. *)
Definition warnings (lines : list (channel * batch_message))
  : list batch_message :=
  flat_map (fun line => match line with
                        | (Logged warning, msg) => [msg]
                        | _ => []
                        end) lines.

(** A step that talks to the operator. *)
Definition B (A : Type) : Type := console -> result A * console.

Definition pure {A} (a : A) : B A := fun c => (Returns a, c).

Definition then_ {A C} (m : B A) (k : A -> B C) : B C :=
  fun c =>
    match m c with
    | (Returns a, c') => k a c'
    | (Raises e, c') => (Raises e, c')
    end.

Definition write (line : channel * batch_message) : B unit :=
  fun c =>
    (Returns tt,
     {| answers := answers c; written := (written c ++ [line])%list |}).

(** [input(prompt)] followed by the script's [strip] calls; [EOFError] when
    there is no answer left. *)
Definition input (prompt : batch_message) : B string :=
  fun c =>
    match answers c with
    | [] =>
        (Raises "EOFError",
         {| answers := []; written := (written c ++ [(Printed, prompt)])%list |})
    | answer :: rest =>
        (Returns answer,
         {| answers := rest;
            written := (written c ++ [(Printed, prompt)])%list |})
    end.

(** An outside call that may raise. *)
Definition attempt {A} (r : result A) : B A := fun c => (r, c).

Declare Scope batch_scope.
Delimit Scope batch_scope with batch.
Notation "x <- m ;; k" := (then_ m (fun x => k))
  (at level 61, m at next level, right associativity) : batch_scope.
Notation "m ;; k" := (then_ m (fun _ => k))
  (at level 61, right associativity) : batch_scope.

Local Open Scope batch_scope.

(** [if thumbnail_file:] on what [find_matching_thumbnail] returned. *)
Definition found (thumbnail_file : option string) : option string :=
  match thumbnail_file with
  | Some "" => None
  | Some p => Some p
  | None => None
  end.

Section Directory.

Variable env : environment.

(** [os.listdir] *)
Variable listdir : string -> result (list string).

Variables INPUT_DIR OUTPUT_DIR THUMBNAIL_DIR : string.

(** [multiprocessing.cpu_count()] *)
Variable cpu_count : Z.

(** The order in which [as_completed] yields the futures of a batch, by the
    number of futures submitted. *)
Variable as_completed : nat -> list nat.

(** [get_batch_thumbnail_strategy()] *)
Definition get_batch_thumbnail_strategy : B string :=
  write (Printed, MsgStrategyMenu) ;;
  choice <- input PromptStrategy ;;
  pure choice.

(** The task appended for [filename], the [i]-th of [total] video files. *)
Definition task_of (total i : nat) (filename thumbnail_file : string)
  : Thumbnail.video_task :=
  let input_path := PosixPath.join INPUT_DIR filename in
  let '(name, ext) := PosixPath.splitext filename in
  let output_path :=
    PosixPath.join OUTPUT_DIR (name ++ "_with_thumbnail" ++ ext) in
  let progress_info := Batch.progress i total in
  {| Thumbnail.input_file := input_path;
     Thumbnail.output_file := output_path;
     Thumbnail.thumbnail_file := thumbnail_file;
     Thumbnail.progress_info := progress_info |}.

(** What a prepared task is expected to be: the task labelled [i] is the
    one of a video file numbered [i] in the listing, and its thumbnail
    exists. *)
Definition paired (total : nat) (indexed : list (nat * string))
           (i : nat) (task : Thumbnail.video_task) : Prop :=
  exists filename,
    In (i, filename) indexed /\
    task = task_of total i filename (Thumbnail.thumbnail_file task) /\
    path_exists env (Thumbnail.thumbnail_file task) = true.

(** Strategy "1": the loop over the video files. *)
Definition one_for_all (total : nat) (thumbnail_file : string)
           (indexed : list (nat * string)) : list Thumbnail.video_task :=
  map (fun '(i, filename) => task_of total i filename thumbnail_file) indexed.

(** Strategies "2" and "3": the loop over the video files. *)
Fixpoint auto_match (total : nat) (thumbnail_dirs : list string)
         (indexed : list (nat * string)) : B (list Thumbnail.video_task) :=
  match indexed with
  | [] => pure []
  | (i, filename) :: rest =>
      let input_path := PosixPath.join INPUT_DIR filename in
      match found (Resolver.find_matching_thumbnail
                     (path_exists env) input_path thumbnail_dirs) with
      | Some thumbnail_file =>
          tasks <- auto_match total thumbnail_dirs rest ;;
          pure (task_of total i filename thumbnail_file :: tasks)
      | None =>
          write (Logged warning, MsgNoMatchingThumbnail filename) ;;
          auto_match total thumbnail_dirs rest
      end
  end.

(** The video files for which [find_matching_thumbnail] finds nothing in
    [thumbnail_dirs]. *)
Definition unmatched (thumbnail_dirs : list string) (video_files : list string)
  : list string :=
  filter (fun filename =>
            match found (Resolver.find_matching_thumbnail
                           (path_exists env)
                           (PosixPath.join INPUT_DIR filename)
                           thumbnail_dirs) with
            | Some _ => false
            | None => true
            end) video_files.

(** [thumbnail_file.lower() == 'skip'] *)
Definition is_skip (thumbnail_file : string) : bool :=
  String.eqb (Str.lower thumbnail_file) "skip".

(** Strategy "4": the loop over the video files. *)
Fixpoint ask_each (total : nat) (indexed : list (nat * string))
  : B (list Thumbnail.video_task) :=
  match indexed with
  | [] => pure []
  | (i, filename) :: rest =>
      write (Printed, MsgVideoOf i total filename) ;;
      thumbnail_file <- input PromptThumbnailOrSkip ;;
      if is_skip thumbnail_file then
        ask_each total rest
      else if negb (path_exists env thumbnail_file) then
        write (Logged warning, MsgThumbnailNotFoundSkipping filename) ;;
        ask_each total rest
      else
        tasks <- ask_each total rest ;;
        pure (task_of total i filename thumbnail_file :: tasks)
  end.

(** The part of [process_directory] that prepares [video_tasks]; [None]
    where the function returns early. *)
Definition prepare_tasks (video_files : list string)
  : B (option (list Thumbnail.video_task)) :=
  let total := List.length video_files in
  let indexed := Str.enumerate video_files 1 in
  strategy <- get_batch_thumbnail_strategy ;;
  if String.eqb strategy "1" then
    thumbnail_file <- input PromptThumbnailFile ;;
    if negb (path_exists env thumbnail_file) then
      write (Logged error, MsgThumbnailFileNotFound) ;;
      pure None
    else
      pure (Some (one_for_all total thumbnail_file indexed))
  else if String.eqb strategy "2" then
    tasks <- auto_match total [THUMBNAIL_DIR; INPUT_DIR] indexed ;;
    pure (Some tasks)
  else if String.eqb strategy "3" then
    thumb_dir <- input PromptThumbnailDirectory ;;
    if negb (path_exists env thumb_dir) then
      write (Logged error, MsgThumbnailDirectoryNotFound) ;;
      pure None
    else
      tasks <- auto_match total [thumb_dir] indexed ;;
      pure (Some tasks)
  else if String.eqb strategy "4" then
    tasks <- ask_each total indexed ;;
    pure (Some tasks)
  else
    write (Logged error, MsgInvalidStrategy) ;;
    pure None.

Definition banner (tasks : list Thumbnail.video_task)
  : list (channel * batch_message) :=
  [ (Logged info, MsgModeMultithreaded);
    (Logged info, MsgVideosToProcess (List.length tasks));
    (Logged info, MsgThumbnailDuration Thumbnail.THUMBNAIL_DURATION);
    (Logged info, MsgFadeDuration Thumbnail.THUMBNAIL_FADE_DURATION);
    (Logged info, MsgMaxWorkers (Thumbnail.MAX_WORKERS cpu_count));
    (Logged info, MsgStarting) ].

Definition summary (t : Pool.tally) (total : nat)
  : list (channel * batch_message) :=
  [ (Logged info, MsgComplete);
    (Logged info, MsgSuccessful (Pool.success_count t) total);
    (Logged info, MsgFailedCount (List.length (Pool.failed_files t)) total) ]
  ++ (if Batch.is_empty (Pool.failed_files t) then []
      else [(Logged info, MsgFailedFiles (Pool.failed_files t))]).

Fixpoint write_all (lines : list (channel * batch_message)) : B unit :=
  match lines with
  | [] => pure tt
  | line :: rest => write line ;; write_all rest
  end.

(** What [process_directory] leaves behind besides the console: the tasks
    it prepared and the totals of the collecting loop. *)
Record report := {
  video_tasks : list Thumbnail.video_task;
  totals : option Pool.tally
}.

Definition nothing_done : report := {| video_tasks := []; totals := None |}.

(** [process_directory()].  The entries the workers log are not written
    here. *)
Definition process_directory : B report :=
  if negb (path_exists env INPUT_DIR) then
    write (Logged error, MsgInputDirectoryNotFound INPUT_DIR) ;;
    pure nothing_done
  else
    listing <- attempt (listdir INPUT_DIR) ;;
    let video_files := filter Batch.is_video listing in
    if Batch.is_empty video_files then
      write (Logged warning, MsgNoVideosFound) ;;
      pure nothing_done
    else
      prepared <- prepare_tasks video_files ;;
      match prepared with
      | None => pure nothing_done
      | Some tasks =>
          if Batch.is_empty tasks then
            write (Logged warning, MsgNoValidPairs) ;;
            pure nothing_done
          else
            write_all (banner tasks) ;;
            t <- attempt (Pool.thumbnail_process_directory
                            env tasks (as_completed (List.length tasks))) ;;
            write_all (map from_call (Pool.pool_log t)) ;;
            write_all (summary t (List.length tasks)) ;;
            pure {| video_tasks := tasks; totals := Some t |}
      end.

End Directory.

End ThumbnailBatch.

(** ** scheduler.py: the request an upload sends *)

Module Scheduler.

(** [CATEGORY_ID = '22'] *)
Definition CATEGORY_ID : string := "22".

(** The [body] dict of [upload_video]. *)
Record snippet := {
  title : string;
  description : string;
  tags : list string;
  categoryId : string
}.

Record status := {
  privacyStatus : string;
  publishAt : option string
}.

Record body := {
  body_snippet : snippet;
  body_status : status
}.

(** What [main] prints when it drops a schedule time. *)
Inductive notice :=
| ScheduleNotInFuture
| InvalidDatetimeFormat.

Section Clock.

(** A [datetime] is a point on the time line, an integer.
    [strftime t] is [t.strftime('%Y-%m-%dT%H:%M:%SZ')]; [strptime s] is
    [dt.strptime(s, '%Y-%m-%d %H:%M')], [None] when it raises
    [ValueError]. *)
Variable strftime : Z -> string.
Variable strptime : string -> option Z.

(** The [body] that [upload_video] builds; [now] is what [dt.now()]
    returns there.  A [datetime] is always true, so [if publish_at] asks
    whether one was given. *)
Definition video_body (title0 description0 category_id : string)
           (publish_at : option Z) (now : Z) : body :=
  let privacy :=
    match publish_at with
    | Some _ => "private"
    | None => "public"
    end in
  {| body_snippet := {| title := title0; description := description0;
                        tags := []; categoryId := category_id |};
     body_status :=
       {| privacyStatus := privacy;
          publishAt :=
            match publish_at with
            | Some t => if (now <? t)%Z then Some (strftime t) else None
            | None => None
            end |} |}.

(** [','.join(body.keys())] *)
Definition part : string := "snippet,status".

(** The schedule handling of [main] for one video; [now] is what
    [dt.now()] returns there. *)
Definition publish_at_of (schedule_str : string) (now : Z)
  : option Z * list notice :=
  if String.eqb schedule_str "" then (None, [])
  else
    match strptime schedule_str with
    | Some publish_at =>
        if (publish_at <=? now)%Z then (None, [ScheduleNotInFuture])
        else (Some publish_at, [])
    | None => (None, [InvalidDatetimeFormat])
    end.

(** [input("Title: ").strip() or os.path.splitext(os.path.basename(video))[0]] *)
Definition title_of (answer video : string) : string :=
  if String.eqb answer "" then
    fst (PosixPath.splitext (PosixPath.basename video))
  else answer.

(** One turn of the loop of [main] up to the request: the body sent for
    [video] given the three answers (each after [strip]), and what was
    printed about the schedule.  [now_main] and [now_upload] are the two
    readings of the clock, in [main] and then in [upload_video]. *)
Definition request_for (video title_answer desc schedule_str : string)
           (now_main now_upload : Z) : body * list notice :=
  let title0 := title_of title_answer video in
  let '(publish_at, notices) := publish_at_of schedule_str now_main in
  (video_body title0 desc CATEGORY_ID publish_at now_upload, notices).

End Clock.

End Scheduler.

(** ** resize_thumbnails.py *)

Module Resize.

Import Runtime.

(** [TARGET_WIDTH = 1080], [TARGET_HEIGHT = 1920] *)
Definition TARGET_WIDTH : Z := 1080.
Definition TARGET_HEIGHT : Z := 1920.

(** The imaging collaborator and the file system. *)
Record pillow := {
  dir_exists : string -> bool;
  listdir : string -> result (list string);
  (** [Image.open(filepath)]: the size of the image *)
  image_open : string -> result (Z * Z);
  (** [img.thumbnail(box, LANCZOS)]: the size of the image afterwards *)
  image_thumbnail : string -> Z * Z -> result (Z * Z);
  (** [img.save(filepath)] of an image of the given size *)
  image_save : string -> Z * Z -> result unit
}.

Inductive resize_message :=
| MsgDirectoryNotFound (dir : string)
| MsgResized (filename : string) (original_size new_size : Z * Z)
| MsgFailedToResize (filename : string) (e : exn)
| MsgCompletedResizing (resized_count : nat).

(** The calls that took effect on the files. *)
Inductive file_event :=
| ImageOpened (filepath : string)
| ImageSaved (filepath : string) (size : Z * Z).

Record progress := {
  resized_count : nat;
  resize_log : list (level * resize_message);
  file_events : list file_event
}.

(** The files saved, the files reported as resized and the files reported
    as failed. *)
Definition saves (events : list file_event) : list (string * (Z * Z)) :=
  flat_map (fun e => match e with
                     | ImageSaved filepath size => [(filepath, size)]
                     | _ => []
                     end) events.

Definition reported_resized (lg : list (level * resize_message))
  : list string :=
  flat_map (fun entry => match entry with
                         | (info, MsgResized filename _ _) => [filename]
                         | _ => []
                         end) lg.

Definition reported_failed (lg : list (level * resize_message))
  : list string :=
  flat_map (fun entry => match entry with
                         | (error, MsgFailedToResize filename _) => [filename]
                         | _ => []
                         end) lg.

Definition size_eqb (a b : Z * Z) : bool :=
  (fst a =? fst b)%Z && (snd a =? snd b)%Z.

Section Resizing.

Variable env : pillow.
Variable THUMBNAIL_DIR : string.

(** [filename.lower().endswith('.png')] *)
Definition is_png (filename : string) : bool :=
  Str.endswith (Str.lower filename) ".png".

Definition failed (filename : string) (e : exn) (events : list file_event)
           (acc : progress) : progress :=
  {| resized_count := resized_count acc;
     resize_log :=
       (resize_log acc ++ [(error, MsgFailedToResize filename e)])%list;
     file_events := (file_events acc ++ events)%list |}.

(** One turn of [for filename in os.listdir(THUMBNAIL_DIR)]. *)
Definition resize_one (acc : progress) (filename : string) : progress :=
  if is_png filename then
    let filepath := PosixPath.join THUMBNAIL_DIR filename in
    match image_open env filepath with
    | Raises e => failed filename e [] acc
    | Returns original_size =>
        match image_thumbnail env filepath (TARGET_WIDTH, TARGET_HEIGHT) with
        | Raises e => failed filename e [ImageOpened filepath] acc
        | Returns new_size =>
            if negb (size_eqb new_size original_size) then
              match image_save env filepath new_size with
              | Raises e => failed filename e [ImageOpened filepath] acc
              | Returns _ =>
                  {| resized_count := resized_count acc + 1;
                     resize_log :=
                       (resize_log acc
                        ++ [(info, MsgResized filename original_size
                                              new_size)])%list;
                     file_events :=
                       (file_events acc
                        ++ [ImageOpened filepath;
                            ImageSaved filepath new_size])%list |}
              end
            else
              {| resized_count := resized_count acc;
                 resize_log := resize_log acc;
                 file_events :=
                   (file_events acc ++ [ImageOpened filepath])%list |}
        end
    end
  else acc.

Definition nothing_resized : progress :=
  {| resized_count := 0; resize_log := []; file_events := [] |}.

(** [resize_thumbnails()] *)
Definition resize_thumbnails : result progress :=
  if negb (dir_exists env THUMBNAIL_DIR) then
    Returns {| resized_count := 0;
               resize_log := [(error, MsgDirectoryNotFound THUMBNAIL_DIR)];
               file_events := [] |}
  else
    match listdir env THUMBNAIL_DIR with
    | Raises e => Raises e
    | Returns listing =>
        let done := fold_left resize_one listing nothing_resized in
        Returns {| resized_count := resized_count done;
                   resize_log :=
                     (resize_log done
                      ++ [(info, MsgCompletedResizing (resized_count done))])%list;
                   file_events := file_events done |}
    end.

End Resizing.

End Resize.

(** ** Concrete inputs for the batch functions *)

Module BatchExamples.

Import Runtime.

(** The input directory: two video files and a text file. *)
Definition listing : list string := ["b.MOV"; "notes.txt"; "a.mp4"].

Definition listdir (dir : string) : result (list string) :=
  if String.eqb dir "/in" then Returns listing
  else Raises "FileNotFoundError".

(** The files present: both sources, a thumbnail matching [a.mp4] only, a
    cover image and the main watermark. *)
Definition present : list string :=
  ["/in"; "/in/b.MOV"; "/in/a.mp4"; "/thumbs"; "/thumbs/a_thumb.png";
   "/thumbs/cover.png"; "/wm/logo.png"].

Definition env : environment :=
  Examples.cooperative present Examples.ten_seconds false.

(** The futures complete in the reverse order of submission. *)
Definition newest_first (n : nat) : list nat := rev (seq 0 n).

Definition operator (answers0 : list string) : ThumbnailBatch.console :=
  {| ThumbnailBatch.answers := answers0; ThumbnailBatch.written := [] |}.

(** A thumbnail directory with one large image, one small image, one file
    that cannot be read and one file that is not a PNG. *)
Definition thumbnails : Resize.pillow :=
  {| Resize.dir_exists := fun dir => String.eqb dir "/thumbs";
     Resize.listdir :=
       fun _ => Returns ["large.PNG"; "broken.png"; "small.png"; "readme.md"];
     Resize.image_open :=
       fun filepath =>
         if String.eqb filepath "/thumbs/large.PNG" then Returns (2160, 3840)%Z
         else if String.eqb filepath "/thumbs/small.png" then Returns (540, 960)%Z
         else Raises "cannot identify image file";
     Resize.image_thumbnail :=
       fun filepath box =>
         if String.eqb filepath "/thumbs/large.PNG" then Returns box
         else Returns (540, 960)%Z;
     Resize.image_save := fun _ _ => Returns tt |}.

End BatchExamples.

(** *** Sanity checks of the path functions *)

Example basename_example :
  PosixPath.basename "/data/in/video1.mp4" = "video1.mp4".
Proof. reflexivity. Qed.

Example splitext_example :
  PosixPath.splitext "video1.final.mp4" = ("video1.final", ".mp4").
Proof. reflexivity. Qed.

Example splitext_leading_dot :
  PosixPath.splitext ".hidden" = (".hidden", "").
Proof. reflexivity. Qed.

Example join_example :
  PosixPath.join "/assets/thumbnails" "video1_thumb.png"
  = "/assets/thumbnails/video1_thumb.png".
Proof. reflexivity. Qed.

Example patterns_example :
  Resolver.patterns_for (Resolver.video_name_of "/in/clip.mp4")
  = ["clip_thumb.png"; "clip_thumbnail.png"; "clip.png"; "thumb_clip.png"].
Proof. reflexivity. Qed.
(** ** AssetResolver: the order of [find_matching_thumbnail] *)

Section ResolverFacts.

Variable path_exists : string -> bool.

Lemma probe_dirs_some (pattern : string) (dirs : list string) (p : string) :
  Resolver.probe_dirs path_exists pattern dirs = Some p ->
  exists j d,
    nth_error dirs j = Some d /\
    p = PosixPath.join d pattern /\
    path_exists p = true /\
    forall j' d', (j' < j)%nat -> nth_error dirs j' = Some d' ->
                  path_exists (PosixPath.join d' pattern) = false.
Proof.
  induction dirs as [|d0 rest IH]; simpl; [discriminate|].
  destruct (path_exists (PosixPath.join d0 pattern)) eqn:E.
  - intros H; injection H as <-.
    exists 0%nat, d0. repeat split; auto.
    intros j' d' Hlt; lia.
  - intros H. destruct (IH H) as (j & d & Hn & Hp & Hex & Hbefore).
    exists (S j), d. repeat split; auto.
    intros [|j'] d' Hlt Hn'; simpl in Hn'.
    + now injection Hn' as <-.
    + apply (Hbefore j'); [lia|assumption].
Qed.

Lemma probe_dirs_none (pattern : string) (dirs : list string) :
  Resolver.probe_dirs path_exists pattern dirs = None <->
  forall d, In d dirs -> path_exists (PosixPath.join d pattern) = false.
Proof.
  induction dirs as [|d0 rest IH]; simpl.
  - split; [intros _ d []|reflexivity].
  - destruct (path_exists (PosixPath.join d0 pattern)) eqn:E.
    + split; [discriminate|].
      intros H. rewrite (H d0) in E by now left. discriminate.
    + rewrite IH. split.
      * intros H d [<-|Hin]; auto.
      * intros H d Hin. apply H. now right.
Qed.

Lemma probe_some (patterns dirs : list string) (p : string) :
  Resolver.probe path_exists patterns dirs = Some p ->
  exists i pattern j d,
    nth_error patterns i = Some pattern /\
    nth_error dirs j = Some d /\
    p = PosixPath.join d pattern /\
    path_exists p = true /\
    (forall i' pattern' d',
        (i' < i)%nat -> nth_error patterns i' = Some pattern' -> In d' dirs ->
        path_exists (PosixPath.join d' pattern') = false) /\
    (forall j' d',
        (j' < j)%nat -> nth_error dirs j' = Some d' ->
        path_exists (PosixPath.join d' pattern) = false).
Proof.
  induction patterns as [|pat0 rest IH]; simpl; [discriminate|].
  destruct (Resolver.probe_dirs path_exists pat0 dirs) as [q|] eqn:E.
  - intros H; injection H as <-.
    destruct (probe_dirs_some _ _ _ E) as (j & d & Hn & Hp & Hex & Hbefore).
    exists 0%nat, pat0, j, d. repeat split; auto.
    intros i' pattern' d' Hlt; lia.
  - intros H.
    destruct (IH H) as (i & pattern & j & d & Hi & Hj & Hp & Hex & Hpat & Hdir).
    exists (S i), pattern, j, d. repeat split; auto.
    intros [|i'] pattern' d' Hlt Hn' Hin; simpl in Hn'.
    + injection Hn' as <-. now apply (proj1 (probe_dirs_none pat0 dirs) E).
    + apply (Hpat i' pattern' d'); [lia|assumption|assumption].
Qed.

Lemma probe_none (patterns dirs : list string) :
  Resolver.probe path_exists patterns dirs = None <->
  forall pattern d, In pattern patterns -> In d dirs ->
                    path_exists (PosixPath.join d pattern) = false.
Proof.
  induction patterns as [|pat0 rest IH]; simpl.
  - split; [intros _ pattern d []|reflexivity].
  - destruct (Resolver.probe_dirs path_exists pat0 dirs) as [q|] eqn:E.
    + split; [discriminate|].
      intros H.
      assert (Resolver.probe_dirs path_exists pat0 dirs = None) as E'.
      { apply probe_dirs_none. intros d Hin. apply H; auto. }
      congruence.
    + rewrite IH. split.
      * intros H pattern d [<-|Hin] Hd.
        -- now apply (proj1 (probe_dirs_none pat0 dirs) E).
        -- now apply H.
      * intros H pattern d Hin Hd. apply H; auto.
Qed.

End ResolverFacts.

(** C2 (as the code has it).  [find_matching_thumbnail] returns the first
    existing path in pattern-major order: the pattern order takes precedence
    over the directory order.  When it returns [p], [p] is an existing
    [join d pattern] such that no earlier pattern exists in any directory and
    [pattern] exists in no earlier directory; in particular, among
    directories that hold a match for the same pattern the earliest one
    wins.  It returns [None] exactly when no pattern exists in any
    directory. *)
Theorem find_matching_thumbnail_pattern_first :
  forall (path_exists : string -> bool) (video_file : string)
         (thumbnail_dirs : list string),
    let patterns := Resolver.patterns_for (Resolver.video_name_of video_file) in
    (forall p,
        Resolver.find_matching_thumbnail path_exists video_file thumbnail_dirs
        = Some p ->
        exists i pattern j d,
          nth_error patterns i = Some pattern /\
          nth_error thumbnail_dirs j = Some d /\
          p = PosixPath.join d pattern /\
          path_exists p = true /\
          (forall i' pattern' d',
              (i' < i)%nat -> nth_error patterns i' = Some pattern' ->
              In d' thumbnail_dirs ->
              path_exists (PosixPath.join d' pattern') = false) /\
          (forall j' d',
              (j' < j)%nat -> nth_error thumbnail_dirs j' = Some d' ->
              path_exists (PosixPath.join d' pattern) = false)) /\
    (Resolver.find_matching_thumbnail path_exists video_file thumbnail_dirs
     = None <->
     forall pattern d, In pattern patterns -> In d thumbnail_dirs ->
                       path_exists (PosixPath.join d pattern) = false).
Proof.
  intros path_exists video_file thumbnail_dirs patterns.
  unfold Resolver.find_matching_thumbnail. fold patterns. split.
  - intros p H. now apply probe_some.
  - apply probe_none.
Qed.

(** C2 (as the claim states it) fails.  With [clip.png] in the first
    directory and [clip_thumb.png] in the second, both directories hold a
    match; directory-first resolution would return the one of the first
    directory, and the code returns the one of the second. *)
Lemma find_matching_thumbnail_not_directory_first :
  Examples.two_matches "/thumbs/clip.png" = true /\
  Examples.two_matches "/in/clip_thumb.png" = true /\
  Resolver.spec_directory_first
    Examples.two_matches
    (Resolver.patterns_for (Resolver.video_name_of "/in/clip.mp4"))
    ["/thumbs"; "/in"] = Some "/thumbs/clip.png" /\
  Resolver.find_matching_thumbnail
    Examples.two_matches "/in/clip.mp4" ["/thumbs"; "/in"]
  = Some "/in/clip_thumb.png" /\
  Resolver.find_matching_thumbnail
    Examples.two_matches "/in/clip.mp4" ["/thumbs"; "/in"]
  <> Resolver.spec_directory_first
       Examples.two_matches
       (Resolver.patterns_for (Resolver.video_name_of "/in/clip.mp4"))
       ["/thumbs"; "/in"].
Proof.
  repeat split; try reflexivity.
  vm_compute. discriminate.
Qed.

Lemma find_matching_thumbnail_pattern_first_witness :
  Resolver.find_matching_thumbnail
    Examples.two_matches "/in/clip.mp4" ["/thumbs"; "/in"]
  = Some "/in/clip_thumb.png" /\
  exists i pattern j d,
    nth_error (Resolver.patterns_for (Resolver.video_name_of "/in/clip.mp4")) i
    = Some pattern /\
    nth_error ["/thumbs"; "/in"] j = Some d /\
    "/in/clip_thumb.png" = PosixPath.join d pattern /\
    Examples.two_matches "/in/clip_thumb.png" = true /\
    (forall i' pattern' d',
        (i' < i)%nat ->
        nth_error (Resolver.patterns_for
                     (Resolver.video_name_of "/in/clip.mp4")) i'
        = Some pattern' ->
        In d' ["/thumbs"; "/in"] ->
        Examples.two_matches (PosixPath.join d' pattern') = false) /\
    (forall j' d',
        (j' < j)%nat -> nth_error ["/thumbs"; "/in"] j' = Some d' ->
        Examples.two_matches (PosixPath.join d' pattern) = false).
Proof.
  split; [reflexivity|].
  apply (proj1 (find_matching_thumbnail_pattern_first
                  Examples.two_matches "/in/clip.mp4" ["/thumbs"; "/in"])).
  reflexivity.
Defined.

(** ** OverlayEngine: resources *)

Import Runtime.

(** Unfolding a body down to the oracle calls, and case analysis on the
    outcome of the next call. *)
Ltac unfold_body :=
  cbv [Thumbnail.add_thumbnail_to_video Thumbnail.add_thumbnail_to_video_body
       Thumbnail.apply_fade Thumbnail.on_error
       Thumbnail.process_single_video_threaded Thumbnail.process_single_video
       Thumbnail.log_entry
       Thumbnail.set_video Thumbnail.set_thumbnail Thumbnail.set_final_video
       Thumbnail.no_locals Thumbnail.video Thumbnail.thumbnail
       Thumbnail.final_video
       Watermark.add_watermark_to_video Watermark.add_watermark_to_video_body
       Watermark.on_error Watermark.process_single_video_threaded
       Watermark.log_entry
       Watermark.set_video Watermark.set_watermark_main
       Watermark.set_watermark_last Watermark.set_final_video
       Watermark.no_locals Watermark.video Watermark.watermark_main
       Watermark.watermark_last Watermark.final_video
       open_video open_image do_resized do_set_position do_set_start do_fade
       open_composite do_write_videofile close
       try_except bind ret call assign local if_in_locals emit fresh
       thread_safe_log initial
       next_handle trace log handle comp_handle source clip_duration
       clip_start clip_size clip_position clip_fade layers comp_size].

Ltac next_call :=
  match goal with
  | |- context [match ?x with _ => _ end] =>
      lazymatch x with
      | context [match _ with _ => _ end] => fail
      | _ => destruct x eqn:?
      end
  | |- context [if ?x then _ else _] =>
      lazymatch x with
      | context [match _ with _ => _ end] => fail
      | _ => destruct x eqn:?
      end
  end.

Ltac run_body := unfold_body; repeat (next_call; cbn [fst snd app]).





(** C1.  The watermark operation leaves the source clip open when the main
    watermark file is missing: on that early return the source was opened
    (handle 0) and the call returns [False] without closing it.  The
    thumbnail operation closes the source on its corresponding branch, and
    the [except] clause of the watermark operation closes it after an
    exception. *)
Theorem add_watermark_to_video_leaks_source :
  let r := Watermark.add_watermark_to_video
             Examples.missing_main_watermark
             "/in/clip.mp4" "/out/clip_watermarked.mp4"
             "/wm/logo.png" "/wm/subscribe.png"
             Watermark.WATERMARK_X Watermark.WATERMARK_Y
             Watermark.WATERMARK_X_LAST_5SEC Watermark.WATERMARK_Y_LAST_5SEC
             initial in
  path_exists Examples.missing_main_watermark "/wm/logo.png" = false /\
  fst r = false /\
  trace (snd r) = [Opened 0 (OVideo "/in/clip.mp4")] /\
  open_handles (trace (snd r)) = [0%nat] /\
  times_opened 0 (trace (snd r)) = 1%nat /\
  times_closed 0 (trace (snd r)) = 0%nat /\
  log (snd r) = [(error, MsgMainWatermarkNotFound "/wm/logo.png")].
Proof.
  vm_compute. repeat split; reflexivity.
Qed.

(** ** OverlayEngine: the time window of the overlay *)

Lemma Qle_bool_false (x y : Q) : (y < x)%Q -> Qle_bool x y = false.
Proof.
  intros H. destruct (Qle_bool x y) eqn:E; [|reflexivity].
  apply Qle_bool_iff in E. exfalso. exact (Qlt_not_le _ _ H E).
Qed.



(** The cases of [In e tr] for a trace that is an explicit list. *)
Ltac in_trace H :=
  simpl in H;
  repeat (destruct H as [H|H]);
  try discriminate H; try contradiction H.

(** C3 (as the code has it).  In the watermark operation, for a source
    longer than 5 seconds the only clip given a start time is the
    last-5-seconds overlay: it has duration 5 and starts at
    [source_duration - 5], so it ends with the source.  In the thumbnail
    operation the overlay starts at [source_duration], whatever its own
    duration: it is shown after the source ends.  Both operations do set
    that start time whenever they succeed. *)
Theorem overlay_start_times
        (env : environment) (input_path output_path : string)
        (vi : video_info)
        (watermark_path_main watermark_path_last5 : string)
        (x_pos y_pos x_pos_last y_pos_last : Z)
        (thumbnail_path : string) (duration fade_duration : Q) :
  VideoFileClip env input_path = Returns vi ->
  let source_duration := v_duration vi in
  let wm := Watermark.add_watermark_to_video
              env input_path output_path
              watermark_path_main watermark_path_last5
              x_pos y_pos x_pos_last y_pos_last initial in
  let th := Thumbnail.add_thumbnail_to_video
              env input_path output_path thumbnail_path
              duration fade_duration initial in
  ((5 < source_duration)%Q ->
   (forall h t, In (Started h t) (trace (snd wm)) ->
                t = (source_duration - 5)%Q /\
                (t + 5 == source_duration)%Q /\
                exists path, In (Opened h (OImage path 5)) (trace (snd wm))) /\
   (fst wm = true ->
    exists h, In (Started h (source_duration - 5)) (trace (snd wm)))) /\
  (forall h t, In (Started h t) (trace (snd th)) ->
               t = source_duration /\
               In (Opened h (OImage thumbnail_path duration)) (trace (snd th))) /\
  (fst th = true -> exists h, In (Started h source_duration) (trace (snd th))).
Proof.
  intros Hvideo source_duration wm th. subst source_duration wm th.
  split; [|split].
  - intros Hlong. apply Qle_bool_false in Hlong.
    unfold_body. rewrite Hvideo. cbn [fst snd app]. rewrite Hlong.
    repeat (next_call; cbn [fst snd app]);
      (split;
       [ intros h t Hin; in_trace Hin; injection Hin as <- <-;
         (split; [reflexivity|]); (split; [ring|]);
         eexists; simpl; eauto 12
       | intros Hok; try discriminate Hok; eexists; simpl; eauto 12 ]).
  - unfold_body. rewrite Hvideo. cbn [fst snd app].
    repeat (next_call; cbn [fst snd app]);
      intros h t Hin; in_trace Hin; injection Hin as <- <-;
      (split; [reflexivity|]); simpl; auto 12.
  - unfold_body. rewrite Hvideo. cbn [fst snd app].
    repeat (next_call; cbn [fst snd app]);
      intros Hok; try discriminate Hok; eexists; simpl; eauto 12.
Qed.

(** C3 (as the claim states it) fails for the thumbnail operation: on a
    ten-second source with a three-second thumbnail the operation succeeds
    and starts the overlay at 10, not at 10 - 3. *)
Lemma thumbnail_overlay_starts_at_source_end :
  let r := Thumbnail.add_thumbnail_to_video
             (Examples.cooperative Examples.all_present Examples.ten_seconds true)
             "/in/clip.mp4" "/out/clip_with_thumbnail.mp4" "/thumbs/clip.png"
             3 (1 # 2) initial in
  (3 < v_duration Examples.ten_seconds)%Q /\
  fst r = true /\
  In (Started 1 10) (trace (snd r)) /\
  ~ ends_with_source (v_duration Examples.ten_seconds) 3 (trace (snd r)).
Proof.
  cbv zeta. split; [reflexivity|]. split; [reflexivity|].
  assert (In (Started 1 10)
             (trace (snd (Thumbnail.add_thumbnail_to_video
                (Examples.cooperative Examples.all_present
                                      Examples.ten_seconds true)
                "/in/clip.mp4" "/out/clip_with_thumbnail.mp4"
                "/thumbs/clip.png" 3 (1 # 2) initial)))) as Hin.
  { vm_compute. auto 12. }
  split; [exact Hin|].
  intros Hclaim. specialize (Hclaim _ _ Hin). vm_compute in Hclaim.
  discriminate Hclaim.
Qed.

Lemma overlay_start_times_witness :
  let env := Examples.cooperative Examples.all_present Examples.ten_seconds true in
  VideoFileClip env "/in/clip.mp4" = Returns Examples.ten_seconds /\
  (5 < v_duration Examples.ten_seconds)%Q /\
  (exists h,
      In (Started h (v_duration Examples.ten_seconds - 5))
         (trace (snd (Watermark.add_watermark_to_video
                        env "/in/clip.mp4" "/out/clip.mp4"
                        "/wm/logo.png" "/wm/subscribe.png"
                        515 330 235 960 initial)))) /\
  (exists h,
      In (Started h (v_duration Examples.ten_seconds))
         (trace (snd (Thumbnail.add_thumbnail_to_video
                        env "/in/clip.mp4" "/out/clip.mp4"
                        "/thumbs/clip.png" 3 (1 # 2) initial)))).
Proof.
  cbv zeta.
  pose proof (overlay_start_times
                (Examples.cooperative Examples.all_present
                                      Examples.ten_seconds true)
                "/in/clip.mp4" "/out/clip.mp4"
                Examples.ten_seconds "/wm/logo.png" "/wm/subscribe.png"
                515 330 235 960 "/thumbs/clip.png" 3 (1 # 2) eq_refl) as H.
  cbv zeta in H. destruct H as [Hwm [_ Hth]].
  split; [reflexivity|]. split; [reflexivity|]. split.
  - assert (5 < v_duration Examples.ten_seconds)%Q as Hlong by reflexivity.
    destruct (Hwm Hlong) as [_ Hok]. apply Hok. reflexivity.
  - apply Hth. reflexivity.
Defined.

(** ** OverlayEngine: the watermark operation *)





(** ** OverlayEngine: the fade of the thumbnail operation *)






(** C10.  With the module's settings [THUMBNAIL_DURATION = 0.1] and
    [THUMBNAIL_FADE_DURATION = 0.1] the guard of the fade is false (0.1 is
    not less than 0.05), so neither the batch worker nor the single-video
    entry point ever applies a fade. *)
Theorem default_settings_never_fade
        (env : environment) (video_info : Thumbnail.video_task)
        (OUTPUT_DIR input_file thumbnail_file : string)
        (output_file : option string) :
  Qlt_bool Thumbnail.THUMBNAIL_FADE_DURATION
           (Thumbnail.THUMBNAIL_DURATION / 2) = false /\
  (forall h m d,
      ~ In (Faded h m d)
           (trace (snd (Thumbnail.process_single_video_threaded
                          env video_info initial)))) /\
  (forall h m d,
      ~ In (Faded h m d)
           (trace (snd (Thumbnail.process_single_video
                          env OUTPUT_DIR input_file thumbnail_file output_file
                          initial)))).
Proof.
  split; [reflexivity|]. split.
  - unfold_body.
    change (Qlt_bool 0 Thumbnail.THUMBNAIL_FADE_DURATION
            && Qlt_bool Thumbnail.THUMBNAIL_FADE_DURATION
                        (Thumbnail.THUMBNAIL_DURATION / 2)) with false.
    repeat (next_call; cbn [fst snd app]);
      intros h m d Hin; in_trace Hin.
  - unfold_body.
    change (Qlt_bool 0 Thumbnail.THUMBNAIL_FADE_DURATION
            && Qlt_bool Thumbnail.THUMBNAIL_FADE_DURATION
                        (Thumbnail.THUMBNAIL_DURATION / 2)) with false.
    repeat (next_call; cbn [fst snd app]);
      intros h m d Hin; in_trace Hin.
Qed.

(** ** WorkerPool and ResultAggregator *)

Section PoolFacts.

Variable T : Type.
Variable task0 : T -> string.
Variable result_of : nat -> result (bool * string).

Lemma futures_are_numbered (video_tasks : list T) (n : nat) :
  map fst (Pool.submit_all T n video_tasks) = seq n (List.length video_tasks).
Proof.
  revert n. induction video_tasks as [|task rest IH]; intros n; simpl.
  - reflexivity.
  - now rewrite IH.
Qed.

Lemma lookup_future (video_tasks : list T) (n k : nat) :
  Pool.lookup (n + k)
              (Pool.future_to_video T task0 (Pool.submit_all T n video_tasks))
  = option_map task0 (nth_error video_tasks k).
Proof.
  revert n k. induction video_tasks as [|task rest IH]; intros n k; simpl.
  - now destruct k.
  - destruct k as [|k]; simpl.
    + replace (n + 0)%nat with n by lia. now rewrite Nat.eqb_refl.
    + assert (Nat.eqb n (n + S k) = false) as -> by (apply Nat.eqb_neq; lia).
      replace (n + S k)%nat with (S n + k)%nat by lia. apply IH.
Qed.

Lemma completed_in_range (video_tasks : list T) (completed : list nat) :
  Permutation completed (Pool.futures_of T video_tasks) ->
  Forall (fun future => (future < List.length video_tasks)%nat) completed.
Proof.
  intros Hperm. apply Forall_forall. intros future Hin.
  apply (Permutation_in _ Hperm) in Hin.
  unfold Pool.futures_of in Hin. rewrite futures_are_numbered in Hin.
  apply in_seq in Hin. lia.
Qed.

Lemma completed_length (video_tasks : list T) (completed : list nat) :
  Permutation completed (Pool.futures_of T video_tasks) ->
  List.length completed = List.length video_tasks.
Proof.
  intros Hperm. rewrite (Permutation_length Hperm).
  unfold Pool.futures_of. now rewrite futures_are_numbered, length_seq.
Qed.

(** The loop never stops early, and each future adds its own share. *)
Lemma collect_shares (video_tasks : list T) (completed : list nat)
      (acc : Pool.tally) :
  Forall (fun future => (future < List.length video_tasks)%nat) completed ->
  exists t,
    Pool.collect result_of
                 (Pool.future_to_video T task0 (Pool.submit_all T 0 video_tasks))
                 completed acc = Returns t /\
    Pool.success_count t
    = (Pool.success_count acc
       + list_sum (map (Pool.success_of result_of) completed))%nat /\
    Pool.failed_files t
    = (Pool.failed_files acc
       ++ flat_map (Pool.failure_of T task0 result_of video_tasks) completed)%list /\
    Pool.pool_log t
    = (Pool.pool_log acc
       ++ flat_map (Pool.logged_of T task0 result_of video_tasks) completed)%list.
Proof.
  intros Hrange. revert acc.
  induction Hrange as [|future rest Hlt _ IH]; intros acc; simpl.
  - exists acc. rewrite Nat.add_0_r, !app_nil_r. auto.
  - pose proof (lookup_future video_tasks 0 future) as Hlookup.
    simpl in Hlookup.
    destruct (nth_error video_tasks future) as [task|] eqn:Htask;
      [|apply nth_error_None in Htask; lia].
    simpl in Hlookup.
    assert (Pool.failure_of T task0 result_of video_tasks future
            = match result_of future with
              | Returns (true, _) => []
              | Returns (false, input_file) => [PosixPath.basename input_file]
              | Raises _ => [PosixPath.basename (task0 task)]
              end) as Hshare_failed
        by (unfold Pool.failure_of; now rewrite Htask).
    assert (Pool.logged_of T task0 result_of video_tasks future
            = match result_of future with
              | Returns _ => []
              | Raises exc =>
                  [(error, MsgGeneratedException
                             (PosixPath.basename (task0 task)) exc)]
              end) as Hshare_logged
        by (unfold Pool.logged_of; now rewrite Htask).
    assert (Pool.success_of result_of future
            = match result_of future with
              | Returns (true, _) => 1%nat
              | _ => 0%nat
              end) as Hshare_success by reflexivity.
    rewrite Hshare_failed, Hshare_logged, Hshare_success.
    unfold Pool.collect_one. rewrite Hlookup.
    destruct (result_of future) as [[[|] input_file]|exc];
      match goal with
      | |- context [Pool.collect _ _ rest ?acc'] =>
          destruct (IH acc') as (t & Hrun & Hs & Hf & Hl)
      end;
      exists t; simpl in Hs, Hf, Hl; rewrite Hs, Hf, Hl;
      repeat split;
      first [ assumption | simpl; lia
            | rewrite <- ?app_assoc; reflexivity ].
Qed.

Lemma one_share_each (video_tasks : list T) (completed : list nat) :
  Forall (fun future => (future < List.length video_tasks)%nat) completed ->
  (list_sum (map (Pool.success_of result_of) completed)
   + List.length (flat_map (Pool.failure_of T task0 result_of video_tasks)
                           completed)
   = List.length completed)%nat.
Proof.
  induction 1 as [|future rest Hlt _ IH]; simpl; [reflexivity|].
  rewrite length_app.
  assert (Pool.success_of result_of future
          + List.length (Pool.failure_of T task0 result_of video_tasks future)
          = 1)%nat as Hone.
  { unfold Pool.success_of, Pool.failure_of.
    destruct (nth_error video_tasks future) as [task|] eqn:Htask;
      [|apply nth_error_None in Htask; lia].
    destruct (result_of future) as [[[|] input_file]|exc]; reflexivity. }
  lia.
Qed.

End PoolFacts.

Lemma thumbnail_worker_names_its_task
      (env : environment) (task : Thumbnail.video_task) (s : state) :
  snd (fst (Thumbnail.process_single_video_threaded env task s))
  = Thumbnail.input_file task.
Proof.
  unfold Thumbnail.process_single_video_threaded.
  destruct (negb (path_exists env (Thumbnail.input_file task)));
    [reflexivity|].
  now destruct (Thumbnail.add_thumbnail_to_video _ _ _ _ _ _ _).
Qed.

Lemma watermark_worker_names_its_task
      (env : environment) (WATERMARK_PATH WATERMARK_PATH_LAST_5SEC : string)
      (task : Watermark.video_task) (s : state) :
  snd (fst (Watermark.process_single_video_threaded
              env WATERMARK_PATH WATERMARK_PATH_LAST_5SEC task s))
  = Watermark.input_file task.
Proof.
  unfold Watermark.process_single_video_threaded.
  destruct (negb (path_exists env (Watermark.input_file task)));
    [reflexivity|].
  now destruct (Watermark.add_watermark_to_video _ _ _ _ _ _ _ _ _ _).
Qed.

(** C6.  Whatever each worker does (return a success, return a failure,
    raise) and in whatever order the futures complete, the collecting loop
    runs to its end and every future adds exactly its own share: a success
    adds one to [success_count]; a failure adds the base name of its file to
    [failed_files]; an exception raised by a worker is caught and adds the
    base name of its task's file to [failed_files] and an error entry with
    the exception's text to the log.  No outcome of one future changes what
    another adds, and the shares add up to one result per submitted task.
    The worker of either script returns its task's own input file as the
    identifier. *)
Theorem task_failure_stays_in_its_task
        (T : Type) (task0 : T -> string)
        (result_of : nat -> result (bool * string))
        (video_tasks : list T) (completed : list nat) :
  Permutation completed (Pool.futures_of T video_tasks) ->
  (exists t,
      Pool.run_pool T task0 result_of video_tasks completed = Returns t /\
      Pool.success_count t
      = list_sum (map (Pool.success_of result_of) completed) /\
      Pool.failed_files t
      = flat_map (Pool.failure_of T task0 result_of video_tasks) completed /\
      Pool.pool_log t
      = flat_map (Pool.logged_of T task0 result_of video_tasks) completed /\
      (forall future exc,
          In future completed -> result_of future = Raises exc ->
          exists task,
            nth_error video_tasks future = Some task /\
            In (PosixPath.basename (task0 task)) (Pool.failed_files t) /\
            In (error, MsgGeneratedException
                         (PosixPath.basename (task0 task)) exc)
               (Pool.pool_log t)) /\
      (forall future input_file,
          In future completed ->
          result_of future = Returns (false, input_file) ->
          In (PosixPath.basename input_file) (Pool.failed_files t)) /\
      (Pool.success_count t + List.length (Pool.failed_files t)
       = List.length video_tasks)%nat) /\
  (forall env task s,
      snd (fst (Thumbnail.process_single_video_threaded env task s))
      = Thumbnail.input_file task) /\
  (forall env main last5 task s,
      snd (fst (Watermark.process_single_video_threaded env main last5 task s))
      = Watermark.input_file task).
Proof.
  intros Hperm.
  split; [|split;
           [ exact thumbnail_worker_names_its_task
           | exact watermark_worker_names_its_task ]].
  pose proof (completed_in_range T video_tasks completed Hperm) as Hrange.
  destruct (collect_shares T task0 result_of video_tasks completed
                           Pool.no_results Hrange)
    as (t & Hrun & Hs & Hf & Hl).
  simpl in Hs, Hf, Hl.
  exists t. split; [exact Hrun|]. split; [exact Hs|]. split; [exact Hf|].
  split; [exact Hl|]. split; [|split].
  - intros future exc Hin Hraise.
    assert (future < List.length video_tasks)%nat as Hlt
        by exact (proj1 (Forall_forall _ _) Hrange future Hin).
    destruct (nth_error video_tasks future) as [task|] eqn:Htask;
      [|apply nth_error_None in Htask; lia].
    exists task. split; [reflexivity|]. split.
    + rewrite Hf. apply in_flat_map. exists future. split; [exact Hin|].
      unfold Pool.failure_of. rewrite Hraise, Htask. now left.
    + rewrite Hl. apply in_flat_map. exists future. split; [exact Hin|].
      unfold Pool.logged_of. rewrite Hraise, Htask. now left.
  - intros future input_file Hin Hfail.
    rewrite Hf. apply in_flat_map. exists future. split; [exact Hin|].
    unfold Pool.failure_of. rewrite Hfail. now left.
  - rewrite Hs, Hf.
    rewrite (one_share_each T task0 result_of video_tasks completed Hrange).
    exact (completed_length T video_tasks completed Hperm).
Qed.

Lemma three_futures_completed_out_of_order :
  Permutation [2; 0; 1]%nat
              (Pool.futures_of Watermark.video_task Examples.three_tasks).
Proof.
  apply (Permutation_cons_app [0; 1]%nat [] 2%nat). apply Permutation_refl.
Qed.

Lemma task_failure_stays_in_its_task_witness :
  Permutation [2; 0; 1]%nat
              (Pool.futures_of Watermark.video_task Examples.three_tasks) /\
  exists t,
    Pool.run_pool Watermark.video_task Watermark.input_file
                  Examples.mixed_results Examples.three_tasks [2; 0; 1]%nat
    = Returns t /\
    Pool.success_count t = 1%nat /\
    Pool.failed_files t = ["c.mp4"; "b.mp4"] /\
    Pool.pool_log t = [(error, MsgGeneratedException "b.mp4" "boom")].
Proof.
  split; [exact three_futures_completed_out_of_order|].
  destruct (task_failure_stays_in_its_task
              Watermark.video_task Watermark.input_file
              Examples.mixed_results Examples.three_tasks [2; 0; 1]%nat
              three_futures_completed_out_of_order)
    as [(t & Hrun & Hs & Hf & Hl & _) _].
  exists t. split; [exact Hrun|]. split; [exact Hs|]. split; [exact Hf|].
  exact Hl.
Defined.

(** C7.  For every batch and every order in which the futures complete, the
    collecting loop ends with one result per submitted task:
    [success_count + len(failed_files)] is the number of tasks. *)
Theorem every_submitted_task_is_counted
        (T : Type) (task0 : T -> string)
        (result_of : nat -> result (bool * string))
        (video_tasks : list T) (completed : list nat) :
  Permutation completed (Pool.futures_of T video_tasks) ->
  exists t,
    Pool.run_pool T task0 result_of video_tasks completed = Returns t /\
    List.length completed = List.length video_tasks /\
    (Pool.success_count t + List.length (Pool.failed_files t)
     = List.length video_tasks)%nat.
Proof.
  intros Hperm.
  pose proof (completed_in_range T video_tasks completed Hperm) as Hrange.
  destruct (collect_shares T task0 result_of video_tasks completed
                           Pool.no_results Hrange)
    as (t & Hrun & Hs & Hf & _).
  simpl in Hs, Hf.
  exists t. split; [exact Hrun|].
  split; [exact (completed_length T video_tasks completed Hperm)|].
  rewrite Hs, Hf.
  rewrite (one_share_each T task0 result_of video_tasks completed Hrange).
  exact (completed_length T video_tasks completed Hperm).
Qed.

Lemma every_submitted_task_is_counted_witness :
  Permutation [2; 0; 1]%nat
              (Pool.futures_of Watermark.video_task Examples.three_tasks) /\
  exists t,
    Pool.run_pool Watermark.video_task Watermark.input_file
                  Examples.mixed_results Examples.three_tasks [2; 0; 1]%nat
    = Returns t /\
    (Pool.success_count t + List.length (Pool.failed_files t) = 3)%nat.
Proof.
  split; [exact three_futures_completed_out_of_order|].
  destruct (every_submitted_task_is_counted
              Watermark.video_task Watermark.input_file
              Examples.mixed_results Examples.three_tasks [2; 0; 1]%nat
              three_futures_completed_out_of_order)
    as (t & Hrun & _ & Hcount).
  exists t. split; [exact Hrun|exact Hcount].
Defined.

Lemma no_share_logged (A : Type) (f : nat -> list A) (completed : list nat) :
  (forall future, In future completed -> f future = []) ->
  flat_map f completed = [].
Proof.
  induction completed as [|future rest IH]; intros Hnone; simpl.
  - reflexivity.
  - rewrite (Hnone future) by now left.
    apply IH. intros k Hin. apply Hnone. now right.
Qed.





(** ** Runs on concrete inputs *)

Example thumbnail_run :
  Thumbnail.add_thumbnail_to_video
    (Examples.cooperative Examples.all_present Examples.ten_seconds true)
    "/in/clip.mp4" "/out/clip_with_thumbnail.mp4" "/thumbs/clip.png"
    3 (1 # 2) initial
  = (true,
     {| next_handle := 3;
        trace :=
          [ Opened 0 (OVideo "/in/clip.mp4");
            Opened 1 (OImage "/thumbs/clip.png" 3);
            Resized 1 (1920, 1080)%Z;
            Faded 1 fadein (1 # 2);
            Started 1 10;
            Opened 2 (OComposite
                        [ {| handle := 0; source := "/in/clip.mp4";
                             clip_duration := 10; clip_start := 0;
                             clip_size := Some (1920, 1080)%Z;
                             clip_position := None; clip_fade := None |};
                          {| handle := 1; source := "/thumbs/clip.png";
                             clip_duration := 3; clip_start := 10;
                             clip_size := Some (1920, 1080)%Z;
                             clip_position := None;
                             clip_fade := Some (fadein, (1 # 2)%Q) |} ]);
            Wrote "/out/clip_with_thumbnail.mp4"
                  {| comp_handle := 2;
                     layers :=
                       [ {| handle := 0; source := "/in/clip.mp4";
                            clip_duration := 10; clip_start := 0;
                            clip_size := Some (1920, 1080)%Z;
                            clip_position := None; clip_fade := None |};
                         {| handle := 1; source := "/thumbs/clip.png";
                            clip_duration := 3; clip_start := 10;
                            clip_size := Some (1920, 1080)%Z;
                            clip_position := None;
                            clip_fade := Some (fadein, (1 # 2)%Q) |} ];
                     comp_size := Some (1920, 1080)%Z |}
                  30;
            Closed 0; Closed 1; Closed 2 ];
        log :=
          [ (info, MsgThumbnailAdded "clip.mp4");
            (info, MsgThumbnailUsed "clip.png" 3) ] |}).
Proof. reflexivity. Qed.

Example thumbnail_missing_asset :
  Thumbnail.add_thumbnail_to_video
    (Examples.cooperative ["/in/clip.mp4"] Examples.ten_seconds true)
    "/in/clip.mp4" "/out/clip_with_thumbnail.mp4" "/thumbs/clip.png"
    3 (1 # 2) initial
  = (false,
     {| next_handle := 1;
        trace := [Opened 0 (OVideo "/in/clip.mp4"); Closed 0];
        log := [(error, MsgThumbnailNotFound "/thumbs/clip.png")] |}).
Proof. reflexivity. Qed.

Example thumbnail_fade_failure_is_survived :
  let r := Thumbnail.add_thumbnail_to_video
             (Examples.failing_fade Examples.all_present Examples.ten_seconds)
             "/in/clip.mp4" "/out/clip_with_thumbnail.mp4" "/thumbs/clip.png"
             3 (1 # 2) initial in
  fst r = true /\
  log (snd r) = [ (warning, MsgFadeFailed "fade failed");
                  (info, MsgThumbnailAdded "clip.mp4");
                  (info, MsgThumbnailUsed "clip.png" 3) ].
Proof. split; reflexivity. Qed.

Example watermark_failing_write :
  let r := Watermark.add_watermark_to_video
             (Examples.failing_write Examples.all_present Examples.ten_seconds)
             "/in/clip.mp4" "/out/clip_watermarked.mp4"
             "/wm/logo.png" "/wm/subscribe.png" 515 330 235 960 initial in
  fst r = false /\
  log (snd r) = [(error, MsgErrorProcessing "clip.mp4" "ffmpeg failed")] /\
  map (fun e => match e with Closed h => Some h | _ => None end)
      (filter (fun e => match e with Closed _ => true | _ => false end)
              (trace (snd r)))
  = [Some 0; Some 1; Some 2; Some 3]%nat.
Proof. repeat split; reflexivity. Qed.

Example watermark_long_source_schedule :
  let r := Watermark.add_watermark_to_video
             (Examples.cooperative Examples.all_present Examples.ten_seconds true)
             "/in/clip.mp4" "/out/clip_watermarked.mp4"
             "/wm/logo.png" "/wm/subscribe.png" 515 330 235 960 initial in
  fst r = true /\
  filter (fun e => match e with
                   | Opened _ (OImage _ _) | Started _ _ => true
                   | _ => false
                   end) (trace (snd r))
  = [ Opened 1 (OImage "/wm/logo.png" 10);
      Opened 2 (OImage "/wm/subscribe.png" 5);
      Started 2 (10 - 5) ].
Proof. split; reflexivity. Qed.

Example pool_run :
  Pool.run_pool Watermark.video_task Watermark.input_file
                Examples.mixed_results Examples.three_tasks [2; 0; 1]%nat
  = Returns {| Pool.success_count := 1;
               Pool.failed_files := ["c.mp4"; "b.mp4"];
               Pool.pool_log :=
                 [(error, MsgGeneratedException "b.mp4" "boom")] |}.
Proof. reflexivity. Qed.

(** ** AssetResolver: where the two search orders agree *)

Lemma spec_probe_patterns_none (path_exists : string -> bool)
      (thumb_dir : string) (patterns : list string) :
  Resolver.spec_probe_patterns path_exists thumb_dir patterns = None <->
  forall pattern, In pattern patterns ->
                  path_exists (PosixPath.join thumb_dir pattern) = false.
Proof.
  induction patterns as [|pattern rest IH]; simpl.
  - split; [intros _ pattern []|reflexivity].
  - destruct (path_exists (PosixPath.join thumb_dir pattern)) eqn:Hexists.
    + split; [discriminate|]. intros H.
      rewrite (H pattern) in Hexists by now left. discriminate Hexists.
    + rewrite IH. split.
      * intros H p [<-|Hin]; auto.
      * intros H p Hin. apply H. now right.
Qed.

Lemma spec_directory_first_none (path_exists : string -> bool)
      (patterns dirs : list string) :
  Resolver.spec_directory_first path_exists patterns dirs = None <->
  forall pattern d, In pattern patterns -> In d dirs ->
                    path_exists (PosixPath.join d pattern) = false.
Proof.
  induction dirs as [|d0 rest IH]; simpl.
  - split; [intros _ pattern d _ []|reflexivity].
  - destruct (Resolver.spec_probe_patterns path_exists d0 patterns)
      as [p|] eqn:Hprobe.
    + split; [discriminate|]. intros H.
      assert (Resolver.spec_probe_patterns path_exists d0 patterns = None)
        as Hnone.
      { apply spec_probe_patterns_none. intros pattern Hin.
        apply H; [exact Hin|now left]. }
      rewrite Hnone in Hprobe. discriminate Hprobe.
    + rewrite IH. split.
      * intros H pattern d Hp [<-|Hd].
        -- now apply (proj1 (spec_probe_patterns_none _ _ _) Hprobe).
        -- now apply H.
      * intros H pattern d Hp Hd. apply H; [exact Hp|now right].
Qed.

Lemma single_directory_probe (path_exists : string -> bool)
      (patterns : list string) (thumb_dir : string) :
  Resolver.probe path_exists patterns [thumb_dir]
  = Resolver.spec_directory_first path_exists patterns [thumb_dir].
Proof.
  simpl. induction patterns as [|pattern rest IH]; simpl; [reflexivity|].
  destruct (path_exists (PosixPath.join thumb_dir pattern)); [reflexivity|].
  rewrite IH. now destruct (Resolver.spec_probe_patterns _ _ _).
Qed.

Lemma spec_directory_first_some (path_exists : string -> bool)
      (patterns dirs : list string) (q : string) :
  Resolver.spec_directory_first path_exists patterns dirs = Some q ->
  path_exists q = true.
Proof.
  induction dirs as [|d rest IH]; simpl; [discriminate|].
  destruct (Resolver.spec_probe_patterns path_exists d patterns)
    as [q'|] eqn:Hprobe; [|exact IH].
  intros Hq. injection Hq as ->. clear IH. revert Hprobe.
  induction patterns as [|pattern l IH]; simpl; [discriminate|].
  destruct (path_exists (PosixPath.join d pattern)) eqn:Hexists;
    [|exact IH].
  intros Hq. now injection Hq as <-.
Qed.

(** X20.  Where the order of [find_matching_thumbnail] does not matter.
    Whether a thumbnail is found does not depend on the order of the search:
    the function returns [None] exactly when a directory-first search
    would.  With a single directory, as in strategy "3" of the batch, the
    two searches return the same path.  The orders can differ only in which
    of several existing candidates is returned. *)
Theorem search_orders_agree_on_existence
        (path_exists : string -> bool) (video_file : string)
        (thumbnail_dirs : list string) :
  let patterns := Resolver.patterns_for (Resolver.video_name_of video_file) in
  (Resolver.find_matching_thumbnail path_exists video_file thumbnail_dirs
   = None <->
   Resolver.spec_directory_first path_exists patterns thumbnail_dirs = None) /\
  (forall thumb_dir,
      Resolver.find_matching_thumbnail path_exists video_file [thumb_dir]
      = Resolver.spec_directory_first path_exists patterns [thumb_dir]) /\
  (forall p q,
      Resolver.find_matching_thumbnail path_exists video_file thumbnail_dirs
      = Some p ->
      Resolver.spec_directory_first path_exists patterns thumbnail_dirs
      = Some q ->
      path_exists p = true /\ path_exists q = true).
Proof.
  intros patterns. unfold Resolver.find_matching_thumbnail. fold patterns.
  split; [|split].
  - rewrite probe_none, spec_directory_first_none. reflexivity.
  - intros thumb_dir. apply single_directory_probe.
  - intros p q Hp Hq. split.
    + destruct (probe_some _ _ _ _ Hp) as (_ & _ & _ & _ & _ & _ & _ & H & _).
      exact H.
    + exact (spec_directory_first_some _ _ _ _ Hq).
Qed.
(** ** OverlayEngine: what a call writes and what it logs *)

(** X4.  What [add_thumbnail_to_video] writes.  It calls the encoder at most
    once; a successful call wrote exactly once; and whatever it wrote went to
    [output_path], at the source's frame rate, as a composite of the source's
    frame size with two layers: the source, and the thumbnail image with the
    requested duration, resized to the source's frame size and starting at
    the source's duration. *)
Theorem add_thumbnail_to_video_writes
        (env : environment) (input_path output_path thumbnail_path : string)
        (duration fade_duration : Q) :
  let r := Thumbnail.add_thumbnail_to_video
             env input_path output_path thumbnail_path
             duration fade_duration initial in
  (List.length (Observe.writes (trace (snd r))) <= 1)%nat /\
  (fst r = true -> List.length (Observe.writes (trace (snd r))) = 1%nat) /\
  (forall out final_video fps,
      In (out, final_video, fps) (Observe.writes (trace (snd r))) ->
      out = output_path /\
      exists vi source_clip thumbnail_clip,
        VideoFileClip env input_path = Returns vi /\
        fps = v_fps vi /\
        comp_size final_video = Some (v_size vi) /\
        layers final_video = [source_clip; thumbnail_clip] /\
        source source_clip = input_path /\
        clip_start source_clip = 0%Q /\
        source thumbnail_clip = thumbnail_path /\
        clip_duration thumbnail_clip = duration /\
        clip_size thumbnail_clip = Some (v_size vi) /\
        clip_start thumbnail_clip = v_duration vi).
Proof.
  intros r. subst r.
  run_body;
    (split; [simpl; lia|]);
    (split; [intros Hok; try discriminate Hok; reflexivity|]);
    intros out final_video fps Hin; in_trace Hin;
    injection Hin as <- <- <-;
    (split; [reflexivity|]);
    do 3 eexists; repeat split.
Qed.

(** X5.  What [add_watermark_to_video] writes.  It calls the encoder at most
    once; a successful call wrote exactly once; and whatever it wrote went to
    [output_path], at the source's frame rate, as a composite of three
    layers: the source, the main watermark at [(x_pos, y_pos)] for the whole
    source, and the second watermark at [(x_pos_last, y_pos_last)]. *)
Theorem add_watermark_to_video_writes
        (env : environment) (input_path output_path : string)
        (watermark_path_main watermark_path_last5 : string)
        (x_pos y_pos x_pos_last y_pos_last : Z) :
  let r := Watermark.add_watermark_to_video
             env input_path output_path
             watermark_path_main watermark_path_last5
             x_pos y_pos x_pos_last y_pos_last initial in
  (List.length (Observe.writes (trace (snd r))) <= 1)%nat /\
  (fst r = true -> List.length (Observe.writes (trace (snd r))) = 1%nat) /\
  (forall out final_video fps,
      In (out, final_video, fps) (Observe.writes (trace (snd r))) ->
      out = output_path /\
      exists vi source_clip main_clip last_clip,
        VideoFileClip env input_path = Returns vi /\
        fps = v_fps vi /\
        layers final_video = [source_clip; main_clip; last_clip] /\
        source source_clip = input_path /\
        source main_clip = watermark_path_main /\
        clip_duration main_clip = v_duration vi /\
        clip_start main_clip = 0%Q /\
        clip_position main_clip = Some (x_pos, y_pos) /\
        clip_position last_clip = Some (x_pos_last, y_pos_last) /\
        (source last_clip = watermark_path_last5 \/
         source last_clip = watermark_path_main)).
Proof.
  intros r. subst r.
  run_body;
    (split; [simpl; lia|]);
    (split; [intros Hok; try discriminate Hok; reflexivity|]);
    intros out final_video fps Hin; in_trace Hin;
    injection Hin as <- <- <-;
    (split; [reflexivity|]);
    do 4 eexists; repeat split; auto.
Qed.


(** ** Facts about the path functions *)

Example lower_example : Str.lower "Clip.MP4" = "clip.mp4".
Proof. reflexivity. Qed.

Example endswith_example :
  Str.endswith "clip.mp4" ".mp4" = true /\ Str.endswith "mp4" ".mp4" = false.
Proof. split; reflexivity. Qed.

Example of_nat_example : Str.of_nat 0 = "0" /\ Str.of_nat 12 = "12".
Proof. split; reflexivity. Qed.

Lemma append_nil_r (s : string) : s ++ "" = s.
Proof. induction s as [|c s IH]; simpl; [reflexivity|now rewrite IH]. Qed.

Lemma append_assoc (a b c : string) : (a ++ b) ++ c = a ++ (b ++ c).
Proof. induction a as [|x a IH]; simpl; [reflexivity|now rewrite IH]. Qed.

Lemma length_append (a b : string) :
  String.length (a ++ b) = (String.length a + String.length b)%nat.
Proof. induction a as [|x a IH]; simpl; [reflexivity|now rewrite IH]. Qed.

Lemma substring_all (s : string) : String.substring 0 (String.length s) s = s.
Proof. induction s as [|c s IH]; simpl; [reflexivity|now rewrite IH]. Qed.

Lemma take_drop (n : nat) (s : string) :
  PosixPath.take n s ++ PosixPath.drop n s = s.
Proof.
  unfold PosixPath.take, PosixPath.drop. revert n.
  induction s as [|c s IH]; intros n.
  - destruct n; reflexivity.
  - destruct n as [|n]; simpl.
    + now rewrite substring_all.
    + now rewrite IH.
Qed.

Lemma drop_append (a f : string) :
  PosixPath.drop (String.length a) (a ++ f) = f.
Proof.
  unfold PosixPath.drop. rewrite length_append.
  replace (String.length a + String.length f - String.length a)%nat
    with (String.length f) by lia.
  induction a as [|x a IH]; simpl; [apply substring_all|exact IH].
Qed.

Lemma contains_append (c : ascii) (a b : string) :
  Str.contains c (a ++ b) = Str.contains c a || Str.contains c b.
Proof.
  induction a as [|x a IH]; simpl; [reflexivity|].
  now rewrite IH, orb_assoc.
Qed.

Lemma contains_substring (c : ascii) (s : string) (n m : nat) :
  Str.contains c s = false -> Str.contains c (String.substring n m s) = false.
Proof.
  revert n m. induction s as [|x s IH]; intros n m H.
  - destruct n, m; reflexivity.
  - simpl in H. apply orb_false_elim in H. destruct H as [Hx Hs].
    destruct n as [|n]; simpl.
    + destruct m as [|m]; simpl; [reflexivity|].
      rewrite Hx. simpl. now apply IH.
    + now apply IH.
Qed.

Lemma rfind_from_append (c : ascii) (a b : string) (i last : Z) :
  PosixPath.rfind_from c (a ++ b) i last
  = PosixPath.rfind_from c b (i + Z.of_nat (String.length a))
                         (PosixPath.rfind_from c a i last).
Proof.
  revert i last. induction a as [|x a IH]; intros i last; simpl String.length.
  - simpl. now rewrite Z.add_0_r.
  - simpl PosixPath.rfind_from. simpl append. simpl PosixPath.rfind_from.
    rewrite IH. f_equal. lia.
Qed.

Lemma rfind_from_absent (c : ascii) (s : string) (i last : Z) :
  Str.contains c s = false -> PosixPath.rfind_from c s i last = last.
Proof.
  revert i last. induction s as [|x s IH]; intros i last H; simpl in *.
  - reflexivity.
  - apply orb_false_elim in H. destruct H as [Hx Hs].
    rewrite Hx. now apply IH.
Qed.

Lemma endswith_sep_split (a : string) :
  PosixPath.endswith_sep a = true -> exists a', a = a' ++ "/".
Proof.
  induction a as [|x a IH]; simpl; [discriminate|].
  destruct a as [|y a].
  - intros H. apply Ascii.eqb_eq in H. subst x. now exists "".
  - intros H. destruct (IH H) as [a' Ha']. exists (String x a').
    simpl. now rewrite <- Ha'.
Qed.

(** The last component of [prefix/f] is [f]. *)
Lemma basename_after_sep (a' f : string) :
  Str.contains PosixPath.sep f = false ->
  PosixPath.basename ((a' ++ "/") ++ f) = f.
Proof.
  intros Hf. unfold PosixPath.basename, PosixPath.rfind.
  rewrite rfind_from_append, (rfind_from_absent _ _ _ _ Hf).
  rewrite rfind_from_append. simpl PosixPath.rfind_from.
  match goal with
  | |- PosixPath.drop ?n _ = _ =>
      replace n with (String.length (a' ++ "/"))
        by (rewrite length_append; simpl; lia)
  end.
  apply drop_append.
Qed.

Lemma basename_plain (f : string) :
  Str.contains PosixPath.sep f = false -> PosixPath.basename f = f.
Proof.
  intros Hf. unfold PosixPath.basename, PosixPath.rfind.
  rewrite (rfind_from_absent _ _ _ _ Hf). simpl Z.to_nat.
  unfold PosixPath.drop. rewrite Nat.sub_0_r. apply substring_all.
Qed.

Lemma startswith_sep_absent (f : string) :
  Str.contains PosixPath.sep f = false -> PosixPath.startswith_sep f = false.
Proof.
  destruct f as [|x f]; simpl; [reflexivity|].
  intros H. now apply orb_false_elim in H.
Qed.

Lemma rfind_from_hit (c : ascii) (s : string) (i last : Z) :
  (last < i)%Z ->
  PosixPath.rfind_from c s i last = last \/
  ((i <= PosixPath.rfind_from c s i last < i + Z.of_nat (String.length s))%Z /\
   String.get (Z.to_nat (PosixPath.rfind_from c s i last - i)) s = Some c).
Proof.
  revert i last. induction s as [|a s IH]; intros i last Hlt.
  - now left.
  - simpl PosixPath.rfind_from.
    destruct (Ascii.eqb a c) eqn:Hac.
    + apply Ascii.eqb_eq in Hac. subst a.
      destruct (IH (i + 1)%Z i ltac:(lia)) as [Hsame|[Hrange Hget]].
      * right. rewrite Hsame. split; [simpl String.length; lia|].
        now rewrite Z.sub_diag.
      * right. split; [simpl String.length; lia|].
        replace (Z.to_nat (PosixPath.rfind_from c s (i + 1) i - i))
          with (S (Z.to_nat (PosixPath.rfind_from c s (i + 1) i - (i + 1))))
          by lia.
        exact Hget.
    + destruct (IH (i + 1)%Z last ltac:(lia)) as [Hsame|[Hrange Hget]].
      * now left.
      * right. split; [simpl String.length; lia|].
        replace (Z.to_nat (PosixPath.rfind_from c s (i + 1) last - i))
          with (S (Z.to_nat (PosixPath.rfind_from c s (i + 1) last - (i + 1))))
          by lia.
        exact Hget.
Qed.

Lemma drop_at_char (n : nat) (s : string) (c : ascii) :
  String.get n s = Some c -> exists r, PosixPath.drop n s = String c r.
Proof.
  unfold PosixPath.drop. revert n.
  induction s as [|a s IH]; intros n Hget.
  - destruct n; discriminate.
  - destruct n as [|n]; simpl in *.
    + injection Hget as <-. eauto.
    + now apply IH.
Qed.

(** [os.path.splitext] loses nothing: the stem and the extension
    concatenate to the path; the extension is empty or begins with a dot;
    and when the path has no separator neither part has one. *)
Lemma splitext_splits (p : string) :
  fst (PosixPath.splitext p) ++ snd (PosixPath.splitext p) = p /\
  (snd (PosixPath.splitext p) = "" \/
   exists r, snd (PosixPath.splitext p) = String "." r) /\
  (Str.contains PosixPath.sep p = false ->
   Str.contains PosixPath.sep (fst (PosixPath.splitext p)) = false /\
   Str.contains PosixPath.sep (snd (PosixPath.splitext p)) = false).
Proof.
  unfold PosixPath.splitext.
  destruct (PosixPath.rfind PosixPath.sep p <? PosixPath.rfind PosixPath.extsep p)%Z
    eqn:Hdot; cbv zeta.
  - destruct (existsb _ _); simpl fst; simpl snd.
    + split; [apply take_drop|]. split.
      * right. apply Z.ltb_lt in Hdot.
        assert (-1 <= PosixPath.rfind PosixPath.sep p)%Z as Hsep.
        { unfold PosixPath.rfind.
          destruct (rfind_from_hit PosixPath.sep p 0 (-1) ltac:(lia))
            as [->|[Hrange _]]; lia. }
        unfold PosixPath.rfind in *.
        destruct (rfind_from_hit PosixPath.extsep p 0 (-1) ltac:(lia))
          as [Hnone|[Hrange Hget]]; [lia|].
        rewrite Z.sub_0_r in Hget.
        exact (drop_at_char _ _ _ Hget).
      * intros Hfree. split; now apply contains_substring.
    + split; [apply append_nil_r|]. split; [now left|].
      intros Hfree. now split.
  - simpl. split; [apply append_nil_r|]. split; [now left|].
    intros Hfree. now split.
Qed.

(** [os.path.join] keeps a name without separator as the last component:
    [basename(join(d, f)) == f], whatever the directory. *)
Lemma basename_of_join (d f : string) :
  Str.contains PosixPath.sep f = false ->
  PosixPath.basename (PosixPath.join d f) = f.
Proof.
  intros Hf. unfold PosixPath.join.
  rewrite (startswith_sep_absent _ Hf).
  destruct (String.length d =? 0)%nat eqn:Hempty; simpl orb.
  - apply Nat.eqb_eq in Hempty. destruct d; [|discriminate].
    simpl. now apply basename_plain.
  - destruct (PosixPath.endswith_sep d) eqn:Hends.
    + destruct (endswith_sep_split _ Hends) as [d' ->].
      now apply basename_after_sep.
    + rewrite <- append_assoc. now apply basename_after_sep.
Qed.

Lemma drop_zero (s : string) : PosixPath.drop 0 s = s.
Proof. unfold PosixPath.drop. rewrite Nat.sub_0_r. apply substring_all. Qed.

Lemma drop_succ (n : nat) (a : ascii) (s : string) :
  PosixPath.drop (S n) (String a s) = PosixPath.drop n s.
Proof. reflexivity. Qed.

Lemma nothing_after_rfind (c : ascii) (s : string) (i last : Z) :
  (last < i)%Z ->
  Str.contains c
    (PosixPath.drop (Z.to_nat (PosixPath.rfind_from c s i last + 1 - i)) s)
  = false.
Proof.
  revert i last. induction s as [|a s IH]; intros i last Hlt.
  - unfold PosixPath.drop. now destruct (Z.to_nat _).
  - simpl PosixPath.rfind_from.
    destruct (Ascii.eqb a c) eqn:Hac.
    + pose proof (IH (i + 1)%Z i ltac:(lia)) as Hrest.
      destruct (rfind_from_hit c s (i + 1) i ltac:(lia)) as [Hsame|[Hrange _]].
      * rewrite Hsame in *.
        replace (Z.to_nat (i + 1 - i)) with 1%nat by lia.
        replace (Z.to_nat (i + 1 - (i + 1))) with 0%nat in Hrest by lia.
        now rewrite drop_succ.
      * replace (Z.to_nat (PosixPath.rfind_from c s (i + 1) i + 1 - i))
          with (S (Z.to_nat (PosixPath.rfind_from c s (i + 1) i + 1 - (i + 1))))
          by lia.
        now rewrite drop_succ.
    + pose proof (IH (i + 1)%Z last ltac:(lia)) as Hrest.
      destruct (rfind_from_hit c s (i + 1) last ltac:(lia)) as [Hsame|[Hrange _]].
      * rewrite Hsame in *.
        replace (Z.to_nat (last + 1 - i)) with 0%nat by lia.
        replace (Z.to_nat (last + 1 - (i + 1))) with 0%nat in Hrest by lia.
        rewrite drop_zero in *. simpl. now rewrite Hac.
      * replace (Z.to_nat (PosixPath.rfind_from c s (i + 1) last + 1 - i))
          with (S (Z.to_nat (PosixPath.rfind_from c s (i + 1) last + 1 - (i + 1))))
          by lia.
        now rewrite drop_succ.
Qed.

(** [os.path.basename] returns a name without separator. *)
Lemma basename_has_no_sep (p : string) :
  Str.contains PosixPath.sep (PosixPath.basename p) = false.
Proof.
  unfold PosixPath.basename, PosixPath.rfind.
  pose proof (nothing_after_rfind PosixPath.sep p 0 (-1) ltac:(lia)) as H.
  now rewrite Z.sub_0_r in H.
Qed.

(** ** TaskEnumerator: naming and numbering *)

Lemma enumerate_length (A : Type) (l : list A) (start : nat) :
  List.length (Str.enumerate l start) = List.length l.
Proof.
  revert start. induction l as [|x l IH]; intros start; simpl;
    [reflexivity|now rewrite IH].
Qed.

Lemma enumerate_nth (A : Type) (l : list A) (start k : nat) :
  nth_error (Str.enumerate l start) k
  = option_map (fun x => ((start + k)%nat, x)) (nth_error l k).
Proof.
  revert start k. induction l as [|x l IH]; intros start k; simpl.
  - now destruct k.
  - destruct k as [|k]; simpl.
    + now rewrite Nat.add_0_r.
    + rewrite IH. now replace (S start + k)%nat with (start + S k)%nat by lia.
Qed.

Lemma enumerate_values (A : Type) (l : list A) (start : nat) :
  map snd (Str.enumerate l start) = l.
Proof.
  revert start. induction l as [|x l IH]; intros start; simpl;
    [reflexivity|now rewrite IH].
Qed.

(** The output name the scripts build from a file name: it is the last
    component of the output path, and the output path is not the input
    path. *)
Lemma output_beside_input (dir_in dir_out filename suffix : string) :
  Str.contains PosixPath.sep filename = false ->
  Str.contains PosixPath.sep suffix = false ->
  suffix <> "" ->
  let name := fst (PosixPath.splitext filename) in
  let ext := snd (PosixPath.splitext filename) in
  PosixPath.basename (PosixPath.join dir_out (name ++ suffix ++ ext))
  = name ++ suffix ++ ext /\
  PosixPath.basename (PosixPath.join dir_in filename) = filename /\
  PosixPath.join dir_out (name ++ suffix ++ ext)
  <> PosixPath.join dir_in filename.
Proof.
  intros Hfile Hsuffix Hnonempty name ext.
  destruct (splitext_splits filename) as (Hconcat & _ & Hfree).
  destruct (Hfree Hfile) as [Hname Hext]. fold name in Hname, Hconcat.
  fold ext in Hext, Hconcat.
  assert (Str.contains PosixPath.sep (name ++ suffix ++ ext) = false) as Hout.
  { rewrite !contains_append, Hname, Hsuffix, Hext. reflexivity. }
  pose proof (basename_of_join dir_out _ Hout) as Hbase_out.
  pose proof (basename_of_join dir_in _ Hfile) as Hbase_in.
  split; [exact Hbase_out|]. split; [exact Hbase_in|].
  intros Heq. rewrite Heq, Hbase_in in Hbase_out.
  assert (String.length filename
          = String.length (name ++ suffix ++ ext)) as Hlen by now rewrite <- Hbase_out.
  rewrite <- Hconcat in Hlen at 1. rewrite !length_append in Hlen.
  destruct suffix; [contradiction|]. simpl in Hlen. lia.
Qed.

(** ** Batch functions of watermark_adder.py *)



Lemma futures_from_zero (T : Type) (tasks : list T) :
  Pool.futures_of T tasks = seq 0 (List.length tasks).
Proof. unfold Pool.futures_of. apply futures_are_numbered. Qed.

(** The pool of the watermark script returns for every order of
    completion, each future adding its own share; no worker raises. *)
Lemma watermark_pool_returns
      (env : environment) (WATERMARK_PATH WATERMARK_PATH_LAST_5SEC : string)
      (tasks : list Watermark.video_task) (completed : list nat) :
  Permutation completed (seq 0 (List.length tasks)) ->
  exists t,
    Pool.watermark_process_directory
      env WATERMARK_PATH WATERMARK_PATH_LAST_5SEC tasks completed = Returns t /\
    (Pool.success_count t + List.length (Pool.failed_files t)
     = List.length tasks)%nat /\
    Pool.pool_log t = [] /\
    Pool.success_count t
    = list_sum (map (Pool.success_of
                       (Pool.watermark_results
                          env WATERMARK_PATH WATERMARK_PATH_LAST_5SEC tasks))
                    completed) /\
    Pool.failed_files t
    = flat_map (Pool.failure_of
                  Watermark.video_task Watermark.input_file
                  (Pool.watermark_results
                     env WATERMARK_PATH WATERMARK_PATH_LAST_5SEC tasks)
                  tasks)
               completed.
Proof.
  intros Hperm. rewrite <- futures_from_zero in Hperm.
  pose proof (completed_in_range _ _ _ Hperm) as Hrange.
  destruct (collect_shares
              Watermark.video_task Watermark.input_file
              (Pool.watermark_results env WATERMARK_PATH
                                      WATERMARK_PATH_LAST_5SEC tasks)
              tasks completed Pool.no_results Hrange)
    as (t & Hrun & Hs & Hf & Hl).
  simpl in Hs, Hf, Hl. exists t. split; [exact Hrun|]. split; [|split; [|split]].
  - rewrite Hs, Hf, (one_share_each _ _ _ _ _ Hrange).
    exact (completed_length _ _ _ Hperm).
  - rewrite Hl. apply no_share_logged. intros future Hin.
    unfold Pool.logged_of, Pool.watermark_results.
    now destruct (nth_error tasks future).
  - exact Hs.
  - exact Hf.
Qed.

Lemma thumbnail_pool_returns
      (env : environment)
      (tasks : list Thumbnail.video_task) (completed : list nat) :
  Permutation completed (seq 0 (List.length tasks)) ->
  exists t,
    Pool.thumbnail_process_directory env tasks completed = Returns t /\
    (Pool.success_count t + List.length (Pool.failed_files t)
     = List.length tasks)%nat /\
    Pool.pool_log t = [].
Proof.
  intros Hperm. rewrite <- futures_from_zero in Hperm.
  pose proof (completed_in_range _ _ _ Hperm) as Hrange.
  destruct (collect_shares
              Thumbnail.video_task Thumbnail.input_file
              (Pool.thumbnail_results env tasks)
              tasks completed Pool.no_results Hrange)
    as (t & Hrun & Hs & Hf & Hl).
  simpl in Hs, Hf, Hl. exists t. split; [exact Hrun|]. split.
  - rewrite Hs, Hf, (one_share_each _ _ _ _ _ Hrange).
    exact (completed_length _ _ _ Hperm).
  - rewrite Hl. apply no_share_logged. intros future Hin.
    unfold Pool.logged_of, Pool.thumbnail_results.
    now destruct (nth_error tasks future).
Qed.



Lemma watermark_worker_without_main
      (env : environment) (WATERMARK_PATH WATERMARK_PATH_LAST_5SEC : string)
      (task : Watermark.video_task) :
  path_exists env WATERMARK_PATH = false ->
  fst (fst (Watermark.process_single_video_threaded
              env WATERMARK_PATH WATERMARK_PATH_LAST_5SEC task initial))
  = false.
Proof.
  intros Hmain. unfold_body.
  destruct (negb (path_exists env (Watermark.input_file task)));
    [reflexivity|].
  rewrite Hmain. cbn [negb].
  repeat (next_call; cbn [fst snd app]); reflexivity.
Qed.

Lemma sum_of_zeros (f : nat -> nat) (l : list nat) :
  (forall x, In x l -> f x = 0%nat) -> list_sum (map f l) = 0%nat.
Proof.
  induction l as [|x l IH]; intros Hzero; simpl; [reflexivity|].
  rewrite (Hzero x) by now left. apply IH. intros y Hy. apply Hzero. now right.
Qed.

(** X8.  A run of [process_directory] of the watermark script over a
    directory that holds video files, whatever the order in which the
    futures complete: it prepares one task per video file, the pool ends
    normally, and the summary it logs adds up, the successes and the failures
    it reports making the number of video files; the failed files are listed
    exactly when there are some.  The function does not check the watermark
    files itself: when the main watermark file is missing it still runs the
    whole batch, and every task fails. *)
Theorem watermark_batch_accounts_for_every_video
        (env : environment) (listdir : string -> result (list string))
        (INPUT_DIR OUTPUT_DIR : string)
        (WATERMARK_PATH WATERMARK_PATH_LAST_5SEC : string)
        (cpu_count : Z) (as_completed : nat -> list nat)
        (listing : list string) :
  (forall n, Permutation (as_completed n) (seq 0 n)) ->
  path_exists env INPUT_DIR = true ->
  listdir INPUT_DIR = Returns listing ->
  filter Batch.is_video listing <> [] ->
  let total := List.length (filter Batch.is_video listing) in
  exists r t,
    WatermarkBatch.process_directory
      env listdir INPUT_DIR OUTPUT_DIR
      WATERMARK_PATH WATERMARK_PATH_LAST_5SEC cpu_count as_completed
    = Returns r /\
    WatermarkBatch.totals r = Some t /\
    WatermarkBatch.video_tasks r
    = WatermarkBatch.video_tasks_of INPUT_DIR OUTPUT_DIR
                                    (filter Batch.is_video listing) /\
    (Pool.success_count t + List.length (Pool.failed_files t) = total)%nat /\
    In (info, WatermarkBatch.MsgSuccessful (Pool.success_count t) total)
       (WatermarkBatch.batch_log r) /\
    In (info, WatermarkBatch.MsgFailedCount
                (List.length (Pool.failed_files t)) total)
       (WatermarkBatch.batch_log r) /\
    (forall names,
        In (info, WatermarkBatch.MsgFailedFiles names)
           (WatermarkBatch.batch_log r) <->
        names = Pool.failed_files t /\ names <> []) /\
    (path_exists env WATERMARK_PATH = false ->
     Pool.success_count t = 0%nat /\
     List.length (Pool.failed_files t) = total).
Proof.
  intros Hperm Hdir Hlisting Hsome total.
  unfold WatermarkBatch.process_directory.
  rewrite Hdir, Hlisting. cbn [negb].
  destruct (filter Batch.is_video listing) as [|first others] eqn:Hfiles;
    [contradiction|].
  cbn [Batch.is_empty].
  set (video_files := first :: others) in *.
  set (tasks := WatermarkBatch.video_tasks_of INPUT_DIR OUTPUT_DIR video_files).
  assert (List.length tasks = total) as Htasks.
  { unfold tasks, WatermarkBatch.video_tasks_of.
    now rewrite length_map, enumerate_length. }
  destruct (watermark_pool_returns
              env WATERMARK_PATH WATERMARK_PATH_LAST_5SEC tasks
              (as_completed (List.length tasks)) (Hperm _))
    as (t & Hrun & Hcount & Hlog & Hs & Hf).
  cbv zeta. fold video_files. fold tasks. rewrite Hrun. eexists. exists t.
  split; [reflexivity|]. split; [reflexivity|]. split; [reflexivity|].
  cbn [WatermarkBatch.batch_log].
  rewrite Hlog. cbn [map app].
  split; [now rewrite <- Htasks|].
  split; [apply in_or_app; right; simpl; auto|].
  split; [apply in_or_app; right; simpl; auto|].
  split.
  - intros names. unfold WatermarkBatch.banner, WatermarkBatch.summary.
    destruct (Pool.failed_files t) as [|name names'] eqn:Hfailed;
      cbn [Batch.is_empty app]; split.
    + intros Hin. in_trace Hin.
    + intros [-> Hne]. contradiction.
    + intros Hin. in_trace Hin. injection Hin as <-. split; [reflexivity|].
      discriminate.
    + intros [-> _]. simpl. auto 15.
  - intros Hmain.
    assert (Pool.success_count t = 0%nat) as Hnone.
    { rewrite Hs. apply sum_of_zeros. intros future _.
      unfold Pool.success_of, Pool.watermark_results.
      destruct (nth_error tasks future) as [task|]; [|reflexivity].
      pose proof (watermark_worker_without_main
                    env WATERMARK_PATH WATERMARK_PATH_LAST_5SEC task Hmain)
        as Hworker.
      destruct (Watermark.process_single_video_threaded _ _ _ _ _)
        as [[success name] s]. simpl in Hworker. now subst success. }
    split; [exact Hnone|]. lia.
Qed.

Section SequentialFacts.

Variable env : environment.
Variables INPUT_DIR OUTPUT_DIR : string.
Variables WATERMARK_PATH WATERMARK_PATH_LAST_5SEC : string.


End SequentialFacts.

Lemma enumerate_In (A : Type) (l : list A) (start k : nat) (x : A) :
  nth_error l k = Some x -> In ((start + k)%nat, x) (Str.enumerate l start).
Proof.
  intros Hnth. apply (nth_error_In _ k). now rewrite enumerate_nth, Hnth.
Qed.


(** ** Single-video mode of the two scripts *)

(** The default output path of [process_single_video]: its last component
    is the input's name with the suffix before the extension, and it is not
    the input path. *)
Lemma default_output_differs (OUTPUT_DIR input_file suffix : string) :
  Str.contains PosixPath.sep suffix = false ->
  suffix <> "" ->
  let filename := PosixPath.basename input_file in
  let name := fst (PosixPath.splitext filename) in
  let ext := snd (PosixPath.splitext filename) in
  PosixPath.basename (PosixPath.join OUTPUT_DIR (name ++ suffix ++ ext))
  = name ++ suffix ++ ext /\
  PosixPath.join OUTPUT_DIR (name ++ suffix ++ ext) <> input_file.
Proof.
  intros Hsuffix Hnonempty filename name ext.
  destruct (output_beside_input "" OUTPUT_DIR filename suffix
                                (basename_has_no_sep input_file)
                                Hsuffix Hnonempty)
    as (Hbase & _ & _).
  fold name ext in Hbase. split; [exact Hbase|].
  intros Heq. rewrite Heq in Hbase. fold filename in Hbase.
  destruct (splitext_splits filename) as (Hconcat & _). fold name ext in Hconcat.
  assert (String.length filename = String.length (name ++ suffix ++ ext))
    as Hlen by now rewrite <- Hbase.
  rewrite <- Hconcat in Hlen at 1. rewrite !length_append in Hlen.
  destruct suffix; [contradiction|]. simpl in Hlen. lia.
Qed.

Lemma thumbnail_writes_to_output
      (env : environment) (input_path output_path thumbnail_path : string)
      (duration fade_duration : Q) (out : string) (final_video : composite)
      (fps : Q) :
  In (out, final_video, fps)
     (Observe.writes
        (trace (snd (Thumbnail.add_thumbnail_to_video
                       env input_path output_path thumbnail_path
                       duration fade_duration initial)))) ->
  out = output_path.
Proof.
  run_body; intros Hin; in_trace Hin; now injection Hin as <- <- <-.
Qed.

Lemma watermark_writes_to_output
      (env : environment) (input_path output_path : string)
      (watermark_path_main watermark_path_last5 : string)
      (x_pos y_pos x_pos_last y_pos_last : Z)
      (out : string) (final_video : composite) (fps : Q) :
  In (out, final_video, fps)
     (Observe.writes
        (trace (snd (Watermark.add_watermark_to_video
                       env input_path output_path
                       watermark_path_main watermark_path_last5
                       x_pos y_pos x_pos_last y_pos_last initial)))) ->
  out = output_path.
Proof.
  run_body; intros Hin; in_trace Hin; now injection Hin as <- <- <-.
Qed.

(** X10.  [process_single_video] of the thumbnail script, called without an
    output file.  Both files are checked before anything is opened: when the
    input or the thumbnail is missing the call returns [False] with one error
    logged and no call made to the compositing library.  Otherwise whatever
    is written goes to the file [stem_with_thumbnail.ext] of [OUTPUT_DIR],
    [stem] and [ext] being those of the input's name; that path is never the
    input path, so the source is not overwritten. *)
Theorem thumbnail_single_video_writes_beside
        (env : environment) (OUTPUT_DIR input_file thumbnail_file : string) :
  let r := Thumbnail.process_single_video
             env OUTPUT_DIR input_file thumbnail_file None initial in
  let filename := PosixPath.basename input_file in
  let name := fst (PosixPath.splitext filename) in
  let ext := snd (PosixPath.splitext filename) in
  let target := PosixPath.join OUTPUT_DIR (name ++ "_with_thumbnail" ++ ext) in
  (path_exists env input_file = false ->
   fst r = false /\ trace (snd r) = [] /\
   log (snd r) = [(error, MsgInputNotFound input_file)]) /\
  (path_exists env input_file = true ->
   path_exists env thumbnail_file = false ->
   fst r = false /\ trace (snd r) = [] /\
   log (snd r) = [(error, MsgThumbnailNotFound thumbnail_file)]) /\
  (forall out final_video fps,
      In (out, final_video, fps) (Observe.writes (trace (snd r))) ->
      out = target) /\
  PosixPath.basename target = name ++ "_with_thumbnail" ++ ext /\
  target <> input_file.
Proof.
  intros r filename name ext target.
  destruct (default_output_differs OUTPUT_DIR input_file "_with_thumbnail"
                                   eq_refl ltac:(discriminate))
    as [Hbase Hdiffer].
  fold filename name ext target in Hbase, Hdiffer.
  split; [|split; [|split; [|split; assumption]]].
  - intros Hinput. subst r. unfold Thumbnail.process_single_video.
    rewrite Hinput. now cbn.
  - intros Hinput Hthumb. subst r. unfold Thumbnail.process_single_video.
    rewrite Hinput, Hthumb. now cbn.
  - intros out final_video fps. subst r.
    unfold Thumbnail.process_single_video.
    destruct (negb (path_exists env input_file)); [intros []|].
    destruct (negb (path_exists env thumbnail_file)); [intros []|].
    fold filename. unfold name, ext in target.
    destruct (PosixPath.splitext filename) as [name0 ext0].
    apply thumbnail_writes_to_output.
Qed.

(** X11.  [process_single_video] of the watermark script, called without an
    output file.  A missing input is reported before anything is opened.
    Otherwise whatever is written goes to the file [stem_watermarked.ext] of
    [OUTPUT_DIR], which is never the input path.  The watermark files are
    not checked here: with the input present and the main watermark missing
    the source is opened, and the call fails inside the operation. *)
Theorem watermark_single_video_writes_beside
        (env : environment)
        (OUTPUT_DIR WATERMARK_PATH WATERMARK_PATH_LAST_5SEC : string)
        (input_file : string) :
  let r := WatermarkBatch.process_single_video
             env OUTPUT_DIR WATERMARK_PATH WATERMARK_PATH_LAST_5SEC
             input_file None initial in
  let filename := PosixPath.basename input_file in
  let name := fst (PosixPath.splitext filename) in
  let ext := snd (PosixPath.splitext filename) in
  let target := PosixPath.join OUTPUT_DIR (name ++ "_watermarked" ++ ext) in
  (path_exists env input_file = false ->
   fst r = false /\ trace (snd r) = [] /\
   log (snd r) = [(error, MsgInputNotFound input_file)]) /\
  (path_exists env input_file = true ->
   path_exists env WATERMARK_PATH = false ->
   fst r = false /\
   forall vi, VideoFileClip env input_file = Returns vi ->
              In (Opened 0 (OVideo input_file)) (trace (snd r))) /\
  (forall out final_video fps,
      In (out, final_video, fps) (Observe.writes (trace (snd r))) ->
      out = target) /\
  PosixPath.basename target = name ++ "_watermarked" ++ ext /\
  target <> input_file.
Proof.
  intros r filename name ext target.
  destruct (default_output_differs OUTPUT_DIR input_file "_watermarked"
                                   eq_refl ltac:(discriminate))
    as [Hbase Hdiffer].
  fold filename name ext target in Hbase, Hdiffer.
  split; [|split; [|split; [|split; assumption]]].
  - intros Hinput. subst r. unfold WatermarkBatch.process_single_video.
    rewrite Hinput. now cbn.
  - intros Hinput Hmain. subst r. unfold WatermarkBatch.process_single_video.
    rewrite Hinput. cbn [negb]. fold filename.
    destruct (PosixPath.splitext filename) as [name0 ext0].
    unfold_body. rewrite Hmain. cbn [negb].
    repeat (next_call; cbn [fst snd app]);
      (split; [reflexivity|intros vi Hvi;
                           first [discriminate Hvi|simpl; auto]]).
  - intros out final_video fps. subst r.
    unfold WatermarkBatch.process_single_video.
    destruct (negb (path_exists env input_file)); [intros []|].
    fold filename. unfold name, ext in target.
    destruct (PosixPath.splitext filename) as [name0 ext0].
    apply watermark_writes_to_output.
Qed.
(** ** Batch functions of thumbnail_adder.py *)

Lemma enumerate_In_inv (A : Type) (l : list A) (start i : nat) (x : A) :
  In (i, x) (Str.enumerate l start) ->
  (start <= i)%nat /\ nth_error l (i - start) = Some x.
Proof.
  revert start. induction l as [|y l IH]; intros start; simpl; [intros []|].
  intros [Heq|Hin].
  - injection Heq as <- <-. split; [lia|]. now rewrite Nat.sub_diag.
  - destruct (IH _ Hin) as [Hle Hnth]. split; [lia|].
    replace (i - start)%nat with (S (i - S start)) by lia. exact Hnth.
Qed.

Lemma warnings_app (a b : list (ThumbnailBatch.channel * ThumbnailBatch.batch_message)) :
  ThumbnailBatch.warnings (a ++ b)%list
  = (ThumbnailBatch.warnings a ++ ThumbnailBatch.warnings b)%list.
Proof. unfold ThumbnailBatch.warnings. apply flat_map_app. Qed.

Lemma found_some (x : option string) (th : string) :
  ThumbnailBatch.found x = Some th -> x = Some th.
Proof.
  destruct x as [[|a s]|]; simpl; intros H; try discriminate H;
    now injection H as <-.
Qed.

Lemma write_all_appends
      (lines : list (ThumbnailBatch.channel * ThumbnailBatch.batch_message))
      (c : ThumbnailBatch.console) :
  ThumbnailBatch.write_all lines c
  = (Returns tt,
     {| ThumbnailBatch.answers := ThumbnailBatch.answers c;
        ThumbnailBatch.written := (ThumbnailBatch.written c ++ lines)%list |}).
Proof.
  revert c. induction lines as [|line rest IH]; intros c; simpl.
  - unfold ThumbnailBatch.pure. rewrite app_nil_r. now destruct c.
  - unfold ThumbnailBatch.then_, ThumbnailBatch.write. rewrite IH. simpl.
    now rewrite <- app_assoc.
Qed.

Ltac run_console :=
  cbv [ThumbnailBatch.then_ ThumbnailBatch.write ThumbnailBatch.input
       ThumbnailBatch.pure ThumbnailBatch.attempt
       ThumbnailBatch.get_batch_thumbnail_strategy
       ThumbnailBatch.answers ThumbnailBatch.written].

Section ThumbnailBatchFacts.

Variable env : environment.
Variables INPUT_DIR OUTPUT_DIR : string.

Local Notation "'paired'" :=
  (ThumbnailBatch.paired env INPUT_DIR OUTPUT_DIR) (only parsing).

Lemma task_of_thumbnail (total i : nat) (filename th : string) :
  Thumbnail.thumbnail_file
    (ThumbnailBatch.task_of INPUT_DIR OUTPUT_DIR total i filename th) = th.
Proof.
  unfold ThumbnailBatch.task_of. now destruct (PosixPath.splitext filename).
Qed.

Lemma matched_thumbnail_exists (input_path : string) (dirs : list string)
      (th : string) :
  ThumbnailBatch.found
    (Resolver.find_matching_thumbnail (path_exists env) input_path dirs)
  = Some th ->
  path_exists env th = true.
Proof.
  intros Hfound. apply found_some in Hfound.
  unfold Resolver.find_matching_thumbnail in Hfound.
  destruct (probe_some _ _ _ _ Hfound) as (_ & _ & _ & _ & _ & _ & _ & H & _).
  exact H.
Qed.

Lemma paired_later (total : nat) (x : nat * string)
      (indexed : list (nat * string))
      (labels : list nat) (tasks : list Thumbnail.video_task) :
  Forall2 (paired total indexed) labels tasks ->
  Forall2 (paired total (x :: indexed)) labels tasks.
Proof.
  apply Forall2_impl. intros i task (filename & Hin & Htask & Hex).
  exists filename. split; [now right|]. now split.
Qed.

Lemma sorted_cons (start : nat) (labels : list nat) :
  StronglySorted lt labels -> Forall (le (S start)) labels ->
  StronglySorted lt (start :: labels) /\ Forall (le start) (start :: labels).
Proof.
  intros Hsorted Hafter. split.
  - constructor; [exact Hsorted|].
    eapply Forall_impl; [|exact Hafter]. intros a Ha. simpl in Ha. lia.
  - constructor; [lia|].
    eapply Forall_impl; [|exact Hafter]. intros a Ha. simpl in Ha. lia.
Qed.

Lemma later_labels (start : nat) (labels : list nat) :
  Forall (le (S start)) labels -> Forall (le start) labels.
Proof. apply Forall_impl. intros a Ha. lia. Qed.

(** Strategies "2" and "3": the loop never raises and reads no answer; it
    writes one warning per video file without a thumbnail and prepares one
    task for each of the others. *)
Lemma auto_match_facts (total : nat) (dirs : list string) (l : list string) :
  forall (start : nat) (c : ThumbnailBatch.console),
  exists tasks labels,
    ThumbnailBatch.auto_match env INPUT_DIR OUTPUT_DIR total dirs
                              (Str.enumerate l start) c
    = (Returns tasks,
       {| ThumbnailBatch.answers := ThumbnailBatch.answers c;
          ThumbnailBatch.written :=
            (ThumbnailBatch.written c
             ++ map (fun f => (ThumbnailBatch.Logged warning,
                               ThumbnailBatch.MsgNoMatchingThumbnail f))
                    (ThumbnailBatch.unmatched env INPUT_DIR dirs l))%list |}) /\
    StronglySorted lt labels /\ Forall (le start) labels /\
    Forall2 (paired total (Str.enumerate l start)) labels tasks /\
    (List.length tasks
     + List.length (ThumbnailBatch.unmatched env INPUT_DIR dirs l)
     = List.length l)%nat /\
    (forall i filename th,
        In (i, filename) (Str.enumerate l start) ->
        ThumbnailBatch.found
          (Resolver.find_matching_thumbnail
             (path_exists env) (PosixPath.join INPUT_DIR filename) dirs)
        = Some th ->
        In (ThumbnailBatch.task_of INPUT_DIR OUTPUT_DIR total i filename th)
           tasks).
Proof.
  induction l as [|x l IH]; intros start c.
  - exists [], []. simpl. unfold ThumbnailBatch.pure. rewrite app_nil_r.
    split; [now destruct c|]. repeat split; auto; try constructor.
  - cbn [Str.enumerate ThumbnailBatch.auto_match ThumbnailBatch.unmatched filter].
    fold (ThumbnailBatch.unmatched env INPUT_DIR dirs l).
    destruct (ThumbnailBatch.found _) as [th|] eqn:Hfound.
    + destruct (IH (S start) c)
        as (tasks & labels & Hrun & Hsorted & Hafter & Hpaired & Hcount & Hall).
      exists (ThumbnailBatch.task_of INPUT_DIR OUTPUT_DIR total start x th
                :: tasks), (start :: labels).
      unfold ThumbnailBatch.then_ at 1. rewrite Hrun.
      unfold ThumbnailBatch.pure.
      destruct (sorted_cons start labels Hsorted Hafter) as [Hs Ha].
      split; [reflexivity|]. split; [exact Hs|]. split; [exact Ha|].
      split; [|split].
      * constructor; [|now apply paired_later].
        exists x. rewrite task_of_thumbnail. split; [now left|].
        split; [reflexivity|]. exact (matched_thumbnail_exists _ _ _ Hfound).
      * simpl. lia.
      * intros i filename th' [Heq|Hin] Hth.
        -- injection Heq as <- <-. rewrite Hfound in Hth.
           injection Hth as <-. now left.
        -- right. now apply (Hall i filename).
    + set (c1 := {| ThumbnailBatch.answers := ThumbnailBatch.answers c;
                    ThumbnailBatch.written :=
                      (ThumbnailBatch.written c
                       ++ [(ThumbnailBatch.Logged warning,
                            ThumbnailBatch.MsgNoMatchingThumbnail x)])%list |}).
      destruct (IH (S start) c1)
        as (tasks & labels & Hrun & Hsorted & Hafter & Hpaired & Hcount & Hall).
      exists tasks, labels.
      unfold ThumbnailBatch.then_ at 1, ThumbnailBatch.write at 1.
      fold c1. rewrite Hrun. subst c1. cbn [ThumbnailBatch.answers
                                           ThumbnailBatch.written map].
      rewrite <- app_assoc. cbn [app].
      split; [reflexivity|]. split; [exact Hsorted|].
      split; [now apply later_labels|]. split; [now apply paired_later|].
      split.
      * simpl. lia.
      * intros i filename th' [Heq|Hin] Hth.
        -- injection Heq as <- <-. rewrite Hfound in Hth. discriminate Hth.
        -- now apply (Hall i filename).
Qed.

(** Strategy "4": with an answer for every video file the loop reads
    exactly one answer per file and keeps, in order, the answers that are
    not [skip] and name an existing file; each other answer that is not
    [skip] is warned about. *)
Lemma ask_each_facts (total : nat) (l : list string) :
  forall (start : nat) (c : ThumbnailBatch.console),
  (List.length l <= List.length (ThumbnailBatch.answers c))%nat ->
  exists tasks labels c',
    ThumbnailBatch.ask_each env INPUT_DIR OUTPUT_DIR total
                            (Str.enumerate l start) c
    = (Returns tasks, c') /\
    ThumbnailBatch.answers c'
    = skipn (List.length l) (ThumbnailBatch.answers c) /\
    StronglySorted lt labels /\ Forall (le start) labels /\
    Forall2 (paired total (Str.enumerate l start)) labels tasks /\
    map Thumbnail.thumbnail_file tasks
    = filter (fun a => negb (ThumbnailBatch.is_skip a) && path_exists env a)
             (firstn (List.length l) (ThumbnailBatch.answers c)) /\
    List.length (ThumbnailBatch.warnings (ThumbnailBatch.written c'))
    = (List.length (ThumbnailBatch.warnings (ThumbnailBatch.written c))
       + List.length
           (filter (fun a => negb (ThumbnailBatch.is_skip a)
                             && negb (path_exists env a))
                   (firstn (List.length l) (ThumbnailBatch.answers c))))%nat.
Proof.
  induction l as [|x l IH]; intros start [ans wr] Henough.
  - exists [], [], {| ThumbnailBatch.answers := ans;
                      ThumbnailBatch.written := wr |}.
    simpl. repeat split; try constructor. lia.
  - destruct ans as [|a rest]; [simpl in Henough; lia|].
    cbn [Str.enumerate ThumbnailBatch.ask_each]. run_console.
    cbn [List.length firstn skipn filter].
    assert (forall c1,
               ThumbnailBatch.answers c1 = rest ->
               (List.length l <= List.length (ThumbnailBatch.answers c1))%nat)
      as Hrest.
    { intros c1 ->. simpl in Henough. lia. }
    destruct (ThumbnailBatch.is_skip a) eqn:Hskip; cbn [negb andb].
    + match goal with
      | |- context [ThumbnailBatch.ask_each _ _ _ _ _ ?c1] =>
          destruct (IH (S start) c1 (Hrest c1 eq_refl))
          as (tasks & labels & c' & Hrun & Hans & Hsorted & Hafter
              & Hpaired & Hkept & Hwarned)
      end.
      exists tasks, labels, c'. split; [exact Hrun|].
      cbv [ThumbnailBatch.answers ThumbnailBatch.written] in *.
      split; [exact Hans|]. split; [exact Hsorted|].
      split; [now apply later_labels|]. split; [now apply paired_later|].
      split; [exact Hkept|].
      rewrite Hwarned, !warnings_app. simpl. now rewrite !app_nil_r.
    + destruct (path_exists env a) eqn:Hexists; cbn [negb andb].
      * match goal with
        | |- context [ThumbnailBatch.ask_each _ _ _ _ _ ?c1] =>
            destruct (IH (S start) c1 (Hrest c1 eq_refl))
            as (tasks & labels & c' & Hrun & Hans & Hsorted & Hafter
                & Hpaired & Hkept & Hwarned)
        end.
        rewrite Hrun.
        destruct (sorted_cons start labels Hsorted Hafter) as [Hs Ha].
        exists (ThumbnailBatch.task_of INPUT_DIR OUTPUT_DIR total start x a
                  :: tasks), (start :: labels), c'.
        split; [reflexivity|].
        cbv [ThumbnailBatch.answers ThumbnailBatch.written] in *.
        split; [exact Hans|]. split; [exact Hs|]. split; [exact Ha|].
        split; [|split].
        -- constructor; [|now apply paired_later].
           exists x. rewrite task_of_thumbnail. split; [now left|].
           now split.
        -- cbn [map]. now rewrite task_of_thumbnail, Hkept.
        -- rewrite Hwarned, !warnings_app. simpl. now rewrite !app_nil_r.
      * match goal with
        | |- context [ThumbnailBatch.ask_each _ _ _ _ _ ?c1] =>
            destruct (IH (S start) c1 (Hrest c1 eq_refl))
            as (tasks & labels & c' & Hrun & Hans & Hsorted & Hafter
                & Hpaired & Hkept & Hwarned)
        end.
        exists tasks, labels, c'. split; [exact Hrun|].
        cbv [ThumbnailBatch.answers ThumbnailBatch.written] in *.
        split; [exact Hans|]. split; [exact Hsorted|].
        split; [now apply later_labels|]. split; [now apply paired_later|].
        split; [exact Hkept|].
        rewrite Hwarned, !warnings_app. simpl. rewrite !app_nil_r.
        rewrite length_app. simpl. lia.
Qed.

(** Strategy "4": when the answers run out before the video files do, the
    loop raises [EOFError]. *)
Lemma ask_each_eof (total : nat) (l : list string) :
  forall (start : nat) (c : ThumbnailBatch.console),
  (List.length (ThumbnailBatch.answers c) < List.length l)%nat ->
  exists c',
    ThumbnailBatch.ask_each env INPUT_DIR OUTPUT_DIR total
                            (Str.enumerate l start) c
    = (Raises "EOFError", c') /\
    ThumbnailBatch.answers c' = [].
Proof.
  induction l as [|x l IH]; intros start [ans wr] Hshort;
    [simpl in Hshort; lia|].
  cbn [Str.enumerate ThumbnailBatch.ask_each]. run_console.
  destruct ans as [|a rest]; [eexists; split; reflexivity|].
  assert (forall c1,
             ThumbnailBatch.answers c1 = rest ->
             (List.length (ThumbnailBatch.answers c1) < List.length l)%nat)
    as Hrest.
  { intros c1 ->. simpl in Hshort. lia. }
  destruct (ThumbnailBatch.is_skip a);
    [|destruct (negb (path_exists env a))];
    match goal with
    | |- context [ThumbnailBatch.ask_each _ _ _ _ _ ?c1] =>
        destruct (IH (S start) c1 (Hrest c1 eq_refl)) as (c' & Hrun & Hans)
    end;
    rewrite Hrun; exists c'; now split.
Qed.

(** Strategy "1": one task per video file, all with the same thumbnail. *)
Lemma one_for_all_facts (total : nat) (th : string) (l : list string) :
  path_exists env th = true ->
  forall start : nat,
    StronglySorted lt (map fst (Str.enumerate l start)) /\
    Forall (le start) (map fst (Str.enumerate l start)) /\
    Forall2 (paired total (Str.enumerate l start))
            (map fst (Str.enumerate l start))
            (ThumbnailBatch.one_for_all INPUT_DIR OUTPUT_DIR total th
                                        (Str.enumerate l start)) /\
    List.length (ThumbnailBatch.one_for_all INPUT_DIR OUTPUT_DIR total th
                                            (Str.enumerate l start))
    = List.length l /\
    map Thumbnail.thumbnail_file
        (ThumbnailBatch.one_for_all INPUT_DIR OUTPUT_DIR total th
                                    (Str.enumerate l start))
    = repeat th (List.length l).
Proof.
  intros Hth. induction l as [|x l IH]; intros start.
  - simpl. repeat split; constructor.
  - destruct (IH (S start)) as (Hsorted & Hafter & Hpaired & Hlen & Hsame).
    destruct (sorted_cons start _ Hsorted Hafter) as [Hs Ha].
    cbn [Str.enumerate map fst ThumbnailBatch.one_for_all].
    split; [exact Hs|]. split; [exact Ha|]. split; [|split].
    + constructor; [|now apply paired_later].
      exists x. rewrite task_of_thumbnail. split; [now left|]. now split.
    + cbn [List.length]. f_equal. exact Hlen.
    + cbn [List.length repeat]. rewrite task_of_thumbnail. f_equal. exact Hsame.
Qed.

Variable THUMBNAIL_DIR : string.

(** What [process_directory] can get from the preparation of its tasks:
    tasks that pair listed video files with existing thumbnails, in the
    order of the listing; an early return after an error was logged; or
    [EOFError] once the answers have run out. *)
Lemma prepare_tasks_facts (video_files : list string)
      (c : ThumbnailBatch.console) :
  match ThumbnailBatch.prepare_tasks env INPUT_DIR OUTPUT_DIR THUMBNAIL_DIR
                                     video_files c with
  | (Returns (Some tasks), c') =>
      (exists labels,
          StronglySorted lt labels /\ Forall (le 1%nat) labels /\
          Forall2 (paired (List.length video_files)
                          (Str.enumerate video_files 1))
                  labels tasks) /\
      (List.length tasks <= List.length video_files)%nat
  | (Returns None, c') =>
      exists before msg,
        ThumbnailBatch.written c'
        = (before ++ [(ThumbnailBatch.Logged error, msg)])%list
  | (Raises e, c') => e = "EOFError" /\ ThumbnailBatch.answers c' = []
  end.
Proof.
  destruct c as [ans wr].
  unfold ThumbnailBatch.prepare_tasks. run_console.
  destruct ans as [|strategy ans]; [now split|].
  destruct (String.eqb strategy "1").
  { destruct ans as [|th ans]; [now split|].
    destruct (path_exists env th) eqn:Hth; cbn [negb].
    - destruct (one_for_all_facts (List.length video_files) th video_files
                                  Hth 1)
        as (Hs & Ha & Hp & Hl & _).
      split; [eauto|]. rewrite Hl. lia.
    - eexists _, _. reflexivity. }
  destruct (String.eqb strategy "2").
  { match goal with
    | |- context [ThumbnailBatch.auto_match _ _ _ _ ?dirs _ ?c1] =>
        destruct (auto_match_facts (List.length video_files) dirs
                                   video_files 1 c1)
        as (tasks & labels & Hrun & Hs & Ha & Hp & Hcount & _)
    end.
    rewrite Hrun. split; [eauto|lia]. }
  destruct (String.eqb strategy "3").
  { destruct ans as [|thumb_dir ans]; [now split|].
    destruct (path_exists env thumb_dir) eqn:Hdir; cbn [negb].
    - match goal with
      | |- context [ThumbnailBatch.auto_match _ _ _ _ ?dirs _ ?c1] =>
          destruct (auto_match_facts (List.length video_files) dirs
                                     video_files 1 c1)
          as (tasks & labels & Hrun & Hs & Ha & Hp & Hcount & _)
      end.
      rewrite Hrun. split; [eauto|lia].
    - eexists _, _. reflexivity. }
  destruct (String.eqb strategy "4").
  { match goal with
    | |- context [ThumbnailBatch.ask_each _ _ _ _ _ ?c1] =>
        destruct (le_lt_dec (List.length video_files)
                            (List.length (ThumbnailBatch.answers c1)))
        as [Henough|Hshort];
        [destruct (ask_each_facts (List.length video_files) video_files
                                  1 c1 Henough)
          as (tasks & labels & c' & Hrun & _ & Hs & Ha & Hp & Hkept & _)
        |destruct (ask_each_eof (List.length video_files) video_files
                                1 c1 Hshort)
          as (c' & Hrun & Hans)]
    end; rewrite Hrun.
    - split; [eauto|].
      rewrite <- (length_map Thumbnail.thumbnail_file), Hkept.
      etransitivity; [apply filter_length_le|].
      rewrite length_firstn. lia.
    - now split. }
  eexists _, _. reflexivity.
Qed.

End ThumbnailBatchFacts.

(** [process_directory] of the thumbnail script once the input directory is
    listed and holds video files: what follows the preparation of the
    tasks.  The pool ends normally for every order of completion. *)
Lemma thumbnail_directory_run
      (env : environment) (listdir : string -> result (list string))
      (INPUT_DIR OUTPUT_DIR THUMBNAIL_DIR : string)
      (cpu_count : Z) (as_completed : nat -> list nat)
      (listing : list string) (c : ThumbnailBatch.console) :
  (forall n, Permutation (as_completed n) (seq 0 n)) ->
  path_exists env INPUT_DIR = true ->
  listdir INPUT_DIR = Returns listing ->
  filter Batch.is_video listing <> [] ->
  match ThumbnailBatch.prepare_tasks env INPUT_DIR OUTPUT_DIR THUMBNAIL_DIR
                                     (filter Batch.is_video listing) c with
  | (Returns (Some tasks), c1) =>
      exists r added,
        ThumbnailBatch.process_directory
          env listdir INPUT_DIR OUTPUT_DIR THUMBNAIL_DIR cpu_count
          as_completed c
        = (Returns r,
           {| ThumbnailBatch.answers := ThumbnailBatch.answers c1;
              ThumbnailBatch.written :=
                (ThumbnailBatch.written c1 ++ added)%list |}) /\
        ThumbnailBatch.video_tasks r = tasks /\
        match ThumbnailBatch.totals r with
        | None =>
            tasks = [] /\
            added = [(ThumbnailBatch.Logged warning,
                      ThumbnailBatch.MsgNoValidPairs)]
        | Some t =>
            tasks <> [] /\
            (Pool.success_count t + List.length (Pool.failed_files t)
             = List.length tasks)%nat /\
            added = (ThumbnailBatch.banner cpu_count tasks
                     ++ ThumbnailBatch.summary t (List.length tasks))%list
        end
  | (Returns None, c1) =>
      ThumbnailBatch.process_directory
        env listdir INPUT_DIR OUTPUT_DIR THUMBNAIL_DIR cpu_count
        as_completed c
      = (Returns ThumbnailBatch.nothing_done, c1)
  | (Raises e, c1) =>
      ThumbnailBatch.process_directory
        env listdir INPUT_DIR OUTPUT_DIR THUMBNAIL_DIR cpu_count
        as_completed c
      = (Raises e, c1)
  end.
Proof.
  intros Hperm Hdir Hlisting Hsome.
  unfold ThumbnailBatch.process_directory.
  rewrite Hdir. cbn [negb]. run_console. rewrite Hlisting.
  destruct (filter Batch.is_video listing) as [|first others] eqn:Hfiles;
    [contradiction|].
  cbn [Batch.is_empty].
  destruct (ThumbnailBatch.prepare_tasks _ _ _ _ _ c)
    as [[[tasks|]|e] [ans1 wr1]]; [|reflexivity|reflexivity].
  destruct tasks as [|task tasks']; cbn [Batch.is_empty].
  - eexists _, _. split; [reflexivity|]. now split.
  - set (tasks := task :: tasks').
    destruct (thumbnail_pool_returns env tasks
                                     (as_completed (List.length tasks))
                                     (Hperm _))
      as (t & Hrun & Hcount & Hlog).
    rewrite write_all_appends, Hrun, Hlog. cbn [map].
    rewrite !write_all_appends.
    cbn [ThumbnailBatch.answers ThumbnailBatch.written].
    rewrite app_nil_r, <- app_assoc.
    eexists _, _. split; [reflexivity|].
    cbn [ThumbnailBatch.video_tasks ThumbnailBatch.totals].
    split; [reflexivity|]. split; [discriminate|]. now split.
Qed.

Lemma join_not_empty (a b : string) : b <> "" -> PosixPath.join a b <> "".
Proof.
  intros Hb Hjoin. apply (f_equal String.length) in Hjoin.
  unfold PosixPath.join in Hjoin.
  destruct (PosixPath.startswith_sep b);
    [|destruct ((String.length a =? 0)%nat || PosixPath.endswith_sep a)];
    rewrite ?length_append in Hjoin; destruct b; try contradiction;
    simpl in Hjoin; lia.
Qed.

(** A path [find_matching_thumbnail] returns is never the empty string, so
    [if thumbnail_file:] holds for it. *)
Lemma found_match (path_exists : string -> bool) (video_file : string)
      (dirs : list string) :
  ThumbnailBatch.found
    (Resolver.find_matching_thumbnail path_exists video_file dirs)
  = Resolver.find_matching_thumbnail path_exists video_file dirs.
Proof.
  destruct (Resolver.find_matching_thumbnail path_exists video_file dirs)
    as [th|] eqn:Hfind; [|reflexivity].
  unfold Resolver.find_matching_thumbnail in Hfind.
  destruct (probe_some _ _ _ _ Hfind)
    as (i & pattern & j & d & Hi & _ & -> & _).
  assert (pattern <> "") as Hpattern.
  { unfold Resolver.patterns_for in Hi.
    intros ->. apply nth_error_In in Hi. simpl in Hi.
    repeat (destruct Hi as [Hi|Hi]); try contradiction;
      apply (f_equal String.length) in Hi;
      rewrite ?length_append in Hi; simpl in Hi; lia. }
  pose proof (join_not_empty d pattern Hpattern) as Hjoin.
  destruct (PosixPath.join d pattern); [contradiction|reflexivity].
Qed.

Lemma task_of_fields (INPUT_DIR OUTPUT_DIR : string) (total i : nat)
      (filename th : string) :
  let task := ThumbnailBatch.task_of INPUT_DIR OUTPUT_DIR total i filename th in
  Thumbnail.input_file task = PosixPath.join INPUT_DIR filename /\
  Thumbnail.output_file task
  = PosixPath.join OUTPUT_DIR
                   (fst (PosixPath.splitext filename) ++ "_with_thumbnail"
                    ++ snd (PosixPath.splitext filename)) /\
  Thumbnail.progress_info task
  = Str.of_nat i ++ "/" ++ Str.of_nat total /\
  Thumbnail.thumbnail_file task = th.
Proof.
  unfold ThumbnailBatch.task_of. destruct (PosixPath.splitext filename).
  simpl. repeat split.
Qed.

(** X12.  The tasks of a run of [process_directory] of the thumbnail script
    that returns, whatever the strategy and the answers: each task is for a
    video file of the listing, reads it from [INPUT_DIR], writes
    [stem_with_thumbnail.ext] in [OUTPUT_DIR], is labelled with the file's
    position among the video files, and uses a thumbnail that existed when
    the task was prepared; the tasks follow the order of the listing and no
    video file has two tasks. *)
Theorem thumbnail_tasks_pair_listed_videos
        (env : environment) (listdir : string -> result (list string))
        (INPUT_DIR OUTPUT_DIR THUMBNAIL_DIR : string)
        (cpu_count : Z) (as_completed : nat -> list nat)
        (listing : list string) (c : ThumbnailBatch.console)
        (r : ThumbnailBatch.report) :
  listdir INPUT_DIR = Returns listing ->
  fst (ThumbnailBatch.process_directory
         env listdir INPUT_DIR OUTPUT_DIR THUMBNAIL_DIR cpu_count
         as_completed c) = Returns r ->
  let video_files := filter Batch.is_video listing in
  exists labels,
    StronglySorted lt labels /\
    Forall2
      (fun i task =>
         exists filename,
           (1 <= i)%nat /\
           nth_error video_files (i - 1) = Some filename /\
           Thumbnail.input_file task = PosixPath.join INPUT_DIR filename /\
           Thumbnail.output_file task
           = PosixPath.join OUTPUT_DIR
                            (fst (PosixPath.splitext filename)
                             ++ "_with_thumbnail"
                             ++ snd (PosixPath.splitext filename)) /\
           Thumbnail.progress_info task
           = Str.of_nat i ++ "/" ++ Str.of_nat (List.length video_files) /\
           path_exists env (Thumbnail.thumbnail_file task) = true)
      labels (ThumbnailBatch.video_tasks r).
Proof.
  intros Hlisting Hrun video_files.
  assert (ThumbnailBatch.video_tasks r = [] ->
          exists labels : list nat,
            StronglySorted lt labels /\
            Forall2
              (fun i task =>
                 exists filename,
                   (1 <= i)%nat /\
                   nth_error video_files (i - 1) = Some filename /\
                   Thumbnail.input_file task
                   = PosixPath.join INPUT_DIR filename /\
                   Thumbnail.output_file task
                   = PosixPath.join OUTPUT_DIR
                                    (fst (PosixPath.splitext filename)
                                     ++ "_with_thumbnail"
                                     ++ snd (PosixPath.splitext filename)) /\
                   Thumbnail.progress_info task
                   = Str.of_nat i ++ "/"
                     ++ Str.of_nat (List.length video_files) /\
                   path_exists env (Thumbnail.thumbnail_file task) = true)
              labels (ThumbnailBatch.video_tasks r)) as Hnone.
  { intros ->. exists []. split; constructor. }
  revert Hrun. unfold ThumbnailBatch.process_directory.
  destruct (path_exists env INPUT_DIR); cbn [negb]; run_console;
    [|intros Hr; injection Hr as <-; now apply Hnone].
  rewrite Hlisting. fold video_files.
  destruct (Batch.is_empty video_files);
    [intros Hr; injection Hr as <-; now apply Hnone|].
  pose proof (prepare_tasks_facts env INPUT_DIR OUTPUT_DIR THUMBNAIL_DIR
                                  video_files c) as Hfacts.
  destruct (ThumbnailBatch.prepare_tasks _ _ _ _ _ c)
    as [[[tasks|]|e] [ans1 wr1]];
    [|intros Hr; injection Hr as <-; now apply Hnone|discriminate].
  destruct (Batch.is_empty tasks);
    [intros Hr; injection Hr as <-; now apply Hnone|].
  rewrite write_all_appends.
  destruct (Pool.thumbnail_process_directory _ _ _) as [t|e];
    [|discriminate].
  rewrite !write_all_appends. intros Hr. injection Hr as <-.
  cbn [ThumbnailBatch.video_tasks].
  destruct Hfacts as [(labels & Hsorted & _ & Hpaired) _].
  exists labels. split; [exact Hsorted|].
  eapply Forall2_impl; [|exact Hpaired].
  intros i task (filename & Hin & Htask & Hexists).
  destruct (enumerate_In_inv _ _ _ _ _ Hin) as [Hle Hnth].
  destruct (task_of_fields INPUT_DIR OUTPUT_DIR (List.length video_files)
                           i filename (Thumbnail.thumbnail_file task))
    as (Hinput & Houtput & Hlabel & _).
  rewrite <- Htask in Hinput, Houtput, Hlabel.
  exists filename. repeat split; assumption.
Qed.

Lemma summary_has_no_warning (cpu_count : Z)
      (tasks : list Thumbnail.video_task) (t : Pool.tally) (n : nat) :
  ThumbnailBatch.warnings
    (ThumbnailBatch.banner cpu_count tasks ++ ThumbnailBatch.summary t n)%list
  = [].
Proof.
  unfold ThumbnailBatch.banner, ThumbnailBatch.summary.
  now destruct (Batch.is_empty (Pool.failed_files t)).
Qed.

(** X13.  The auto-match strategies of [process_directory] of the thumbnail
    script: strategy "2", which looks in [THUMBNAIL_DIR] and [INPUT_DIR], and
    strategy "3", which asks for one directory.  The run returns and reads
    no answer beyond the strategy's own.  Every video file is either given a
    task or warned about: a file for which [find_matching_thumbnail] returns
    a path gets a task with that path as its thumbnail, every other file is
    named in a warning, and the numbers of tasks and of unmatched files add
    up to the number of video files.  Unmatched files are left out of the
    batch; when all are, the pool is not started. *)
Theorem auto_match_pairs_or_warns
        (env : environment) (listdir : string -> result (list string))
        (INPUT_DIR OUTPUT_DIR THUMBNAIL_DIR : string)
        (cpu_count : Z) (as_completed : nat -> list nat)
        (listing : list string) (c : ThumbnailBatch.console)
        (dirs rest : list string) :
  (forall n, Permutation (as_completed n) (seq 0 n)) ->
  path_exists env INPUT_DIR = true ->
  listdir INPUT_DIR = Returns listing ->
  filter Batch.is_video listing <> [] ->
  (ThumbnailBatch.answers c = "2" :: rest /\
   dirs = [THUMBNAIL_DIR; INPUT_DIR]) \/
  (exists thumb_dir,
      ThumbnailBatch.answers c = "3" :: thumb_dir :: rest /\
      path_exists env thumb_dir = true /\
      dirs = [thumb_dir]) ->
  let video_files := filter Batch.is_video listing in
  let run := ThumbnailBatch.process_directory
               env listdir INPUT_DIR OUTPUT_DIR THUMBNAIL_DIR cpu_count
               as_completed c in
  exists r,
    fst run = Returns r /\
    ThumbnailBatch.answers (snd run) = rest /\
    (List.length (ThumbnailBatch.video_tasks r)
     + List.length (ThumbnailBatch.unmatched env INPUT_DIR dirs video_files)
     = List.length video_files)%nat /\
    (forall filename,
        In filename (ThumbnailBatch.unmatched env INPUT_DIR dirs video_files) ->
        In (ThumbnailBatch.Logged warning,
            ThumbnailBatch.MsgNoMatchingThumbnail filename)
           (ThumbnailBatch.written (snd run))) /\
    (forall k filename th,
        nth_error video_files k = Some filename ->
        Resolver.find_matching_thumbnail
          (path_exists env) (PosixPath.join INPUT_DIR filename) dirs
        = Some th ->
        exists task,
          In task (ThumbnailBatch.video_tasks r) /\
          Thumbnail.input_file task = PosixPath.join INPUT_DIR filename /\
          Thumbnail.thumbnail_file task = th /\
          Thumbnail.progress_info task
          = Str.of_nat (S k) ++ "/" ++ Str.of_nat (List.length video_files)) /\
    (ThumbnailBatch.totals r = None <-> ThumbnailBatch.video_tasks r = []).
Proof.
  intros Hperm Hdir Hlisting Hsome Hstrategy video_files run.
  pose proof (thumbnail_directory_run
                env listdir INPUT_DIR OUTPUT_DIR THUMBNAIL_DIR cpu_count
                as_completed listing c Hperm Hdir Hlisting Hsome) as Hrun.
  fold video_files in Hrun. fold run in Hrun.
  destruct c as [ans wr]. cbn [ThumbnailBatch.answers] in Hstrategy.
  assert (exists wr1 tasks,
             ThumbnailBatch.prepare_tasks
               env INPUT_DIR OUTPUT_DIR THUMBNAIL_DIR video_files
               {| ThumbnailBatch.answers := ans; ThumbnailBatch.written := wr |}
             = (Returns (Some tasks),
                {| ThumbnailBatch.answers := rest;
                   ThumbnailBatch.written :=
                     (wr1
                      ++ map (fun f =>
                                (ThumbnailBatch.Logged warning,
                                 ThumbnailBatch.MsgNoMatchingThumbnail f))
                             (ThumbnailBatch.unmatched
                                env INPUT_DIR dirs video_files))%list |}) /\
             (List.length tasks
              + List.length (ThumbnailBatch.unmatched
                               env INPUT_DIR dirs video_files)
              = List.length video_files)%nat /\
             (forall i filename th,
                 In (i, filename) (Str.enumerate video_files 1) ->
                 ThumbnailBatch.found
                   (Resolver.find_matching_thumbnail
                      (path_exists env) (PosixPath.join INPUT_DIR filename)
                      dirs) = Some th ->
                 In (ThumbnailBatch.task_of
                       INPUT_DIR OUTPUT_DIR (List.length video_files)
                       i filename th) tasks))
    as (wr1 & tasks & Hprepared & Hcount & Hall).
  { unfold ThumbnailBatch.prepare_tasks. run_console.
    destruct Hstrategy as [[-> ->]|(thumb_dir & -> & Hthumb & ->)];
      cbn [String.eqb Ascii.eqb Bool.eqb andb]; rewrite ?Hthumb; cbn [negb];
      match goal with
      | |- context [ThumbnailBatch.auto_match _ _ _ _ ?dirs _ ?c1] =>
          destruct (auto_match_facts env INPUT_DIR OUTPUT_DIR
                                     (List.length video_files) dirs
                                     video_files 1 c1)
          as (tasks & labels & Hauto & _ & _ & _ & Hcount & Hall)
      end;
      rewrite Hauto; cbn [ThumbnailBatch.answers ThumbnailBatch.written];
      eexists _, tasks; (split; [reflexivity|]); now split. }
  rewrite Hprepared in Hrun.
  destruct Hrun as (r & added & Hrun & Htasks & Htotals).
  cbn [ThumbnailBatch.answers ThumbnailBatch.written] in Hrun.
  exists r. subst run. rewrite Hrun. cbn [fst snd ThumbnailBatch.answers
                                          ThumbnailBatch.written].
  rewrite Htasks.
  split; [reflexivity|]. split; [reflexivity|]. split; [exact Hcount|].
  split; [|split].
  - intros filename Hin. apply in_or_app. left. apply in_or_app. right.
    apply in_map_iff. now exists filename.
  - intros k filename th Hnth Hfind.
    rewrite <- found_match in Hfind.
    pose proof (Hall (S k) filename th (enumerate_In _ _ 1 k filename Hnth)
                     Hfind) as Hin.
    destruct (task_of_fields INPUT_DIR OUTPUT_DIR (List.length video_files)
                             (S k) filename th)
      as (Hinput & _ & Hlabel & Hthumb).
    eexists. split; [exact Hin|]. now split.
  - destruct (ThumbnailBatch.totals r) as [t|].
    + destruct Htotals as (Hne & _). split; [discriminate|].
      intros Hempty. contradiction.
    + destruct Htotals as (Hempty & _). now split.
Qed.

(** X14.  Strategy "4" of [process_directory] of the thumbnail script, the
    manual selection.  With an answer for every video file the run reads
    exactly one answer per file and returns; the thumbnails of its tasks
    are, in order, the answers that are not [skip] (in any letter case) and
    name an existing file; every other answer that is not [skip] costs one
    warning, and one more warning is logged when no task is left.  When the
    answers run out before the video files do, the run raises [EOFError]:
    nothing is processed, not even the videos already answered for. *)
Theorem manual_selection_reads_one_answer_per_video
        (env : environment) (listdir : string -> result (list string))
        (INPUT_DIR OUTPUT_DIR THUMBNAIL_DIR : string)
        (cpu_count : Z) (as_completed : nat -> list nat)
        (listing : list string) (c : ThumbnailBatch.console)
        (rest : list string) :
  (forall n, Permutation (as_completed n) (seq 0 n)) ->
  path_exists env INPUT_DIR = true ->
  listdir INPUT_DIR = Returns listing ->
  filter Batch.is_video listing <> [] ->
  ThumbnailBatch.answers c = "4" :: rest ->
  let total := List.length (filter Batch.is_video listing) in
  let run := ThumbnailBatch.process_directory
               env listdir INPUT_DIR OUTPUT_DIR THUMBNAIL_DIR cpu_count
               as_completed c in
  ((total <= List.length rest)%nat ->
   exists r,
     fst run = Returns r /\
     ThumbnailBatch.answers (snd run) = skipn total rest /\
     map Thumbnail.thumbnail_file (ThumbnailBatch.video_tasks r)
     = filter (fun a => negb (ThumbnailBatch.is_skip a) && path_exists env a)
              (firstn total rest) /\
     List.length (ThumbnailBatch.warnings (ThumbnailBatch.written (snd run)))
     = (List.length (ThumbnailBatch.warnings (ThumbnailBatch.written c))
        + List.length
            (filter (fun a => negb (ThumbnailBatch.is_skip a)
                              && negb (path_exists env a))
                    (firstn total rest))
        + (if Batch.is_empty (ThumbnailBatch.video_tasks r) then 1 else 0))%nat) /\
  ((List.length rest < total)%nat ->
   fst run = Raises "EOFError" /\ ThumbnailBatch.answers (snd run) = []).
Proof.
  intros Hperm Hdir Hlisting Hsome Hstrategy total run.
  pose proof (thumbnail_directory_run
                env listdir INPUT_DIR OUTPUT_DIR THUMBNAIL_DIR cpu_count
                as_completed listing c Hperm Hdir Hlisting Hsome) as Hrun.
  fold run in Hrun.
  destruct c as [ans wr]. cbn [ThumbnailBatch.answers] in Hstrategy.
  subst ans. revert Hrun.
  unfold ThumbnailBatch.prepare_tasks. run_console.
  cbn [String.eqb Ascii.eqb Bool.eqb andb]. fold total.
  match goal with
  | |- context [ThumbnailBatch.ask_each _ _ _ _ _ ?c1] => set (asked := c1)
  end.
  intros Hrun. split.
  - intros Henough.
    destruct (ask_each_facts env INPUT_DIR OUTPUT_DIR total
                             (filter Batch.is_video listing) 1 asked Henough)
      as (tasks & labels & [ans1 wr1] & Hasked & Hans & _ & _ & _ & Hkept
          & Hwarned).
    fold total in Hans, Hkept, Hwarned.
    rewrite Hasked in Hrun. destruct Hrun as (r & added & Hrun & Htasks & Htotals).
    exists r. rewrite Hrun, Htasks.
    cbn [fst snd ThumbnailBatch.answers ThumbnailBatch.written] in *.
    split; [reflexivity|]. split; [exact Hans|]. split; [exact Hkept|].
    rewrite warnings_app, length_app, Hwarned.
    unfold asked. cbn [ThumbnailBatch.written]. rewrite !warnings_app.
    cbn [ThumbnailBatch.warnings flat_map app]. rewrite !app_nil_r.
    destruct (ThumbnailBatch.totals r) as [t|].
    + destruct Htotals as (Hne & _ & ->).
      rewrite summary_has_no_warning.
      destruct tasks; [contradiction|]. simpl. lia.
    + destruct Htotals as (-> & ->). simpl. lia.
  - intros Hshort.
    destruct (ask_each_eof env INPUT_DIR OUTPUT_DIR total
                           (filter Batch.is_video listing) 1 asked Hshort)
      as (c' & Hasked & Hans).
    rewrite Hasked in Hrun. rewrite Hrun. now split.
Qed.

(** X15.  Every outcome of [process_directory] of the thumbnail script over
    a directory it can list, whatever the operator answers and whatever the
    order in which the futures complete.  The run raises only [EOFError],
    when the answers have run out.  A run that returns without totals has
    prepared no task and has said why: the last line it wrote is a warning or
    an error.  A run that returns with totals had at least one task, at most
    one per video file; the successes and the failures it reports add up to
    the number of tasks, not of video files; and the summary is the last
    thing it wrote. *)
Theorem thumbnail_batch_accounts_for_its_tasks
        (env : environment) (listdir : string -> result (list string))
        (INPUT_DIR OUTPUT_DIR THUMBNAIL_DIR : string)
        (cpu_count : Z) (as_completed : nat -> list nat)
        (listing : list string) (c : ThumbnailBatch.console) :
  (forall n, Permutation (as_completed n) (seq 0 n)) ->
  listdir INPUT_DIR = Returns listing ->
  let run := ThumbnailBatch.process_directory
               env listdir INPUT_DIR OUTPUT_DIR THUMBNAIL_DIR cpu_count
               as_completed c in
  match fst run with
  | Raises e => e = "EOFError" /\ ThumbnailBatch.answers (snd run) = []
  | Returns r =>
      match ThumbnailBatch.totals r with
      | None =>
          ThumbnailBatch.video_tasks r = [] /\
          exists before lvl msg,
            lvl <> info /\
            ThumbnailBatch.written (snd run)
            = (before ++ [(ThumbnailBatch.Logged lvl, msg)])%list
      | Some t =>
          ThumbnailBatch.video_tasks r <> [] /\
          (List.length (ThumbnailBatch.video_tasks r)
           <= List.length (filter Batch.is_video listing))%nat /\
          (Pool.success_count t + List.length (Pool.failed_files t)
           = List.length (ThumbnailBatch.video_tasks r))%nat /\
          exists before,
            ThumbnailBatch.written (snd run)
            = (before
               ++ ThumbnailBatch.summary
                    t (List.length (ThumbnailBatch.video_tasks r)))%list
      end
  end.
Proof.
  intros Hperm Hlisting run.
  destruct (path_exists env INPUT_DIR) eqn:Hdir.
  2:{ subst run. unfold ThumbnailBatch.process_directory.
      rewrite Hdir. cbn [negb]. run_console. cbn.
      split; [reflexivity|]. eexists _, error, _.
      split; [discriminate|reflexivity]. }
  destruct (filter Batch.is_video listing) as [|first others] eqn:Hfiles.
  { subst run. unfold ThumbnailBatch.process_directory.
    rewrite Hdir. cbn [negb]. run_console. rewrite Hlisting, Hfiles. cbn.
    split; [reflexivity|]. eexists _, warning, _.
    split; [discriminate|reflexivity]. }
  assert (filter Batch.is_video listing <> []) as Hsome
      by (rewrite Hfiles; discriminate).
  pose proof (thumbnail_directory_run
                env listdir INPUT_DIR OUTPUT_DIR THUMBNAIL_DIR cpu_count
                as_completed listing c Hperm Hdir Hlisting Hsome) as Hrun.
  fold run in Hrun.
  pose proof (prepare_tasks_facts env INPUT_DIR OUTPUT_DIR THUMBNAIL_DIR
                                  (filter Batch.is_video listing) c) as Hfacts.
  rewrite <- Hfiles.
  destruct (ThumbnailBatch.prepare_tasks _ _ _ _ _ c)
    as [[[tasks|]|e] c1].
  - destruct Hrun as (r & added & Hrun & Htasks & Htotals).
    destruct Hfacts as [_ Hbound].
    rewrite Hrun. cbn [fst snd ThumbnailBatch.written]. rewrite Htasks.
    destruct (ThumbnailBatch.totals r) as [t|].
    + destruct Htotals as (Hne & Hcount & ->).
      split; [exact Hne|]. split; [exact Hbound|]. split; [exact Hcount|].
      exists (ThumbnailBatch.written c1
              ++ ThumbnailBatch.banner cpu_count tasks)%list.
      now rewrite <- app_assoc.
    + destruct Htotals as (-> & ->). split; [reflexivity|].
      eexists _, warning, _. split; [discriminate|reflexivity].
  - rewrite Hrun. cbn [fst snd ThumbnailBatch.totals
                           ThumbnailBatch.video_tasks
                           ThumbnailBatch.nothing_done].
    split; [reflexivity|].
    destruct Hfacts as (before & msg & Hwritten).
    exists before, error, msg. split; [discriminate|exact Hwritten].
  - rewrite Hrun. exact Hfacts.
Qed.

(** X16.  Strategy "1" of [process_directory] of the thumbnail script, one
    thumbnail for all.  When the file the operator names exists every video
    file of the listing gets a task, in order, all with that thumbnail, and
    the totals account for every video file.  When it does not exist the run
    returns at once: an error is logged, no task is prepared and the pool is
    not started.  Either way two answers are read. *)
Theorem one_thumbnail_for_all_videos
        (env : environment) (listdir : string -> result (list string))
        (INPUT_DIR OUTPUT_DIR THUMBNAIL_DIR : string)
        (cpu_count : Z) (as_completed : nat -> list nat)
        (listing : list string) (c : ThumbnailBatch.console)
        (thumbnail_file : string) (rest : list string) :
  (forall n, Permutation (as_completed n) (seq 0 n)) ->
  path_exists env INPUT_DIR = true ->
  listdir INPUT_DIR = Returns listing ->
  filter Batch.is_video listing <> [] ->
  ThumbnailBatch.answers c = "1" :: thumbnail_file :: rest ->
  let video_files := filter Batch.is_video listing in
  let run := ThumbnailBatch.process_directory
               env listdir INPUT_DIR OUTPUT_DIR THUMBNAIL_DIR cpu_count
               as_completed c in
  ThumbnailBatch.answers (snd run) = rest /\
  (path_exists env thumbnail_file = true ->
   exists r t,
     fst run = Returns r /\
     ThumbnailBatch.totals r = Some t /\
     map Thumbnail.input_file (ThumbnailBatch.video_tasks r)
     = map (PosixPath.join INPUT_DIR) video_files /\
     map Thumbnail.thumbnail_file (ThumbnailBatch.video_tasks r)
     = repeat thumbnail_file (List.length video_files) /\
     (Pool.success_count t + List.length (Pool.failed_files t)
      = List.length video_files)%nat) /\
  (path_exists env thumbnail_file = false ->
   fst run = Returns ThumbnailBatch.nothing_done /\
   exists before,
     ThumbnailBatch.written (snd run)
     = (before ++ [(ThumbnailBatch.Logged error,
                    ThumbnailBatch.MsgThumbnailFileNotFound)])%list).
Proof.
  intros Hperm Hdir Hlisting Hsome Hstrategy video_files run.
  pose proof (thumbnail_directory_run
                env listdir INPUT_DIR OUTPUT_DIR THUMBNAIL_DIR cpu_count
                as_completed listing c Hperm Hdir Hlisting Hsome) as Hrun.
  fold run in Hrun. fold video_files in Hrun.
  destruct c as [ans wr]. cbn [ThumbnailBatch.answers] in Hstrategy.
  subst ans. revert Hrun.
  unfold ThumbnailBatch.prepare_tasks. run_console.
  cbn [String.eqb Ascii.eqb Bool.eqb andb].
  destruct (path_exists env thumbnail_file) eqn:Hthumb; cbn [negb];
    intros Hrun.
  - destruct Hrun as (r & added & Hrun & Htasks & Htotals).
    rewrite Hrun. cbn [fst snd ThumbnailBatch.answers].
    split; [reflexivity|]. split; [|discriminate].
    intros _.
    destruct (one_for_all_facts env INPUT_DIR OUTPUT_DIR
                                (List.length video_files) thumbnail_file
                                video_files Hthumb 1)
      as (_ & _ & _ & Hlen & Hsame).
    assert (map Thumbnail.input_file
                (ThumbnailBatch.one_for_all
                   INPUT_DIR OUTPUT_DIR (List.length video_files)
                   thumbnail_file (Str.enumerate video_files 1))
            = map (PosixPath.join INPUT_DIR) video_files) as Hinputs.
    { unfold ThumbnailBatch.one_for_all. rewrite map_map.
      rewrite <- (enumerate_values _ video_files 1) at 2.
      rewrite map_map. apply map_ext. intros [i filename].
      now destruct (task_of_fields INPUT_DIR OUTPUT_DIR
                                   (List.length video_files) i filename
                                   thumbnail_file) as (-> & _). }
    destruct (ThumbnailBatch.totals r) as [t|] eqn:Ht.
    + destruct Htotals as (_ & Hcount & _). rewrite Hlen in Hcount.
      exists r, t. rewrite Htasks. split; [reflexivity|].
      repeat split; assumption.
    + destruct Htotals as (Hempty & _).
      apply (f_equal (@List.length _)) in Hempty. rewrite Hlen in Hempty.
      unfold video_files in Hempty.
      destruct (filter Batch.is_video listing); [contradiction|].
      discriminate Hempty.
  - rewrite Hrun. cbn [fst snd ThumbnailBatch.answers ThumbnailBatch.written].
    split; [reflexivity|]. split; [discriminate|].
    intros _. split; [reflexivity|]. eexists. reflexivity.
Qed.
(** ** TaskEnumerator: which files are video files *)

Lemma lower_default (a : ascii) (r : string) :
  a <> "226"%char -> a <> "196"%char ->
  Str.lower (String a r) = String (Str.lower_char a) (Str.lower r).
Proof.
  intros H1 H2.
  destruct a as [[] [] [] [] [] [] [] []];
    first [reflexivity
          |exfalso; apply H1; reflexivity
          |exfalso; apply H2; reflexivity].
Qed.

Lemma lower_226_other (r : string) :
  (forall r', r <> String "132" (String "170" r')) ->
  Str.lower (String "226" r) = String "226" (Str.lower r).
Proof.
  intros Hother. destruct r as [|b r]; [reflexivity|].
  destruct (ascii_dec b "132") as [->|Hb].
  - destruct r as [|c r]; [reflexivity|].
    destruct (ascii_dec c "170") as [->|Hc].
    + exfalso. now apply (Hother r).
    + destruct c as [[] [] [] [] [] [] [] []];
        first [reflexivity|exfalso; apply Hc; reflexivity].
  - destruct b as [[] [] [] [] [] [] [] []];
      first [reflexivity|exfalso; apply Hb; reflexivity].
Qed.

Lemma lower_196_other (r : string) :
  (forall r', r <> String "176" r') ->
  Str.lower (String "196" r) = String "196" (Str.lower r).
Proof.
  intros Hother. destruct r as [|b r]; [reflexivity|].
  destruct (ascii_dec b "176") as [->|Hb].
  - exfalso. now apply (Hother r).
  - destruct b as [[] [] [] [] [] [] [] []];
      first [reflexivity|exfalso; apply Hb; reflexivity].
Qed.

(** [lower] goes through a concatenation whose second part begins with a
    dot: no multi-byte character straddles the two parts. *)
Lemma lower_append (e0 : string) (n : nat) :
  forall stem : string,
    (String.length stem <= n)%nat ->
    Str.lower (stem ++ String "." e0)
    = Str.lower stem ++ Str.lower (String "." e0).
Proof.
  induction n as [|n IH]; intros stem Hlen.
  - destruct stem; [reflexivity|simpl in Hlen; lia].
  - destruct stem as [|a r]; [reflexivity|]. simpl in Hlen.
    destruct (ascii_dec a "226") as [->|Ha1].
    + destruct r as [|b r]; [reflexivity|].
      destruct (ascii_dec b "132") as [->|Hb].
      * destruct r as [|c r]; [reflexivity|].
        destruct (ascii_dec c "170") as [->|Hc].
        -- change (String "k" (Str.lower (r ++ String "." e0))
                   = String "k" (Str.lower r ++ Str.lower (String "." e0))).
           f_equal. apply IH. simpl in Hlen. lia.
        -- cbn [append].
           rewrite (lower_226_other (String "132" (String c (r ++ _))))
             by (intros r' Heq; injection Heq as Heq _; contradiction).
           rewrite (lower_226_other (String "132" (String c r)))
             by (intros r' Heq; injection Heq as Heq _; contradiction).
           cbn [append]. f_equal.
           exact (IH (String "132" (String c r)) ltac:(simpl in *; lia)).
      * cbn [append].
        rewrite (lower_226_other (String b (r ++ _)))
          by (intros r' Heq; injection Heq as Heq _; contradiction).
        rewrite (lower_226_other (String b r))
          by (intros r' Heq; injection Heq as Heq _; contradiction).
        cbn [append]. f_equal.
        exact (IH (String b r) ltac:(simpl in *; lia)).
    + destruct (ascii_dec a "196") as [->|Ha2].
      * destruct r as [|b r]; [reflexivity|].
        destruct (ascii_dec b "176") as [->|Hb].
        -- change (String "i" (String "204" (String "135"
                     (Str.lower (r ++ String "." e0))))
                   = String "i" (String "204" (String "135"
                       (Str.lower r ++ Str.lower (String "." e0))))).
           do 3 f_equal. apply IH. simpl in Hlen. lia.
        -- cbn [append].
           rewrite (lower_196_other (String b (r ++ _)))
             by (intros r' Heq; injection Heq as Heq _; contradiction).
           rewrite (lower_196_other (String b r))
             by (intros r' Heq; injection Heq as Heq _; contradiction).
           cbn [append]. f_equal.
           exact (IH (String b r) ltac:(simpl in *; lia)).
      * cbn [append]. rewrite !(lower_default a) by assumption.
        cbn [append]. f_equal. apply IH. lia.
Qed.

Lemma lower_char_dot (a : ascii) :
  Str.lower_char a = "."%char -> a = "."%char.
Proof.
  destruct a as [[] [] [] [] [] [] [] []]; intros H;
    first [reflexivity|discriminate H].
Qed.

(** A string whose lower case begins with a dot begins with a dot. *)
Lemma lower_starts_with_dot (e r : string) :
  Str.lower e = String "." r -> exists e0, e = String "." e0.
Proof.
  destruct e as [|a e0]; [discriminate|]. intros Hlower.
  destruct (ascii_dec a "226") as [->|Ha1].
  - exfalso. destruct e0 as [|b e0]; [discriminate Hlower|].
    destruct (ascii_dec b "132") as [->|Hb].
    + destruct e0 as [|c e0]; [discriminate Hlower|].
      destruct (ascii_dec c "170") as [->|Hc]; [discriminate Hlower|].
      rewrite lower_226_other in Hlower; [discriminate Hlower|].
      intros r' Heq. injection Heq as Heq _. contradiction.
    + rewrite lower_226_other in Hlower; [discriminate Hlower|].
      intros r' Heq. injection Heq as Heq _. contradiction.
  - destruct (ascii_dec a "196") as [->|Ha2].
    + exfalso. destruct e0 as [|b e0]; [discriminate Hlower|].
      destruct (ascii_dec b "176") as [->|Hb]; [discriminate Hlower|].
      rewrite lower_196_other in Hlower; [discriminate Hlower|].
      intros r' Heq. injection Heq as Heq. contradiction.
    + rewrite lower_default in Hlower by assumption.
      injection Hlower as Hdot _. apply lower_char_dot in Hdot. subst a.
      now exists e0.
Qed.

Lemma string_eqb_refl (s : string) : String.eqb s s = true.
Proof. now apply String.eqb_eq. Qed.

Lemma endswith_append (a b : string) : Str.endswith (a ++ b) b = true.
Proof.
  unfold Str.endswith. rewrite length_append.
  replace (String.length b <=? String.length a + String.length b)%nat
    with true by (symmetry; apply Nat.leb_le; lia).
  replace (String.length a + String.length b - String.length b)%nat
    with (String.length a) by lia.
  pose proof (drop_append a b) as Hdrop. unfold PosixPath.drop in Hdrop.
  rewrite length_append in Hdrop.
  replace (String.length a + String.length b - String.length a)%nat
    with (String.length b) in Hdrop by lia.
  rewrite Hdrop. apply string_eqb_refl.
Qed.

(** X17.  The batch functions pick video files by their extension without
    regard to letter case: a name that ends in one of the five supported
    extensions, written in any mix of upper and lower case, is a video
    file, whatever comes before the extension. *)
Theorem is_video_ignores_case (stem e : string) :
  In (Str.lower e) Batch.supported_extensions ->
  Batch.is_video (stem ++ e) = true.
Proof.
  intros Hext.
  assert (exists e0, e = String "." e0) as [e0 ->].
  { unfold Batch.supported_extensions in Hext. simpl in Hext.
    repeat (destruct Hext as [Hext|Hext]); try contradiction;
      symmetry in Hext; exact (lower_starts_with_dot _ _ Hext). }
  unfold Batch.is_video. apply existsb_exists.
  exists (Str.lower (String "." e0)). split; [exact Hext|].
  rewrite (lower_append e0 (String.length stem) stem (le_n _)).
  apply endswith_append.
Qed.

Lemma is_video_ignores_case_witness :
  In (Str.lower ".MoV") Batch.supported_extensions /\
  Batch.is_video ("Holiday Clip" ++ ".MoV") = true.
Proof.
  assert (In (Str.lower ".MoV") Batch.supported_extensions) as Hext
      by (simpl; auto).
  split; [exact Hext|].
  exact (is_video_ignores_case "Holiday Clip" ".MoV" Hext).
Defined.
(** ** scheduler.py: privacy and schedule of an upload *)

(** X18.  The request [main] of the scheduler has [upload_video] send for
    one video.  The video is uploaded private exactly when a schedule time
    was entered, parsed, and lay in the future when [main] checked it; an
    empty, malformed or past schedule gives an immediate public upload, the
    last two with a printed notice.  A publication time is sent only for a
    private upload whose time is still in the future when [upload_video]
    reads the clock, so a public video never carries one.  The clock is read
    twice: a time that passes between the two readings leaves the video
    private with no publication time. *)
Theorem uploads_are_public_unless_scheduled
        (strftime : Z -> string) (strptime : string -> option Z)
        (video title_answer desc schedule_str : string)
        (now_main now_upload : Z) :
  let r := Scheduler.request_for strftime strptime video title_answer desc
                                 schedule_str now_main now_upload in
  let st := Scheduler.body_status (fst r) in
  (Scheduler.privacyStatus st = "private" <->
   schedule_str <> "" /\
   exists t, strptime schedule_str = Some t /\ (now_main < t)%Z) /\
  (Scheduler.privacyStatus st = "public" <->
   schedule_str = "" \/
   (strptime schedule_str = None /\
    snd r = [Scheduler.InvalidDatetimeFormat]) \/
   (exists t, strptime schedule_str = Some t /\ (t <= now_main)%Z /\
              snd r = [Scheduler.ScheduleNotInFuture])) /\
  (forall s,
      Scheduler.publishAt st = Some s ->
      Scheduler.privacyStatus st = "private" /\
      exists t, strptime schedule_str = Some t /\ (now_upload < t)%Z /\
                s = strftime t) /\
  (Scheduler.privacyStatus st = "private" ->
   Scheduler.publishAt st = None ->
   exists t, strptime schedule_str = Some t /\
             (now_main < t <= now_upload)%Z).
Proof.
  intros r st. subst st r.
  unfold Scheduler.request_for, Scheduler.publish_at_of.
  destruct (String.eqb_spec schedule_str "") as [->|Hnonempty].
  - cbn. split; [|split; [|split]].
    + split; [discriminate|]. intros [H _]. contradiction.
    + split; auto.
    + discriminate.
    + discriminate.
  - destruct (strptime schedule_str) as [t|] eqn:Hparse.
    + destruct (Z.leb_spec t now_main) as [Hpast|Hfuture]; cbn.
      * split; [|split; [|split]].
        -- split; [discriminate|].
           intros [_ (t' & Ht' & Hlt)]. injection Ht' as <-. lia.
        -- split; [|reflexivity]. intros _. right. right. exists t. auto.
        -- discriminate.
        -- discriminate.
      * split; [|split; [|split]].
        -- split; [|reflexivity]. intros _. split; [exact Hnonempty|].
           exists t. auto.
        -- split; [discriminate|].
           intros [Hempty|[[Hnone _]|(t' & Ht' & Hle & _)]];
             [contradiction|discriminate Hnone|].
           injection Ht' as <-. lia.
        -- intros s. destruct (Z.ltb_spec now_upload t) as [Hlater|Hpassed];
             [|discriminate].
           intros Hs. injection Hs as <-. split; [reflexivity|].
           exists t. auto.
        -- intros _. destruct (Z.ltb_spec now_upload t) as [Hlater|Hpassed];
             [discriminate|].
           intros _. exists t. split; [reflexivity|lia].
    + cbn. split; [|split; [|split]].
      * split; [discriminate|]. intros [_ (t' & Ht' & _)]. discriminate Ht'.
      * split; [|reflexivity]. intros _. right. left. auto.
      * discriminate.
      * discriminate.
Qed.
(** ** resize_thumbnails.py: what the loop touches and what it counts *)

Section ResizeFacts.

Variable env : Resize.pillow.
Variable THUMBNAIL_DIR : string.

(** A file event of a run is about a PNG file of the listing, at its path
    in [THUMBNAIL_DIR]; a save wrote a size that differs from the size the
    file had. *)
Local Notation "'touches' listing" :=
  (fun e : Resize.file_event =>
     exists filename original,
       In filename listing /\
       Resize.is_png filename = true /\
       Resize.image_open env (PosixPath.join THUMBNAIL_DIR filename)
       = Returns original /\
       (e = Resize.ImageOpened (PosixPath.join THUMBNAIL_DIR filename) \/
        exists new_size,
          e = Resize.ImageSaved (PosixPath.join THUMBNAIL_DIR filename)
                                new_size /\
          Resize.image_thumbnail
            env (PosixPath.join THUMBNAIL_DIR filename)
            (Resize.TARGET_WIDTH, Resize.TARGET_HEIGHT)
          = Returns new_size /\
          new_size <> original))
    (at level 10, listing at level 9, only parsing).

Lemma size_eqb_false (a b : Z * Z) : Resize.size_eqb a b = false -> a <> b.
Proof.
  unfold Resize.size_eqb. intros H ->.
  rewrite !Z.eqb_refl in H. discriminate H.
Qed.

Lemma saves_app (a b : list Resize.file_event) :
  Resize.saves (a ++ b)%list = (Resize.saves a ++ Resize.saves b)%list.
Proof. apply flat_map_app. Qed.

Lemma reported_resized_app (a b : list (level * Resize.resize_message)) :
  Resize.reported_resized (a ++ b)%list
  = (Resize.reported_resized a ++ Resize.reported_resized b)%list.
Proof. apply flat_map_app. Qed.

Lemma reported_failed_app (a b : list (level * Resize.resize_message)) :
  Resize.reported_failed (a ++ b)%list
  = (Resize.reported_failed a ++ Resize.reported_failed b)%list.
Proof. apply flat_map_app. Qed.

(** One turn of the loop. *)
Lemma resize_one_step (acc : Resize.progress) (filename : string) :
  let p := Resize.resize_one env THUMBNAIL_DIR acc filename in
  exists events lines,
    Resize.file_events p = (Resize.file_events acc ++ events)%list /\
    Resize.resize_log p = (Resize.resize_log acc ++ lines)%list /\
    Forall (touches [filename]) events /\
    (Resize.resized_count p
     = Resize.resized_count acc + List.length (Resize.saves events))%nat /\
    List.length (Resize.reported_resized lines)
    = List.length (Resize.saves events) /\
    (List.length (Resize.saves events)
     + List.length (Resize.reported_failed lines)
     <= if Resize.is_png filename then 1 else 0)%nat /\
    (Resize.is_png filename = true ->
     (exists e, Resize.image_open env (PosixPath.join THUMBNAIL_DIR filename)
                = Raises e) \/
     In (Resize.ImageOpened (PosixPath.join THUMBNAIL_DIR filename)) events).
Proof.
  intros p. subst p. unfold Resize.resize_one.
  destruct (Resize.is_png filename) eqn:Hpng.
  2:{ exists [], []. rewrite !app_nil_r.
      split; [reflexivity|]. split; [reflexivity|]. split; [constructor|].
      split; [simpl; lia|]. split; [reflexivity|]. split; [simpl; lia|].
      discriminate. }
  destruct (Resize.image_open env _) as [original|e] eqn:Hopen.
  2:{ exists [], [(error, Resize.MsgFailedToResize filename e)].
      unfold Resize.failed. cbn [Resize.file_events Resize.resize_log
                                 Resize.resized_count].
      split; [reflexivity|]. split; [reflexivity|]. split; [constructor|].
      split; [simpl; lia|]. split; [reflexivity|]. split; [simpl; lia|].
      intros _. left. now exists e. }
  assert (touches [filename]
                  (Resize.ImageOpened (PosixPath.join THUMBNAIL_DIR filename)))
    as Hopened.
  { exists filename, original. split; [now left|]. split; [exact Hpng|].
    split; [exact Hopen|]. now left. }
  destruct (Resize.image_thumbnail env _ _) as [new_size|e] eqn:Hthumb.
  2:{ exists [Resize.ImageOpened (PosixPath.join THUMBNAIL_DIR filename)],
        [(error, Resize.MsgFailedToResize filename e)].
      unfold Resize.failed. cbn [Resize.file_events Resize.resize_log
                                 Resize.resized_count].
      split; [reflexivity|]. split; [reflexivity|].
      split; [constructor; [exact Hopened|constructor]|].
      split; [simpl; lia|]. split; [reflexivity|]. split; [simpl; lia|].
      intros _. right. now left. }
  destruct (Resize.size_eqb new_size original) eqn:Hsame; cbn [negb].
  { exists [Resize.ImageOpened (PosixPath.join THUMBNAIL_DIR filename)], [].
    cbn [Resize.file_events Resize.resize_log Resize.resized_count].
    rewrite app_nil_r.
    split; [reflexivity|]. split; [reflexivity|].
    split; [constructor; [exact Hopened|constructor]|].
    split; [simpl; lia|]. split; [reflexivity|]. split; [simpl; lia|].
    intros _. right. now left. }
  destruct (Resize.image_save env _ _) as [[]|e] eqn:Hsave.
  - exists [Resize.ImageOpened (PosixPath.join THUMBNAIL_DIR filename);
            Resize.ImageSaved (PosixPath.join THUMBNAIL_DIR filename) new_size],
      [(info, Resize.MsgResized filename original new_size)].
    cbn [Resize.file_events Resize.resize_log Resize.resized_count].
    split; [reflexivity|]. split; [reflexivity|]. split.
    { constructor; [exact Hopened|]. constructor; [|constructor].
      exists filename, original. split; [now left|]. split; [exact Hpng|].
      split; [exact Hopen|]. right. exists new_size.
      split; [reflexivity|]. split; [exact Hthumb|].
      now apply size_eqb_false. }
    split; [simpl; lia|]. split; [reflexivity|]. split; [simpl; lia|].
    intros _. right. now left.
  - exists [Resize.ImageOpened (PosixPath.join THUMBNAIL_DIR filename)],
      [(error, Resize.MsgFailedToResize filename e)].
    unfold Resize.failed. cbn [Resize.file_events Resize.resize_log
                               Resize.resized_count].
    split; [reflexivity|]. split; [reflexivity|].
    split; [constructor; [exact Hopened|constructor]|].
    split; [simpl; lia|]. split; [reflexivity|]. split; [simpl; lia|].
    intros _. right. now left.
Qed.

Lemma touches_more (l1 l2 : list string) (events : list Resize.file_event) :
  incl l1 l2 ->
  Forall (touches l1) events -> Forall (touches l2) events.
Proof.
  intros Hincl. apply Forall_impl.
  intros e (filename & original & Hin & Hrest).
  exists filename, original. split; [now apply Hincl|exact Hrest].
Qed.

(** The whole loop. *)
Lemma resize_loop (listing : list string) :
  forall acc : Resize.progress,
    let p := fold_left (Resize.resize_one env THUMBNAIL_DIR) listing acc in
    exists events lines,
      Resize.file_events p = (Resize.file_events acc ++ events)%list /\
      Resize.resize_log p = (Resize.resize_log acc ++ lines)%list /\
      Forall (touches listing) events /\
      (Resize.resized_count p
       = Resize.resized_count acc + List.length (Resize.saves events))%nat /\
      List.length (Resize.reported_resized lines)
      = List.length (Resize.saves events) /\
      (List.length (Resize.saves events)
       + List.length (Resize.reported_failed lines)
       <= List.length (filter Resize.is_png listing))%nat /\
      (forall filename,
          In filename listing -> Resize.is_png filename = true ->
          (exists e,
              Resize.image_open env (PosixPath.join THUMBNAIL_DIR filename)
              = Raises e) \/
          In (Resize.ImageOpened (PosixPath.join THUMBNAIL_DIR filename))
             events).
Proof.
  induction listing as [|filename rest IH]; intros acc.
  - exists [], []. cbn [fold_left]. rewrite !app_nil_r.
    split; [reflexivity|]. split; [reflexivity|]. split; [constructor|].
    split; [simpl; lia|]. split; [reflexivity|]. split; [simpl; lia|].
    intros filename [].
  - cbn [fold_left].
    destruct (resize_one_step acc filename)
      as (ev1 & ln1 & Hev1 & Hln1 & Ht1 & Hc1 & Hr1 & Hb1 & Ho1).
    destruct (IH (Resize.resize_one env THUMBNAIL_DIR acc filename))
      as (ev2 & ln2 & Hev2 & Hln2 & Ht2 & Hc2 & Hr2 & Hb2 & Ho2).
    exists (ev1 ++ ev2)%list, (ln1 ++ ln2)%list.
    rewrite Hev2, Hln2, Hev1, Hln1, Hc2, Hc1, <- !app_assoc.
    rewrite saves_app, reported_resized_app, reported_failed_app, !length_app.
    split; [reflexivity|]. split; [reflexivity|]. split; [|split; [|split; [|split]]].
    + apply Forall_app. split.
      * eapply touches_more; [|exact Ht1].
        intros x [<-|[]]. now left.
      * eapply touches_more; [|exact Ht2]. intros x Hx. now right.
    + lia.
    + lia.
    + cbn [filter]. destruct (Resize.is_png filename); cbn [List.length]; lia.
    + intros f [<-|Hin] Hpng.
      * destruct (Ho1 Hpng) as [Hfail|Hin]; [now left|].
        right. apply in_or_app. now left.
      * destruct (Ho2 f Hin Hpng) as [Hfail|Hin']; [now left|].
        right. apply in_or_app. now right.
Qed.

End ResizeFacts.

(** X19.  A run of [resize_thumbnails] over a directory it can list.  It
    returns, and a failure on one file does not stop it: every PNG file of
    the listing (by its extension in any letter case) that can be opened is
    opened.  It touches nothing else: every file it opens or saves is a PNG
    file of the listing at its path in [THUMBNAIL_DIR], and an image is saved,
    over the original, only when its size changed.  The count it reports at
    the end is the number of files it saved, which is the number of
    [Resized] lines it logged; saves and logged failures together never
    exceed the number of PNG files. *)
Theorem resize_thumbnails_attempts_every_png
        (env : Resize.pillow) (THUMBNAIL_DIR : string)
        (listing : list string) :
  Resize.dir_exists env THUMBNAIL_DIR = true ->
  Resize.listdir env THUMBNAIL_DIR = Returns listing ->
  exists p,
    Resize.resize_thumbnails env THUMBNAIL_DIR = Returns p /\
    (forall filename,
        In filename listing -> Resize.is_png filename = true ->
        (exists e,
            Resize.image_open env (PosixPath.join THUMBNAIL_DIR filename)
            = Raises e) \/
        In (Resize.ImageOpened (PosixPath.join THUMBNAIL_DIR filename))
           (Resize.file_events p)) /\
    (forall e,
        In e (Resize.file_events p) ->
        exists filename original,
          In filename listing /\
          Resize.is_png filename = true /\
          Resize.image_open env (PosixPath.join THUMBNAIL_DIR filename)
          = Returns original /\
          (e = Resize.ImageOpened (PosixPath.join THUMBNAIL_DIR filename) \/
           exists new_size,
             e = Resize.ImageSaved (PosixPath.join THUMBNAIL_DIR filename)
                                   new_size /\
             Resize.image_thumbnail
               env (PosixPath.join THUMBNAIL_DIR filename)
               (Resize.TARGET_WIDTH, Resize.TARGET_HEIGHT)
             = Returns new_size /\
             new_size <> original)) /\
    Resize.resized_count p = List.length (Resize.saves (Resize.file_events p)) /\
    Resize.resized_count p
    = List.length (Resize.reported_resized (Resize.resize_log p)) /\
    (Resize.resized_count p
     + List.length (Resize.reported_failed (Resize.resize_log p))
     <= List.length (filter Resize.is_png listing))%nat /\
    exists before,
      Resize.resize_log p
      = (before
         ++ [(info, Resize.MsgCompletedResizing (Resize.resized_count p))])%list.
Proof.
  intros Hdir Hlisting. unfold Resize.resize_thumbnails.
  rewrite Hdir, Hlisting. cbn [negb].
  destruct (resize_loop env THUMBNAIL_DIR listing Resize.nothing_resized)
    as (events & lines & Hev & Hln & Htouch & Hcount & Hres & Hbound & Hopen).
  cbn [Resize.nothing_resized Resize.file_events Resize.resize_log
       Resize.resized_count app Nat.add] in Hev, Hln, Hcount.
  eexists. split; [reflexivity|].
  cbn [Resize.file_events Resize.resize_log Resize.resized_count].
  rewrite Hev, Hln, Hcount, reported_resized_app, reported_failed_app,
    !length_app.
  split; [exact Hopen|]. split; [|split; [|split; [|split]]].
  - intros e Hin. exact (proj1 (Forall_forall _ _) Htouch e Hin).
  - reflexivity.
  - simpl. lia.
  - simpl. lia.
  - now exists lines.
Qed.
(** ** The batch functions on concrete inputs *)

Lemma newest_first_is_complete (n : nat) :
  Permutation (BatchExamples.newest_first n) (seq 0 n).
Proof.
  unfold BatchExamples.newest_first.
  apply Permutation_sym, Permutation_rev.
Defined.

Lemma listing_has_videos : filter Batch.is_video BatchExamples.listing <> [].
Proof. intros H. vm_compute in H. discriminate H. Defined.

Lemma watermark_batch_accounts_for_every_video_witness :
  exists r t,
    WatermarkBatch.process_directory
      BatchExamples.env BatchExamples.listdir "/in" "/out"
      "/wm/logo.png" "/wm/subscribe.png" 8 BatchExamples.newest_first
    = Returns r /\
    WatermarkBatch.totals r = Some t /\
    (Pool.success_count t + List.length (Pool.failed_files t) = 2)%nat.
Proof.
  destruct (watermark_batch_accounts_for_every_video
              BatchExamples.env BatchExamples.listdir "/in" "/out"
              "/wm/logo.png" "/wm/subscribe.png" 8 BatchExamples.newest_first
              BatchExamples.listing newest_first_is_complete
              eq_refl eq_refl listing_has_videos)
    as (r & t & Hrun & Htotals & _ & Hcount & _).
  exists r, t. split; [exact Hrun|]. split; [exact Htotals|exact Hcount].
Defined.


Lemma thumbnail_tasks_pair_listed_videos_witness :
  exists r labels,
    fst (ThumbnailBatch.process_directory
           BatchExamples.env BatchExamples.listdir "/in" "/out" "/thumbs" 8
           BatchExamples.newest_first (BatchExamples.operator ["2"]))
    = Returns r /\
    StronglySorted lt labels /\
    List.length labels = List.length (ThumbnailBatch.video_tasks r).
Proof.
  assert (exists r,
             fst (ThumbnailBatch.process_directory
                    BatchExamples.env BatchExamples.listdir "/in" "/out"
                    "/thumbs" 8 BatchExamples.newest_first
                    (BatchExamples.operator ["2"])) = Returns r)
    as [r Hrun] by (eexists; vm_compute; reflexivity).
  destruct (thumbnail_tasks_pair_listed_videos
              BatchExamples.env BatchExamples.listdir "/in" "/out" "/thumbs" 8
              BatchExamples.newest_first BatchExamples.listing
              (BatchExamples.operator ["2"]) r eq_refl Hrun)
    as (labels & Hsorted & Hpaired).
  exists r, labels. split; [exact Hrun|]. split; [exact Hsorted|].
  exact (Forall2_length Hpaired).
Defined.

Lemma auto_match_pairs_or_warns_witness :
  exists r,
    fst (ThumbnailBatch.process_directory
           BatchExamples.env BatchExamples.listdir "/in" "/out" "/thumbs" 8
           BatchExamples.newest_first (BatchExamples.operator ["2"; "spare"]))
    = Returns r /\
    ThumbnailBatch.answers
      (snd (ThumbnailBatch.process_directory
              BatchExamples.env BatchExamples.listdir "/in" "/out" "/thumbs" 8
              BatchExamples.newest_first
              (BatchExamples.operator ["2"; "spare"])))
    = ["spare"] /\
    In (ThumbnailBatch.Logged warning,
        ThumbnailBatch.MsgNoMatchingThumbnail "b.MOV")
       (ThumbnailBatch.written
          (snd (ThumbnailBatch.process_directory
                  BatchExamples.env BatchExamples.listdir "/in" "/out"
                  "/thumbs" 8 BatchExamples.newest_first
                  (BatchExamples.operator ["2"; "spare"])))).
Proof.
  destruct (auto_match_pairs_or_warns
              BatchExamples.env BatchExamples.listdir "/in" "/out" "/thumbs" 8
              BatchExamples.newest_first BatchExamples.listing
              (BatchExamples.operator ["2"; "spare"])
              ["/thumbs"; "/in"] ["spare"]
              newest_first_is_complete eq_refl eq_refl listing_has_videos
              (or_introl (conj eq_refl eq_refl)))
    as (r & Hrun & Hanswers & _ & Hwarned & _).
  exists r. split; [exact Hrun|]. split; [exact Hanswers|].
  apply Hwarned. vm_compute. auto.
Defined.

Lemma manual_selection_reads_one_answer_per_video_witness :
  exists r,
    fst (ThumbnailBatch.process_directory
           BatchExamples.env BatchExamples.listdir "/in" "/out" "/thumbs" 8
           BatchExamples.newest_first
           (BatchExamples.operator ["4"; "Skip"; "/thumbs/cover.png"]))
    = Returns r /\
    map Thumbnail.thumbnail_file (ThumbnailBatch.video_tasks r)
    = ["/thumbs/cover.png"].
Proof.
  destruct (proj1 (manual_selection_reads_one_answer_per_video
                     BatchExamples.env BatchExamples.listdir "/in" "/out"
                     "/thumbs" 8 BatchExamples.newest_first
                     BatchExamples.listing
                     (BatchExamples.operator
                        ["4"; "Skip"; "/thumbs/cover.png"])
                     ["Skip"; "/thumbs/cover.png"]
                     newest_first_is_complete eq_refl eq_refl
                     listing_has_videos eq_refl)
                  (le_n 2))
    as (r & Hrun & _ & Hkept & _).
  exists r. split; [exact Hrun|exact Hkept].
Defined.

Lemma thumbnail_batch_accounts_for_its_tasks_witness :
  match fst (ThumbnailBatch.process_directory
               BatchExamples.env BatchExamples.listdir "/in" "/out" "/thumbs"
               8 BatchExamples.newest_first (BatchExamples.operator ["4"]))
  with
  | Raises e => e = "EOFError"
  | Returns _ => False
  end.
Proof.
  pose proof (thumbnail_batch_accounts_for_its_tasks
                BatchExamples.env BatchExamples.listdir "/in" "/out" "/thumbs"
                8 BatchExamples.newest_first BatchExamples.listing
                (BatchExamples.operator ["4"])
                newest_first_is_complete eq_refl) as Houtcome.
  cbv zeta in Houtcome.
  destruct (fst (ThumbnailBatch.process_directory _ _ _ _ _ _ _ _))
    as [r|e] eqn:Hrun.
  - vm_compute in Hrun. discriminate Hrun.
  - exact (proj1 Houtcome).
Defined.

Lemma one_thumbnail_for_all_videos_witness :
  exists r t,
    fst (ThumbnailBatch.process_directory
           BatchExamples.env BatchExamples.listdir "/in" "/out" "/thumbs" 8
           BatchExamples.newest_first
           (BatchExamples.operator ["1"; "/thumbs/cover.png"]))
    = Returns r /\
    ThumbnailBatch.totals r = Some t /\
    map Thumbnail.input_file (ThumbnailBatch.video_tasks r)
    = ["/in/b.MOV"; "/in/a.mp4"] /\
    (Pool.success_count t + List.length (Pool.failed_files t) = 2)%nat.
Proof.
  destruct (proj1 (proj2 (one_thumbnail_for_all_videos
                            BatchExamples.env BatchExamples.listdir
                            "/in" "/out" "/thumbs" 8
                            BatchExamples.newest_first BatchExamples.listing
                            (BatchExamples.operator
                               ["1"; "/thumbs/cover.png"])
                            "/thumbs/cover.png" []
                            newest_first_is_complete eq_refl eq_refl
                            listing_has_videos eq_refl))
                  eq_refl)
    as (r & t & Hrun & Htotals & Hinputs & _ & Hcount).
  exists r, t. split; [exact Hrun|]. split; [exact Htotals|].
  split; [exact Hinputs|exact Hcount].
Defined.

Lemma resize_thumbnails_attempts_every_png_witness :
  exists p,
    Resize.resize_thumbnails BatchExamples.thumbnails "/thumbs" = Returns p /\
    In (Resize.ImageOpened "/thumbs/small.png") (Resize.file_events p) /\
    Resize.resized_count p
    = List.length (Resize.saves (Resize.file_events p)).
Proof.
  destruct (resize_thumbnails_attempts_every_png
              BatchExamples.thumbnails "/thumbs"
              ["large.PNG"; "broken.png"; "small.png"; "readme.md"]
              eq_refl eq_refl)
    as (p & Hrun & Hopened & _ & Hcount & _).
  exists p. split; [exact Hrun|]. split; [|exact Hcount].
  destruct (Hopened "small.png" ltac:(simpl; auto) eq_refl)
    as [[e He]|Hin]; [discriminate He|exact Hin].
Defined.

Example resize_run :
  exists p,
    Resize.resize_thumbnails BatchExamples.thumbnails "/thumbs" = Returns p /\
    Resize.resized_count p = 1%nat /\
    Resize.saves (Resize.file_events p)
    = [("/thumbs/large.PNG", (1080, 1920)%Z)] /\
    Resize.reported_failed (Resize.resize_log p) = ["broken.png"].
Proof. eexists. split; [reflexivity|]. repeat split. Qed.

Example schedule_that_passes :
  let r := Scheduler.request_for
             (fun _ => "2030-01-01T00:00:00Z")
             (fun _ => Some 100%Z)
             "/videos/clip.mp4" "" "" "2030-01-01 00:00" 99 100 in
  Scheduler.title (Scheduler.body_snippet (fst r)) = "clip" /\
  Scheduler.privacyStatus (Scheduler.body_status (fst r)) = "private" /\
  Scheduler.publishAt (Scheduler.body_status (fst r)) = None.
Proof. repeat split. Qed.
